(** * OOM handling of stress-ng: the score adjuster, the kill detector and
      the supervisor of OOM-able children

    A shallow embedding of [stress_process_oomed], [stress_set_adjustment],
    [stress_set_oom_adjustment] and [stress_oomable_child].  The operating
    system is replaced by replayed answers: every call whose result the code
    looks at takes its answer from the environment, every call made for its
    effect is appended to a trace of events. *)

From Stdlib Require Import ZArith List String Ascii Bool Lia Permutation.
Import ListNotations.
Open Scope Z_scope.

(* ================================================================== *)
(** ** Constants of the platform

    The code takes error numbers, signal numbers, the wait-status macros and
    the option bit masks from system headers and from [stress-ng.h].  None
    of them is defined in the sources embedded here, so they are a
    parameter of the development. *)

Class Platform : Type := {
  EAGAIN : Z;
  EINTR : Z;
  ENOENT : Z;
  ENOMEM : Z;
  ECHILD : Z;
  SIGALRM : Z;
  SIGTERM : Z;
  SIGKILL : Z;
  SIGBUS : Z;
  SIGSEGV : Z;
  EXIT_SUCCESS : Z;
  WIFSIGNALED : Z -> bool;
  WTERMSIG : Z -> Z;
  WEXITSTATUS : Z -> Z;
  OPT_FLAGS_NO_OOM_ADJUST : Z;
  OPT_FLAGS_OOMABLE : Z;
  STRESS_OOMABLE_DROP_CAP : Z;
  STRESS_OOMABLE_QUIET : Z
}.

(** Linux on x86-64 with glibc: the numbers of [errno-base.h] and
    [signal.h], and the status macros of [bits/waitstatus.h]
    ([WIFSIGNALED] is [((signed char)((s & 0x7f) + 1) >> 1) > 0], true
    exactly when the low seven bits are between 1 and 126).  The four bit
    masks are sample values: distinct single bits. *)
Definition linux : Platform := {|
  EAGAIN := 11;
  EINTR := 4;
  ENOENT := 2;
  ENOMEM := 12;
  ECHILD := 10;
  SIGALRM := 14;
  SIGTERM := 15;
  SIGKILL := 9;
  SIGBUS := 7;
  SIGSEGV := 11;
  EXIT_SUCCESS := 0;
  WIFSIGNALED := fun s => (1 <=? Z.land s 127) && (Z.land s 127 <=? 126);
  WTERMSIG := fun s => Z.land s 127;
  WEXITSTATUS := fun s => Z.shiftr (Z.land s 65280) 8;
  OPT_FLAGS_NO_OOM_ADJUST := 1;
  OPT_FLAGS_OOMABLE := 2;
  STRESS_OOMABLE_DROP_CAP := 1;
  STRESS_OOMABLE_QUIET := 2
|}.

(** [x & mask] used as a truth value. *)
Definition bit_set (x mask : Z) : bool := negb (Z.land x mask =? 0).

(* ================================================================== *)
(** ** C strings *)

(** The bytes of a buffer up to its first NUL: what [strstr] and [sscanf]
    see of it. *)
Fixpoint c_str (buf : string) : string :=
  match buf with
  | EmptyString => EmptyString
  | String c t => if Ascii.eqb c zero then EmptyString else String c (c_str t)
  end.

(** [strstr hay needle]: the suffix of [hay] that starts at the first
    occurrence of [needle], [None] for the NULL pointer. *)
Fixpoint strstr (hay needle : string) : option string :=
  if prefix needle hay then Some hay
  else match hay with
       | EmptyString => None
       | String _ t => strstr t needle
       end.

(** Pointer arithmetic [ptr + n] inside a string. *)
Fixpoint advance (n : nat) (s : string) : string :=
  match n, s with
  | O, _ => s
  | S n', String _ t => advance n' t
  | S _, EmptyString => EmptyString
  end.

Definition isspace (c : ascii) : bool :=
  let n := nat_of_ascii c in
  (Nat.eqb n 32) || ((Nat.leb 9 n) && (Nat.leb n 13)).

Definition isdigit (c : ascii) : bool :=
  let n := nat_of_ascii c in
  (Nat.leb 48 n) && (Nat.leb n 57).

Fixpoint skip_space (s : string) : string :=
  match s with
  | String c t => if isspace c then skip_space t else s
  | EmptyString => s
  end.

(** The values of the leading decimal digits of [s], at most [width]. *)
Fixpoint take_digits (width : nat) (s : string) : list Z :=
  match width, s with
  | S w, String c t =>
      if isdigit c then (Z.of_nat (nat_of_ascii c) - 48) :: take_digits w t
      else []
  | _, _ => []
  end.

Definition decimal (ds : list Z) : Z :=
  fold_left (fun acc d => 10 * acc + d) ds 0.

(** [sscanf(s, "%<width>jd", &v) == 1]: white space is skipped, an optional
    sign counts in the field width, and the conversion succeeds when at
    least one digit follows.  [Some v] is a return value of 1; [None] is 0
    or EOF.  With a width of 10 the value fits [intmax_t]. *)
Definition sscanf_d (width : nat) (s : string) : option Z :=
  match skip_space s with
  | String "-"%char t =>
      match take_digits (width - 1) t with
      | [] => None
      | ds => Some (- decimal ds)
      end
  | String "+"%char t =>
      match take_digits (width - 1) t with
      | [] => None
      | ds => Some (decimal ds)
      end
  | s' =>
      match take_digits width s' with
      | [] => None
      | ds => Some (decimal ds)
      end
  end.

(* ================================================================== *)
(** ** The OOM kill detector: [stress_process_oomed] *)

Definition found (p : option string) : bool :=
  match p with Some _ => true | None => false end.

(** The body of the read loop on one buffer, after [buf[ret] = 0]: the pid
    that the buffer reports as killed, if the buffer is an OOM record. *)
Definition oom_record (buf : string) : option Z :=
  match strstr buf "process" with
  | Some ptr =>
      if found (strstr buf "Out of memory") || found (strstr buf "oom_reaper")
      then sscanf_d 10 (advance 7 ptr)
      else None
  | None => None
  end.

(** The [for (;;)] loop over the device.  [reads] replays the successful
    reads in order (each at most 4095 bytes, since the code asks for
    [sizeof(buf) - 1]); the read after the last one fails, which is how a
    non-blocking descriptor reports that nothing more is buffered. *)
Fixpoint scan_kmsg (pid : Z) (reads : list string) : bool :=
  match reads with
  | [] => false
  | data :: rest =>
      match oom_record (c_str data) with
      | Some oom_pid => if oom_pid =? pid then true else scan_kmsg pid rest
      | None => scan_kmsg pid rest
      end
  end.

(** [kmsg] is [None] when [open("/dev/kmsg", ...)] fails. *)
Definition stress_process_oomed (pid : Z) (kmsg : option (list string)) : bool :=
  match kmsg with
  | None => false
  | Some reads => scan_kmsg pid reads
  end.

(* ================================================================== *)
(** ** Arguments, events and the replayed operating system *)

(** The fields of [stress_args_t] that the code reads.  [time_end] is a
    [double] that is only compared with the clock; the outcome of that
    comparison is an answer of the environment (see [A_time_up]). *)
Record stress_args_t : Type := {
  args_name : string;
  args_instance : Z;
  args_pid : Z
}.

Inductive proc_state : Type :=
| STRESS_STATE_RUN
| STRESS_STATE_WAIT
| STRESS_STATE_EXIT.

(** Calls made for their effect, in the order the code makes them. *)
Inductive event : Type :=
| Ev_open (path : string)
| Ev_write (path str : string)
| Ev_close (path : string)
| Ev_dbg_cant_set (name : string) (errno : Z)
| Ev_fork
| Ev_usleep (usec : Z)
| Ev_kill (pid sig : Z)
| Ev_proc_state (name : string) (st : proc_state)
| Ev_err_fork_failed (name : string) (errno : Z)
| Ev_dbg_waitpid (name : string) (errno : Z)
| Ev_dbg_child_died (name : string) (sig instance : Z)
| Ev_log_system_mem_info
| Ev_dbg_oom_bail (name : string) (instance : Z)
| Ev_dbg_oom_restart (name : string) (instance : Z)
| Ev_dbg_segv_restart (name : string) (instance : Z)
| Ev_dbg_restarts (name : string) (ooms segvs buserrs : Z)
| Ev_clean_dir (name : string) (pid instance : Z)
| Ev_parent_died_alarm
| Ev_drop_capabilities (name : string).

(** What the system answers in one round of the loop of
    [stress_set_adjustment]: the descriptor from [open] and [errno] after
    it, the count from [write] and [errno] after it, [errno] after
    [close].  The last three are looked at only if [open] succeeded. *)
Record attempt : Type := {
  open_ret : Z;
  open_errno : Z;
  write_ret : Z;
  write_errno : Z;
  close_errno : Z
}.

(** The process as [stress_set_oom_adjustment] sees it: its user ids and,
    for every path and every round, the answers of the file system. *)
Record system : Type := {
  getuid : Z;
  geteuid : Z;
  files : string -> nat -> attempt
}.

Definition OOM_SCORE_ADJ_MIN : string := "-1000".
Definition OOM_SCORE_ADJ_MAX : string := "1000".
Definition OOM_ADJ_NO_OOM : string := "-17".
Definition OOM_ADJ_MIN : string := "-16".
Definition OOM_ADJ_MAX : string := "15".

Definition is_write (e : event) : bool :=
  match e with Ev_write _ _ => true | _ => false end.

Definition is_open (e : event) : bool :=
  match e with Ev_open _ => true | _ => false end.

Definition count_writes (tr : list event) : nat := List.length (filter is_write tr).
Definition count_opens (tr : list event) : nat := List.length (filter is_open tr).

Section Adjuster.
Context {P : Platform}.

(** [args && args->instance == 0] *)
Definition reporting (args : option stress_args_t) : bool :=
  match args with
  | Some a => args_instance a =? 0
  | None => false
  end.

Definition stress_args_name (args : option stress_args_t) : string :=
  match args with
  | None => "main"
  | Some a => args_name a
  end.

Definition dbg_cant_set (args : option stress_args_t) (errno : Z) : list event :=
  if reporting args then [Ev_dbg_cant_set (stress_args_name args) errno] else [].

(** The events of a round in which [open] succeeded. *)
Definition round_io (procname str : string) : list event :=
  [Ev_open procname; Ev_write procname str; Ev_close procname].

(** The loop [for (i = 0; i < 32; i++)] from round [i] on, with
    [remaining = 32 - i] rounds to go.  Returns the [int] result and the
    events.  The debug line inside the loop prints [errno], which by then
    is the one left by [close]; the line after the loop prints
    [saved_errno]. *)
Fixpoint set_adjustment_loop (args : option stress_args_t)
    (procname str : string) (fs : string -> nat -> attempt)
    (remaining i : nat) (saved_errno : Z) : Z * list event :=
  match remaining with
  | O => (-1, dbg_cant_set args saved_errno)
  | S k =>
      let a := fs procname i in
      if open_ret a <? 0 then (- open_errno a, [Ev_open procname])
      else
        let saved_errno := write_errno a in
        if 0 <? write_ret a then (0, round_io procname str)
        else if (write_ret a <? 0)
                && negb (saved_errno =? EAGAIN)
                && negb (saved_errno =? EINTR)
        then (- saved_errno,
              round_io procname str ++ dbg_cant_set args (close_errno a))
        else
          let (r, tr) :=
            set_adjustment_loop args procname str fs k (S i) saved_errno in
          (r, round_io procname str ++ tr)
  end.

Definition stress_set_adjustment (args : option stress_args_t)
    (procname str : string) (fs : string -> nat -> attempt) : Z * list event :=
  set_adjustment_loop args procname str fs 32 0 0.

Definition oom_score_adj : string := "/proc/self/oom_score_adj".
Definition oom_adj : string := "/proc/self/oom_adj".

Definition is_null (args : option stress_args_t) : bool :=
  match args with Some _ => false | None => true end.

(** [make_killable] after the test of [OPT_FLAGS_OOMABLE]. *)
Definition make_killable (args : option stress_args_t) (killable : bool)
    (g_opt_flags : Z) : bool :=
  if negb (is_null args) && bit_set g_opt_flags OPT_FLAGS_OOMABLE
  then true else killable.

Definition high_priv (os : system) : bool :=
  (getuid os =? 0) && (geteuid os =? 0).

(** The string chosen for the modern interface. *)
Definition score_adj_str (mk hp : bool) : string :=
  if mk then OOM_SCORE_ADJ_MAX else if hp then OOM_SCORE_ADJ_MIN else "0".

(** The string chosen for the old interface. *)
Definition adj_str (mk hp : bool) : string :=
  if mk then OOM_ADJ_MAX else if hp then OOM_ADJ_NO_OOM else OOM_ADJ_MIN.

(** The function returns nothing; the model returns its events. *)
Definition stress_set_oom_adjustment (args : option stress_args_t)
    (killable : bool) (g_opt_flags : Z) (os : system) : list event :=
  if bit_set g_opt_flags OPT_FLAGS_NO_OOM_ADJUST then []
  else
    let hp := high_priv os in
    let mk := make_killable args killable g_opt_flags in
    let (ret, tr) :=
      stress_set_adjustment args oom_score_adj (score_adj_str mk hp) (files os) in
    if (ret =? 0) || negb (ret =? - ENOENT) then tr
    else
      tr ++ snd (stress_set_adjustment args oom_adj (adj_str mk hp) (files os)).

End Adjuster.

(* ================================================================== *)
(** ** The supervisor: [stress_oomable_child] *)

(** Answers of the environment to the calls whose result the supervisor
    reads.  [A_time_up] is the truth value of
    [stress_time_now() > args->time_end]; [A_fork] and [A_waitpid] carry the
    return value and [errno] after the call, [A_waitpid] also the status
    word stored through the pointer.  The last three belong to the forked
    child: its view of the system when it calls
    [stress_set_oom_adjustment], the value returned by [func] and the value
    of [rc] after [pr_fail_check(&rc)]. *)
Inductive answer : Type :=
| A_continue (b : bool)
| A_time_up (b : bool)
| A_fork (ret errno : Z)
| A_waitpid (ret status errno : Z)
| A_system (os : system)
| A_func (ret : Z)
| A_fail_check (rc : Z).

(** Where control is between two answers.  [At_again] is the label
    [again:], [At_waitpid pid] is the call of [waitpid] under the label
    [rewait:]; [Returned v] is a [return v] to the caller and [Exited v] an
    [_exit(v)] of the child. *)
Inductive control : Type :=
| At_again
| At_time
| At_fork
| At_waitpid (pid : Z)
| Child_continue
| Child_adjust
| Child_recheck
| Child_time
| Child_func
| Child_fail_check (ret : Z)
| Returned (v : Z)
| Exited (v : Z).

(** The local variables, the control point and the events so far.  The
    three counters and [rc] are C [int]s; they are kept as integers without
    a bound (an increment past [INT_MAX] is undefined in C and is not
    modelled).  [signal_idx] is a [size_t]. *)
Record state : Type := {
  pc : control;
  ooms : Z;
  segvs : Z;
  buserrs : Z;
  rc : Z;
  signal_idx : nat;
  trace : list event
}.

Definition goto (l : control) (s : state) : state :=
  {| pc := l; ooms := ooms s; segvs := segvs s; buserrs := buserrs s;
     rc := rc s; signal_idx := signal_idx s; trace := trace s |}.

Definition emit (es : list event) (s : state) : state :=
  {| pc := pc s; ooms := ooms s; segvs := segvs s; buserrs := buserrs s;
     rc := rc s; signal_idx := signal_idx s; trace := trace s ++ es |}.

Definition emit_if (c : bool) (es : list event) (s : state) : state :=
  if c then emit es s else s.

Definition incr_ooms (s : state) : state :=
  {| pc := pc s; ooms := ooms s + 1; segvs := segvs s; buserrs := buserrs s;
     rc := rc s; signal_idx := signal_idx s; trace := trace s |}.

Definition incr_segvs (s : state) : state :=
  {| pc := pc s; ooms := ooms s; segvs := segvs s + 1; buserrs := buserrs s;
     rc := rc s; signal_idx := signal_idx s; trace := trace s |}.

Definition incr_buserrs (s : state) : state :=
  {| pc := pc s; ooms := ooms s; segvs := segvs s; buserrs := buserrs s + 1;
     rc := rc s; signal_idx := signal_idx s; trace := trace s |}.

Definition set_rc (v : Z) (s : state) : state :=
  {| pc := pc s; ooms := ooms s; segvs := segvs s; buserrs := buserrs s;
     rc := v; signal_idx := signal_idx s; trace := trace s |}.

Definition incr_signal_idx (s : state) : state :=
  {| pc := pc s; ooms := ooms s; segvs := segvs s; buserrs := buserrs s;
     rc := rc s; signal_idx := S (signal_idx s); trace := trace s |}.

Section Supervisor.
Context {P : Platform}.

(** [static const int signals[]] *)
Definition signals : list Z :=
  [SIGALRM; SIGALRM; SIGALRM; SIGALRM; SIGTERM; SIGKILL].

(** The declarations at the head of the function. *)
Definition entry : state :=
  {| pc := At_again; ooms := 0; segvs := 0; buserrs := 0;
     rc := EXIT_SUCCESS; signal_idx := 0; trace := [] |}.

Variable args : stress_args_t.
Variable flag : Z.
Variable g_opt_flags : Z.

Definition not_quiet : bool := negb (bit_set flag STRESS_OOMABLE_QUIET).

(** The label [report:] and the [return rc] after it. *)
Definition report (s : state) : state :=
  let s :=
    emit_if ((0 <? ooms s + segvs s + buserrs s) && not_quiet)
      [Ev_dbg_restarts (args_name args) (ooms s) (segvs s) (buserrs s)] s in
  goto (Returned (rc s)) s.

(** The label [rewait:] up to the call of [waitpid]. *)
Definition rewait (pid : Z) (s : state) : state :=
  goto (At_waitpid pid)
    (emit [Ev_proc_state (args_name args) STRESS_STATE_WAIT] s).

(** [fork()] has returned [pid] with [errno] left at [errno]. *)
Definition on_fork (pid errno : Z) (s : state) : state :=
  let s := emit [Ev_fork] s in
  if pid <? 0 then
    if (errno =? EAGAIN) || (errno =? ENOMEM) then
      goto At_again (emit [Ev_usleep 100000] s)
    else
      goto (Returned (-1))
        (emit_if not_quiet [Ev_err_fork_failed (args_name args) errno] s)
  else if 0 <? pid then rewait pid s
  else goto Child_continue s.

(** The branch [ret < 0] after [waitpid]. *)
Definition on_wait_failed (pid errno : Z) (s : state) : state :=
  let s := emit [Ev_proc_state (args_name args) STRESS_STATE_RUN] s in
  if errno =? ECHILD then report s
  else
    let s :=
      emit_if (negb (errno =? EINTR) && not_quiet)
        [Ev_dbg_waitpid (args_name args) errno] s in
    let s := emit [Ev_kill pid (nth (signal_idx s) signals 0)] s in
    let s := incr_signal_idx s in
    if (List.length signals <=? signal_idx s)%nat then report s
    else
      let s := emit_if (1 <? signal_idx s)%nat [Ev_usleep 500000] s in
      rewait pid s.

(** The branch [WIFSIGNALED(status)]. *)
Definition on_signaled (status : Z) (s : state) : state :=
  let s := emit [Ev_proc_state (args_name args) STRESS_STATE_RUN] s in
  let s :=
    emit_if not_quiet
      [Ev_dbg_child_died (args_name args) (WTERMSIG status) (args_instance args)]
      s in
  if WTERMSIG status =? SIGBUS then goto At_again (incr_buserrs s)
  else if negb (nth (signal_idx s) signals 0 =? SIGKILL)
          && (WTERMSIG status =? SIGKILL)
  then
    if bit_set g_opt_flags OPT_FLAGS_OOMABLE then
      let s := emit [Ev_log_system_mem_info] s in
      let s :=
        emit_if not_quiet
          [Ev_dbg_oom_bail (args_name args) (args_instance args)] s in
      let s :=
        emit [Ev_clean_dir (args_name args) (args_pid args) (args_instance args)]
          s in
      goto (Returned EXIT_SUCCESS) s
    else
      let s := emit [Ev_log_system_mem_info] s in
      let s :=
        emit_if not_quiet
          [Ev_dbg_oom_restart (args_name args) (args_instance args)] s in
      goto At_again (incr_ooms s)
  else if WTERMSIG status =? SIGSEGV then
    let s :=
      emit_if not_quiet
        [Ev_dbg_segv_restart (args_name args) (args_instance args)] s in
    goto At_again (incr_segvs s)
  else report (set_rc (WEXITSTATUS status) s).

(** [waitpid] has returned [ret], with [status] and [errno]. *)
Definition on_waitpid (pid ret status errno : Z) (s : state) : state :=
  if ret <? 0 then on_wait_failed pid errno s
  else if WIFSIGNALED status then on_signaled status s
  else report (set_rc (WEXITSTATUS status) s).

(** [_exit(v)] after the state is set to [STRESS_STATE_EXIT]. *)
Definition child_exit (v : Z) (s : state) : state :=
  goto (Exited v)
    (emit [Ev_proc_state (args_name args) STRESS_STATE_EXIT] s).

(** One answer of the environment taken at the current control point.
    [None]: the function has returned, or the answer is not the one of the
    call that comes next. *)
Definition step (s : state) (a : answer) : option state :=
  match pc s, a with
  | At_again, A_continue b =>
      Some (if b then goto At_time s else goto (Returned EXIT_SUCCESS) s)
  | At_time, A_time_up b =>
      Some (if b then goto (Returned EXIT_SUCCESS) s else goto At_fork s)
  | At_fork, A_fork pid errno => Some (on_fork pid errno s)
  | At_waitpid pid, A_waitpid ret status errno =>
      Some (on_waitpid pid ret status errno s)
  | Child_continue, A_continue b =>
      Some (if b then goto Child_adjust (emit [Ev_parent_died_alarm] s)
            else child_exit EXIT_SUCCESS s)
  | Child_adjust, A_system os =>
      let s := emit (stress_set_oom_adjustment (Some args) true g_opt_flags os) s in
      let s :=
        emit_if (bit_set flag STRESS_OOMABLE_DROP_CAP)
          [Ev_drop_capabilities (args_name args)] s in
      Some (goto Child_recheck s)
  | Child_recheck, A_continue b =>
      Some (if b then goto Child_time s else child_exit EXIT_SUCCESS s)
  | Child_time, A_time_up b =>
      Some (if b then child_exit EXIT_SUCCESS s else goto Child_func s)
  | Child_func, A_func ret => Some (goto (Child_fail_check ret) s)
  | Child_fail_check ret, A_fail_check rc' =>
      let s := set_rc rc' s in
      Some (child_exit (if negb (rc s =? EXIT_SUCCESS) then rc s else ret) s)
  | _, _ => None
  end.

(** Replay of a script of answers; stops where [step] does. *)
Fixpoint run (s : state) (script : list answer) : state :=
  match script with
  | [] => s
  | a :: rest =>
      match step s a with
      | Some s' => run s' rest
      | None => s
      end
  end.

(** The function from its entry.  The [context] and [func] arguments only
    reach the child, where [A_func] stands for the call [func(args, context)]. *)
Definition stress_oomable_child (script : list answer) : state :=
  run entry script.

End Supervisor.

(** The signals sent to [pid], in order. *)
Fixpoint kills_to (pid : Z) (tr : list event) : list Z :=
  match tr with
  | [] => []
  | Ev_kill p sig :: t =>
      if p =? pid then sig :: kills_to pid t else kills_to pid t
  | _ :: t => kills_to pid t
  end.

(** All signals sent, in order. *)
Fixpoint kills (tr : list event) : list Z :=
  match tr with
  | [] => []
  | Ev_kill _ sig :: t => sig :: kills t
  | _ :: t => kills t
  end.

Definition is_fork (e : event) : bool :=
  match e with Ev_fork => true | _ => false end.

Definition count_forks (tr : list event) : nat := List.length (filter is_fork tr).

(* ================================================================== *)
(** ** Vocabulary of the statements *)

(** No character of [s] is [c]. *)
Fixpoint free_of (c : ascii) (s : string) : bool :=
  match s with
  | EmptyString => true
  | String d t => negb (Ascii.eqb d c) && free_of c t
  end.

Definition starts_with_digit (s : string) : bool :=
  match s with
  | String c _ => isdigit c
  | EmptyString => false
  end.

(** The line the code's own comment quotes, for pid 4242. *)
Definition oom_line : string := "Out of memory: Kill process 4242".

(** [e] is an [open], [write] or [close] on [path]. *)
Definition touches (path : string) (e : event) : bool :=
  match e with
  | Ev_open p | Ev_write p _ | Ev_close p => String.eqb p path
  | _ => false
  end.

Definition touched (path : string) (tr : list event) : bool :=
  existsb (touches path) tr.

Definition is_close (e : event) : bool :=
  match e with Ev_close _ => true | _ => false end.

Definition count_closes (tr : list event) : nat := List.length (filter is_close tr).

(** The messages of the supervisor itself. *)
Definition is_message (e : event) : bool :=
  match e with
  | Ev_err_fork_failed _ _ | Ev_dbg_waitpid _ _ | Ev_dbg_child_died _ _ _
  | Ev_dbg_oom_bail _ _ | Ev_dbg_oom_restart _ _ | Ev_dbg_segv_restart _ _
  | Ev_dbg_restarts _ _ _ _ => true
  | _ => false
  end.

Section Vocabulary.
Context {P : Platform}.

(** Rounds of [stress_set_adjustment] by what the system answers:
    [write] fails with [EAGAIN] or [EINTR]; [write] returns 0. *)
Definition write_again (a : attempt) : bool :=
  (0 <=? open_ret a) && (write_ret a <? 0)
  && ((write_errno a =? EAGAIN) || (write_errno a =? EINTR)).

Definition write_zero (a : attempt) : bool :=
  (0 <=? open_ret a) && (write_ret a =? 0).

Definition retried (a : attempt) : bool := write_again a || write_zero a.

(** The answers of one pass through [again:] in which [fork] gives the
    child [pid] and [waitpid] reaps it with [status]. *)
Definition child_round (pid status : Z) : list answer :=
  [A_continue true; A_time_up false; A_fork pid 0; A_waitpid pid status 0].

Definition termsig (d : Z * Z) : Z := WTERMSIG (snd d).

(** The signals sent so far are the first [signal_idx] entries of
    [signals]; the index stays within the array, and once it is past the
    last entry the function has returned. *)
Definition escalation_inv (s : state) : Prop :=
  kills (trace s) = firstn (signal_idx s) signals /\
  (signal_idx s <= 6)%nat /\
  (signal_idx s = 6%nat -> pc s = Returned (rc s)).

End Vocabulary.

(* ================================================================== *)
(** ** Sample inputs *)

Definition sample_args : stress_args_t :=
  {| args_name := "vm"; args_instance := 0; args_pid := 4000 |}.

(** [open] gives descriptor 3 and [write] takes all four bytes. *)
Definition att_ok : attempt :=
  {| open_ret := 3; open_errno := 0; write_ret := 4; write_errno := 0;
     close_errno := 0 |}.

(** [write] fails with [EAGAIN] (11). *)
Definition att_eagain : attempt :=
  {| open_ret := 3; open_errno := 0; write_ret := -1; write_errno := 11;
     close_errno := 11 |}.

(** [write] fails with [EACCES] (13). *)
Definition att_eacces : attempt :=
  {| open_ret := 3; open_errno := 0; write_ret := -1; write_errno := 13;
     close_errno := 13 |}.

(** [write] returns 0. *)
Definition att_zero : attempt :=
  {| open_ret := 3; open_errno := 0; write_ret := 0; write_errno := 0;
     close_errno := 0 |}.

(** [open] fails with [ENOENT] (2). *)
Definition att_noent : attempt :=
  {| open_ret := -1; open_errno := 2; write_ret := 0; write_errno := 0;
     close_errno := 0 |}.

(** The same answers on every path and in every round. *)
Definition always (a : attempt) : string -> nat -> attempt := fun _ _ => a.

(** Two rounds of [EAGAIN], then the answers [a]. *)
Definition after_two_eagain (a : attempt) : string -> nat -> attempt :=
  fun _ i => if (i <? 2)%nat then att_eagain else a.

(** A kernel without [oom_score_adj]: only the old file exists. *)
Definition old_kernel : string -> nat -> attempt :=
  fun path _ => if String.eqb path "/proc/self/oom_adj" then att_ok else att_noent.

Definition as_root (fs : string -> nat -> attempt) : system :=
  {| getuid := 0; geteuid := 0; files := fs |}.

Definition as_user (fs : string -> nat -> attempt) : system :=
  {| getuid := 1000; geteuid := 1000; files := fs |}.

(** First child: one interrupted wait, then death by [SIGSEGV] (status 11);
    second child spawned. *)
Definition respawn_script : list answer :=
  [A_continue true; A_time_up false; A_fork 100 0;
   A_waitpid (-1) 0 4; A_waitpid 100 11 0;
   A_continue true; A_time_up false; A_fork 101 0].

(** Five waits that fail with [EINTR]. *)
Definition five_failed_waits : list answer :=
  [A_waitpid (-1) 0 4; A_waitpid (-1) 0 4; A_waitpid (-1) 0 4;
   A_waitpid (-1) 0 4; A_waitpid (-1) 0 4].

(** First child: five interrupted waits, which take the index to 5, then
    death by [SIGSEGV]; second child (pid 101) spawned. *)
Definition stale_index_script : list answer :=
  [A_continue true; A_time_up false; A_fork 100 0]
  ++ five_failed_waits
  ++ [A_waitpid 100 11 0; A_continue true; A_time_up false; A_fork 101 0].

(** Status words of children killed by [SIGBUS] (7), [SIGSEGV] (11) and
    [SIGKILL] (9), on pids 101 to 106. *)
Definition six_deaths : list (Z * Z) :=
  [(101, 7); (102, 11); (103, 9); (104, 7); (105, 11); (106, 7)].

(** The answers up to the first [fork], and the states they lead to: at
    the call of [fork], and waiting for child 100 under option bits [g]. *)
Definition first_child_script : list answer :=
  [A_continue true; A_time_up false; A_fork 100 0].

Definition at_fork_state : state :=
  stress_oomable_child (P := linux) sample_args 0 0
    [A_continue true; A_time_up false].

Definition waiting (g : Z) : state :=
  stress_oomable_child (P := linux) sample_args 0 g first_child_script.

(* ================================================================== *)
(** ** Further vocabulary: the parent and the child side of the supervisor *)

(** Control points of the forked child, its exit included. *)
Definition in_child (c : control) : bool :=
  match c with
  | Child_continue | Child_adjust | Child_recheck | Child_time | Child_func
  | Child_fail_check _ | Exited _ => true
  | _ => false
  end.

(** Control points from which the function still runs. *)
Definition running (c : control) : bool :=
  match c with
  | Returned _ | Exited _ => false
  | _ => true
  end.

Definition is_dbg_waitpid (e : event) : bool :=
  match e with Ev_dbg_waitpid _ _ => true | _ => false end.

Definition is_backoff (e : event) : bool :=
  match e with Ev_usleep 500000 => true | _ => false end.

Definition is_dbg_cant_set (e : event) : bool :=
  match e with Ev_dbg_cant_set _ _ => true | _ => false end.

Definition count (f : event -> bool) (tr : list event) : nat :=
  List.length (filter f tr).

(** Events of the adjuster. *)
Definition is_adjust_event (e : event) : bool :=
  match e with
  | Ev_open _ | Ev_write _ _ | Ev_close _ | Ev_dbg_cant_set _ _ => true
  | _ => false
  end.

(** A write that asks to be killed first: "1000" to the modern file or
    "15" to the old one. *)
Definition kill_first_write (e : event) : Prop :=
  match e with
  | Ev_write path str =>
      (path = "/proc/self/oom_score_adj"%string /\ str = "1000"%string)
      \/ (path = "/proc/self/oom_adj"%string /\ str = "15"%string)
  | _ => True
  end.

(** The status words of the waits in [script] that did not fail. *)
Fixpoint reaped (script : list answer) : list Z :=
  match script with
  | [] => []
  | A_waitpid ret status _ :: rest =>
      if 0 <=? ret then status :: reaped rest else reaped rest
  | _ :: rest => reaped rest
  end.

Section CounterInvariant.
Context {P : Platform}.
Variable g_opt_flags : Z.

(** The counters are not negative; together they count at most the forks
    made, and fewer while a child is waited for; with the OOMable option
    the OOM counter stays zero. *)
Definition counters_inv (s : state) : Prop :=
  0 <= ooms s /\ 0 <= segvs s /\ 0 <= buserrs s /\
  ooms s + segvs s + buserrs s
  + (match pc s with At_waitpid _ => 1 | _ => 0 end)
  <= Z.of_nat (count_forks (trace s)) /\
  (bit_set g_opt_flags OPT_FLAGS_OOMABLE = true -> ooms s = 0).

End CounterInvariant.

Section AttemptKinds.
Context {P : Platform}.

(** A failing [open] or [write] leaves a positive [errno]. *)
Definition errno_set (a : attempt) : bool :=
  ((0 <=? open_ret a) || (0 <? open_errno a))
  && ((0 <=? write_ret a) || (0 <? write_errno a)).

(** The round is the one that succeeds: [open] works and [write] returns a
    positive count. *)
Definition written (a : attempt) : bool :=
  (0 <=? open_ret a) && (0 <? write_ret a).

End AttemptKinds.

(** [write] fails with [ENOENT] (2). *)
Definition att_write_noent : attempt :=
  {| open_ret := 3; open_errno := 0; write_ret := -1; write_errno := 2;
     close_errno := 2 |}.

(** The modern file takes no write ([ENOENT] from [write]); the old file
    works. *)
Definition stale_modern : string -> nat -> attempt :=
  fun path _ =>
    if String.eqb path "/proc/self/oom_adj" then att_ok else att_write_noent.

(* ================================================================== *)
(** ** The fork stressor: [stress_fork] of stress-fork.c *)

(** Calls of [stress_fork] made for their effect. *)
Inductive fork_event : Type :=
| Fk_fork
| Fk_waitpid (pid : Z)
| Fk_fail.

(** How a replay of [stress_fork] ends: the function returned, the forked
    child called [_exit], or the answers ran out inside the loop. *)
Inductive fork_outcome : Type :=
| Fork_returned (v : Z)
| Fork_exited (v : Z)
| Fork_unfinished.

Record fork_run : Type := {
  fk_outcome : fork_outcome;
  fk_counter : Z;
  fk_events : list fork_event
}.

(** The increment of the counter behind the pointer, a [uint64_t]. *)
Definition uint64_incr (c : Z) : Z := (c + 1) mod 2 ^ 64.

Definition fk_is_fork (e : fork_event) : bool :=
  match e with Fk_fork => true | _ => false end.

Definition fk_is_waitpid (e : fork_event) : bool :=
  match e with Fk_waitpid _ => true | _ => false end.

Definition fk_is_fail (e : fork_event) : bool :=
  match e with Fk_fail => true | _ => false end.

Definition fk_count (f : fork_event -> bool) (evs : list fork_event) : nat :=
  List.length (filter f evs).

Section ForkStressor.
Context {P : Platform}.

(** The events of one pass of the loop body in the parent. *)
Definition fork_pass (verify : bool) (pid : Z) : list fork_event :=
  Fk_fork
  :: (if 0 <? pid then [Fk_waitpid pid] else [])
  ++ (if (pid <? 0) && verify then [Fk_fail] else []).

(** The [do ... while] loop.  Each pass takes two answers: the value of
    [fork()] and the value of [opt_do_run] when the loop test reads it.
    [verify] is [opt_flags & OPT_FLAGS_VERIFY]; [counter] is the value
    behind the pointer, at entry and in the result; [instance] and [name]
    are not used by the code. *)
Fixpoint stress_fork (verify : bool) (max_ops counter : Z)
    (script : list (Z * bool)) : fork_run :=
  match script with
  | [] =>
      {| fk_outcome := Fork_unfinished; fk_counter := counter; fk_events := [] |}
  | (pid, opt_do_run) :: rest =>
      if pid =? 0 then
        {| fk_outcome := Fork_exited 0; fk_counter := counter;
           fk_events := [Fk_fork] |}
      else
        let counter := uint64_incr counter in
        if opt_do_run && ((max_ops =? 0) || (counter <? max_ops)) then
          let r := stress_fork verify max_ops counter rest in
          {| fk_outcome := fk_outcome r; fk_counter := fk_counter r;
             fk_events := fork_pass verify pid ++ fk_events r |}
        else
          {| fk_outcome := Fork_returned EXIT_SUCCESS; fk_counter := counter;
             fk_events := fork_pass verify pid |}
  end.

End ForkStressor.

(** The passes completed: every [fork] but the one that put us in the
    child. *)
Definition passes (r : fork_run) : nat :=
  match fk_outcome r with
  | Fork_exited _ => Nat.pred (fk_count fk_is_fork (fk_events r))
  | _ => fk_count fk_is_fork (fk_events r)
  end.

(** More sample states: the supervisor after one failed wait (index 1),
    and the forked child at its first check. *)
Definition one_signal_sent : state :=
  run (P := linux) sample_args 0 0 (waiting 0) [A_waitpid (-1) 0 4].

Definition in_child_state : state :=
  run (P := linux) sample_args 0 0 at_fork_state [A_fork 0 0].

(** The child's answers when nothing stops it: [func] returns 5 and
    [pr_fail_check] leaves [rc] at 0. *)
Definition child_script (os : system) : list answer :=
  [A_continue true; A_system os; A_continue true; A_time_up false;
   A_func 5; A_fail_check 0].

(** Answers for [stress_fork]: a child, a failed fork, a child. *)
Definition fork_script : list (Z * bool) :=
  [(100, true); (-1, true); (101, true)].

(** A chunk that names two processes. *)
Definition two_pids : string :=
  "Out of memory: Killed process 7 (a), also process 4242".

(* ================================================================== *)
(** ** The ranges of physical memory: [stress_physmmap_get_ranges] of
       stress-physmmap.c *)

(** [stress_physmmap_t] without its [next] pointer: the linked list is a
    list.  [bitmap] holds the bytes of the allocation. *)
Record stress_physmmap_t : Type := {
  addr : Z;
  pages : Z;
  bitmap : list Z;
  bitmap_size : Z;
  mappable : bool
}.

(** One line that [fgets] returns from [/proc/iomem], with the answers of
    the two calls of [malloc] the line may lead to: true when the
    allocation succeeds. *)
Record iomem_line : Type := {
  line : string;
  malloc_node : bool;
  malloc_bitmap : bool
}.

Inductive physmmap_event : Type :=
| Pm_skip_cannot_open (name : string) (errno : Z)
| Pm_skip_no_system_ram (name : string).

Section PhysRanges.

(** The call of [sscanf] on the line, for two hexadecimal addresses with a
    dash between them: [Some (addr_begin, addr_end)] when it returns 2.
    The function belongs to the C library and is a parameter here. *)
Variable sscanf_range : string -> option (Z * Z).

(** [args->page_size] *)
Variable page_size : Z.

(** The size of one object of the bitmap, a [uint64_t]. *)
Definition bitmap_obj_size : Z := 8.

(** [(pages + bitmap_obj_size - 1) & ~(bitmap_obj_size - 1)] in [size_t]. *)
Definition round_up_bitmap (npages : Z) : Z :=
  Z.land ((npages + bitmap_obj_size - 1) mod 2 ^ 64)
         (2 ^ 64 - 1 - (bitmap_obj_size - 1)).

(** The [while (fgets ...)] loop; the list built through [head] and [tail]
    is returned in the order of the lines.  A failed [malloc] leaves the
    loop. *)
Fixpoint get_ranges_loop (lines : list iomem_line) : list stress_physmmap_t :=
  match lines with
  | [] => []
  | l :: rest =>
      let buf := c_str (line l) in
      if found (strstr buf "System RAM") then
        match sscanf_range buf with
        | None => get_ranges_loop rest
        | Some (addr_begin, addr_end) =>
            if addr_end <=? addr_begin then get_ranges_loop rest
            else if addr_end - addr_begin <? page_size then get_ranges_loop rest
            else if negb (malloc_node l) then []
            else
              let npages := (addr_end - addr_begin) / page_size in
              let size := round_up_bitmap npages in
              if negb (malloc_bitmap l) then []
              else
                {| addr := addr_begin; pages := npages;
                   bitmap := repeat 255 (Z.to_nat size);
                   bitmap_size := size; mappable := true |}
                :: get_ranges_loop rest
        end
      else get_ranges_loop rest
  end.

(** [iomem] is [inr errno] when [fopen] fails and leaves [errno], and
    otherwise the lines of the file.  A null result is the empty list. *)
Definition stress_physmmap_get_ranges (name : string)
    (iomem : list iomem_line + Z) : list stress_physmmap_t * list physmmap_event :=
  match iomem with
  | inr errno => ([], [Pm_skip_cannot_open name errno])
  | inl lines =>
      let head := get_ranges_loop lines in
      (head, match head with [] => [Pm_skip_no_system_ram name] | _ => [] end)
  end.

(** The line passes the tests of the loop and reaches the allocations. *)
Definition usable (l : iomem_line) : bool :=
  found (strstr (c_str (line l)) "System RAM")
  && match sscanf_range (c_str (line l)) with
     | Some (addr_begin, addr_end) =>
         (addr_begin <? addr_end) && (page_size <=? addr_end - addr_begin)
     | None => false
     end.

Definition allocated (l : iomem_line) : bool := malloc_node l && malloc_bitmap l.

End PhysRanges.

(** A stand-in for [sscanf] that knows three lines of [/proc/iomem]. *)
Definition sample_scan (s : string) : option (Z * Z) :=
  if String.eqb s "00001000-0009ffff : System RAM" then Some (4096, 655359)
  else if String.eqb s "00100000-001007ff : System RAM" then Some (1048576, 1050623)
  else if String.eqb s "00200000-002fffff : System RAM" then Some (2097152, 3145727)
  else None.

Definition iomem_low : iomem_line :=
  {| line := "00001000-0009ffff : System RAM";
     malloc_node := true; malloc_bitmap := true |}.

(** Less than a page. *)
Definition iomem_small : iomem_line :=
  {| line := "00100000-001007ff : System RAM";
     malloc_node := true; malloc_bitmap := true |}.

Definition iomem_rom : iomem_line :=
  {| line := "000c0000-000c7fff : Video ROM";
     malloc_node := true; malloc_bitmap := true |}.

(** A usable line whose bitmap cannot be allocated. *)
Definition iomem_no_memory : iomem_line :=
  {| line := "00200000-002fffff : System RAM";
     malloc_node := true; malloc_bitmap := false |}.

Definition low_range : stress_physmmap_t :=
  {| addr := 4096; pages := 158; bitmap := repeat 255 160;
     bitmap_size := 160; mappable := true |}.

(* ================================================================== *)
(** ** The stressor on the ranges: [stress_physmmap] of stress-physmmap.c *)

(** What the environment answers on one pass of the loop over the pages,
    in the order the code asks: [stress_continue(args)], the two calls of
    [stress_mwc1()] that choose the flags, and whether [mmap] gave a
    mapping.  The test of the [do ... while] reads only the first. *)
Record page_answers : Type := {
  pa_continue : bool;
  pa_shared : bool;
  pa_no_populate : bool;
  pa_mapped : bool
}.

(** Calls of [stress_physmmap] made for their effect.  [Pm_mmap] carries
    the offset into [/dev/mem] and the two flag choices. *)
Inductive stressor_event : Type :=
| Pm_open_mem
| Pm_skip_no_mem (name : string) (errno : Z)
| Pm_ranges (evs : list physmmap_event)
| Pm_set_proc_state (name label : string)
| Pm_sync_start_wait
| Pm_inf_attempting (name : string) (total_pages : Z)
| Pm_mmap (offset : Z) (shared populate : bool)
| Pm_munmap
| Pm_bogo_inc
| Pm_inf_unable (name : string)
| Pm_dbg_scan (name : string) (total_pages mappable_pages : Z)
| Pm_metrics (map_success map_failed : Z)
| Pm_close_mem
| Pm_free_ranges.

(** The local variables of the sweeps: the two counters, the flag
    [mappable] and the events so far. *)
Record sweep : Type := {
  map_success : Z;
  map_failed : Z;
  any_mappable : bool;
  pm_trace : list stressor_event
}.

(** How a loop is left: by its test, by [goto done], or because the
    answers ran out. *)
Inductive flow (A : Type) : Type :=
| Go_on (a : A)
| Goto_done (a : A)
| Starved (a : A).

Arguments Go_on {A} a.
Arguments Goto_done {A} a.
Arguments Starved {A} a.

(** The value a loop was left with. *)
Definition flow_val {A : Type} (f : flow A) : A :=
  match f with Go_on a | Goto_done a | Starved a => a end.

Definition starved {A : Type} (f : flow A) : bool :=
  match f with Starved _ => true | _ => false end.

Definition is_mmap (e : stressor_event) : bool :=
  match e with Pm_mmap _ _ _ => true | _ => false end.

Definition is_munmap (e : stressor_event) : bool :=
  match e with Pm_munmap => true | _ => false end.

Definition is_bogo_inc (e : stressor_event) : bool :=
  match e with Pm_bogo_inc => true | _ => false end.

Definition is_close_mem (e : stressor_event) : bool :=
  match e with Pm_close_mem => true | _ => false end.

Definition pm_count (f : stressor_event -> bool) (tr : list stressor_event) : nat :=
  List.length (filter f tr).

Definition set_bitmap (bm : list Z) (ok : bool) (r : stress_physmmap_t)
    : stress_physmmap_t :=
  {| addr := addr r; pages := pages r; bitmap := bm;
     bitmap_size := bitmap_size r; mappable := ok |}.

Section PhysMmap.
Context {P : Platform}.

(** The bit macros [STRESS_GETBIT] and [STRESS_CLRBIT] and the constant
    [EXIT_NO_RESOURCE] come from [stress-ng.h], which is not among the
    sources embedded here; they are parameters. *)
Variable STRESS_GETBIT : list Z -> Z -> bool.
Variable STRESS_CLRBIT : list Z -> Z -> list Z.
Variable EXIT_NO_RESOURCE : Z.
Variable sscanf_range : string -> option (Z * Z).

Variable name : string.
Variable instance : Z.
Variable page_size : Z.

(** The [for] loop over the pages of one range, with [n] pages to go from
    page [i] at [offset] (a [uintptr_t]); [range_ok] is the variable
    [physmmap_mappable]. *)
Fixpoint scan_pages (n : nat) (i offset : Z) (bm : list Z) (range_ok : bool)
    (w : sweep) (script : list page_answers)
    : flow (list Z * bool * sweep) * list page_answers :=
  match n with
  | O => (Go_on (bm, range_ok, w), script)
  | S n' =>
      match script with
      | [] => (Starved (bm, range_ok, w), [])
      | a :: rest =>
          let next := (offset + page_size) mod 2 ^ 64 in
          if negb (pa_continue a) then (Goto_done (bm, range_ok, w), rest)
          else if negb (STRESS_GETBIT bm i) then
            scan_pages n' (i + 1) next bm range_ok w rest
          else if pa_mapped a then
            scan_pages n' (i + 1) next bm true
              {| map_success := (map_success w + 1) mod 2 ^ 64;
                 map_failed := map_failed w;
                 any_mappable := true;
                 pm_trace := pm_trace w
                   ++ [Pm_mmap offset (pa_shared a) (negb (pa_no_populate a));
                       Pm_munmap; Pm_bogo_inc] |}
              rest
          else
            scan_pages n' (i + 1) next (STRESS_CLRBIT bm i) range_ok
              {| map_success := map_success w;
                 map_failed := (map_failed w + 1) mod 2 ^ 64;
                 any_mappable := any_mappable w;
                 pm_trace := pm_trace w
                   ++ [Pm_mmap offset (pa_shared a) (negb (pa_no_populate a));
                       Pm_bogo_inc] |}
              rest
      end
  end.

(** The [for] loop over the ranges inside the [do ... while]: one sweep.
    A range left by [goto done] keeps its [mappable] flag. *)
Fixpoint sweep_ranges (ranges : list stress_physmmap_t) (w : sweep)
    (script : list page_answers)
    : flow (list stress_physmmap_t * sweep) * list page_answers :=
  match ranges with
  | [] => (Go_on ([], w), script)
  | r :: rest =>
      if negb (mappable r) then
        match sweep_ranges rest w script with
        | (Go_on (rs, w'), s) => (Go_on (r :: rs, w'), s)
        | (Goto_done (rs, w'), s) => (Goto_done (r :: rs, w'), s)
        | (Starved (rs, w'), s) => (Starved (r :: rs, w'), s)
        end
      else
        match scan_pages (Z.to_nat (pages r)) 0 (addr r) (bitmap r) false w
                script with
        | (Go_on (bm, ok, w1), s1) =>
            match sweep_ranges rest w1 s1 with
            | (Go_on (rs, w'), s) => (Go_on (set_bitmap bm ok r :: rs, w'), s)
            | (Goto_done (rs, w'), s) =>
                (Goto_done (set_bitmap bm ok r :: rs, w'), s)
            | (Starved (rs, w'), s) => (Starved (set_bitmap bm ok r :: rs, w'), s)
            end
        | (Goto_done (bm, _, w1), s1) =>
            (Goto_done (set_bitmap bm (mappable r) r :: rest, w1), s1)
        | (Starved (bm, _, w1), s1) =>
            (Starved (set_bitmap bm (mappable r) r :: rest, w1), s1)
        end
  end.

Definition clear_mappable (w : sweep) : sweep :=
  {| map_success := map_success w; map_failed := map_failed w;
     any_mappable := false; pm_trace := pm_trace w |}.

(** The [do ... while (mappable && stress_continue(args))] loop, at most
    [fuel] sweeps.  The boolean of the result tells whether a sweep was
    completed, that is whether [t2] was set from the clock. *)
Fixpoint sweeps (fuel : nat) (swept : bool) (ranges : list stress_physmmap_t)
    (w : sweep) (script : list page_answers)
    : flow (list stress_physmmap_t * sweep * bool) * list page_answers :=
  match fuel with
  | O => (Starved (ranges, w, swept), script)
  | S fuel' =>
      match sweep_ranges ranges (clear_mappable w) script with
      | (Go_on (rs, w'), s) =>
          if any_mappable w' then
            match s with
            | [] => (Starved (rs, w', true), [])
            | a :: s' =>
                if pa_continue a then sweeps fuel' true rs w' s'
                else (Go_on (rs, w', true), s')
            end
          else (Go_on (rs, w', true), s)
      | (Goto_done (rs, w'), s) => (Goto_done (rs, w', swept), s)
      | (Starved (rs, w'), s) => (Starved (rs, w', swept), s)
      end
  end.

(** [total_pages], a [size_t]. *)
Definition total_pages (ranges : list stress_physmmap_t) : Z :=
  fold_left (fun acc r => (acc + pages r) mod 2 ^ 64) ranges 0.

(** The set bits among the first [n] of a bitmap, from bit [i]. *)
Fixpoint set_bits (n : nat) (i : Z) (bm : list Z) : Z :=
  match n with
  | O => 0
  | S n' => (if STRESS_GETBIT bm i then 1 else 0) + set_bits n' (i + 1) bm
  end.

(** [mappable_pages], a [uint64_t]. *)
Definition mappable_pages (ranges : list stress_physmmap_t) : Z :=
  fold_left
    (fun acc r =>
       if mappable r
       then (acc + set_bits (Z.to_nat (pages r)) 0 (bitmap r)) mod 2 ^ 64
       else acc)
    ranges 0.

(** The part of the function behind the label [done:].  [clock_positive]
    is the truth of [t2 > 0.0] for a [t2] that was read from the clock; the
    duration printed in the debug line is left out of its event. *)
Definition physmmap_done (clock_positive : bool) (total : Z)
    (ranges : list stress_physmmap_t) (w : sweep) (swept : bool)
    : list stressor_event :=
  pm_trace w
  ++ (if any_mappable w then [] else [Pm_inf_unable name])
  ++ (if (instance =? 0) && (swept && clock_positive)
      then [Pm_dbg_scan name total (mappable_pages ranges)] else [])
  ++ [Pm_metrics (map_success w) (map_failed w);
      Pm_set_proc_state name "STRESS_STATE_DEINIT"; Pm_close_mem;
      Pm_free_ranges].

(** The function.  [mem] is [inr errno] when [/dev/mem] cannot be opened;
    [iomem] is the answer to [stress_physmmap_get_ranges].  The result is
    [None] when the answers ran out inside the loops. *)
Definition stress_physmmap (mem : unit + Z) (iomem : list iomem_line + Z)
    (clock_positive : bool) (script : list page_answers)
    : option Z * list stressor_event :=
  match mem with
  | inr errno => (Some EXIT_NO_RESOURCE, [Pm_open_mem; Pm_skip_no_mem name errno])
  | inl _ =>
      let (head, msgs) :=
        stress_physmmap_get_ranges sscanf_range page_size name iomem in
      match head with
      | [] => (Some EXIT_NO_RESOURCE, [Pm_open_mem; Pm_ranges msgs; Pm_close_mem])
      | _ =>
          let total := if instance =? 0 then total_pages head else 0 in
          let w :=
            {| map_success := 0; map_failed := 0; any_mappable := false;
               pm_trace :=
                 [Pm_open_mem; Pm_ranges msgs;
                  Pm_set_proc_state name "STRESS_STATE_SYNC_WAIT";
                  Pm_sync_start_wait;
                  Pm_set_proc_state name "STRESS_STATE_RUN"]
                 ++ (if instance =? 0 then [Pm_inf_attempting name total]
                     else []) |} in
          match sweeps (S (List.length script)) false head w script with
          | (Go_on (rs, w', swept), _) | (Goto_done (rs, w', swept), _) =>
              (Some EXIT_SUCCESS, physmmap_done clock_positive total rs w' swept)
          | (Starved (_, w', _), _) => (None, pm_trace w')
          end
      end
  end.

End PhysMmap.

(** The counters agree with the events: one [stress_bogo_inc] for every
    [mmap], [map_success] the number of [munmap]s and [map_failed] the
    number of other [mmap]s, as [uint64_t] values. *)
Definition accounted (w : sweep) : Prop :=
  pm_count is_bogo_inc (pm_trace w) = pm_count is_mmap (pm_trace w) /\
  (pm_count is_munmap (pm_trace w) <= pm_count is_mmap (pm_trace w))%nat /\
  map_success w = Z.of_nat (pm_count is_munmap (pm_trace w)) mod 2 ^ 64 /\
  map_failed w
  = Z.of_nat (pm_count is_mmap (pm_trace w) - pm_count is_munmap (pm_trace w))
    mod 2 ^ 64.

(** A range after some sweeps, against the same range before them: the
    node keeps its address, page count and bitmap size, a range that was
    marked unmappable is left alone, and no bit of the bitmap is set that
    was not set before. *)
Definition shrunk (getbit : list Z -> Z -> bool) (r r' : stress_physmmap_t)
    : Prop :=
  addr r' = addr r /\ pages r' = pages r /\ bitmap_size r' = bitmap_size r /\
  (mappable r = false -> r' = r) /\
  forall j, getbit (bitmap r') j = true -> getbit (bitmap r) j = true.

(** The events of the loops. *)
Definition in_loop (e : stressor_event) : bool :=
  is_mmap e || is_munmap e || is_bogo_inc e.

(** Some [stress_continue] of the script answers false. *)
Definition has_stop (script : list page_answers) : bool :=
  existsb (fun a => negb (pa_continue a)) script.

(** [off] is, as an offset of 64 bits, the start of a page of a mappable
    range whose bit is set. *)
Definition maps_page (getbit : list Z -> Z -> bool) (page_size : Z)
    (ranges : list stress_physmmap_t) (off : Z) : Prop :=
  exists r k,
    In r ranges /\ mappable r = true /\ 0 <= k < pages r /\
    getbit (bitmap r) k = true /\
    off mod 2 ^ 64 = (addr r + k * page_size) mod 2 ^ 64.

(** [stress-ng.h] is not among the sources.  For the sample runs the two
    macros are taken to be the usual bit array on the bytes of the bitmap;
    an index past the end reads 0 and clears nothing. *)
Fixpoint update_nth (k : nat) (f : Z -> Z) (l : list Z) : list Z :=
  match l, k with
  | [], _ => []
  | x :: t, O => f x :: t
  | x :: t, S k' => x :: update_nth k' f t
  end.

Definition byte_getbit (bm : list Z) (i : Z) : bool :=
  Z.testbit (nth (Z.to_nat (i / 8)) bm 0) (i mod 8).

Definition byte_clrbit (bm : list Z) (i : Z) : list Z :=
  update_nth (Z.to_nat (i / 8)) (fun b => Z.clearbit b (i mod 8)) bm.

(** Two ranges of three pages and two pages, and answers that map the
    first page, fail on the second and are then told to stop. *)
Definition two_ranges : list stress_physmmap_t :=
  [ {| addr := 4096; pages := 3; bitmap := [255]; bitmap_size := 1;
       mappable := true |};
    {| addr := 1048576; pages := 2; bitmap := [255]; bitmap_size := 1;
       mappable := true |} ].

Definition pa_map : page_answers :=
  {| pa_continue := true; pa_shared := true; pa_no_populate := false;
     pa_mapped := true |}.

Definition pa_fail : page_answers :=
  {| pa_continue := true; pa_shared := false; pa_no_populate := true;
     pa_mapped := false |}.

Definition pa_stop : page_answers :=
  {| pa_continue := false; pa_shared := false; pa_no_populate := false;
     pa_mapped := false |}.

Definition fresh_sweep : sweep :=
  {| map_success := 0; map_failed := 0; any_mappable := false;
     pm_trace := [] |}.

Definition short_script : list page_answers := [pa_map; pa_fail; pa_stop].

(* ================================================================== *)
(** * Proofs *)

Lemma prefix_head_diff (c d : ascii) (n t : string) :
  Ascii.eqb d c = false -> prefix (String c n) (String d t) = false.
Proof.
  intros H. simpl. destruct (ascii_dec c d) as [e|]; [|reflexivity].
  subst. rewrite Ascii.eqb_refl in H. discriminate.
Qed.

Lemma strstr_unfold (hay n : string) :
  strstr hay n =
  if prefix n hay then Some hay
  else match hay with
       | EmptyString => None
       | String _ t => strstr t n
       end.
Proof. destruct hay; reflexivity. Qed.

Lemma strstr_skip (c : ascii) (n pre s : string) :
  free_of c pre = true ->
  strstr (pre ++ s) (String c n) = strstr s (String c n).
Proof.
  induction pre as [|d pre IH]; intros H; [reflexivity|].
  simpl in H. apply andb_true_iff in H as [Hd Hpre].
  apply negb_true_iff in Hd.
  change ((String d pre ++ s)%string) with (String d (pre ++ s)).
  rewrite strstr_unfold, (prefix_head_diff c d n _ Hd). auto.
Qed.

Lemma prefix_append (n post : string) : prefix n (n ++ post) = true.
Proof.
  induction n as [|c n IH]; simpl.
  - destruct post; reflexivity.
  - destruct (ascii_dec c c); [assumption|congruence].
Qed.

Lemma strstr_found (pre n post : string) :
  found (strstr (pre ++ n ++ post) n) = true.
Proof.
  induction pre as [|d pre IH].
  - simpl. rewrite strstr_unfold, prefix_append. reflexivity.
  - change ((String d pre ++ n ++ post)%string) with (String d (pre ++ n ++ post)).
    rewrite strstr_unfold.
    destruct (prefix n (String d (pre ++ n ++ post))); [reflexivity|assumption].
Qed.

Lemma c_str_append (pre s : string) :
  free_of zero pre = true -> c_str (pre ++ s) = (pre ++ c_str s)%string.
Proof.
  induction pre as [|d pre IH]; intros H; [reflexivity|].
  simpl in H. apply andb_true_iff in H as [Hd Hpre].
  apply negb_true_iff in Hd. simpl. rewrite Hd, IH by assumption. reflexivity.
Qed.

Lemma starts_with_digit_c_str (s : string) :
  starts_with_digit (c_str s) = starts_with_digit s.
Proof.
  destruct s as [|c t]; [reflexivity|]. simpl.
  destruct (Ascii.eqb_spec c zero) as [->|]; reflexivity.
Qed.

Lemma take_digits_stop (w : nat) (s : string) :
  starts_with_digit s = false -> take_digits w s = [].
Proof.
  destruct w, s; simpl; try reflexivity. intros ->. reflexivity.
Qed.

Lemma oom_record_line (pre post : string) :
  free_of "p" pre = true -> free_of zero pre = true ->
  starts_with_digit post = false ->
  oom_record (c_str (pre ++ oom_line ++ post)) = Some 4242.
Proof.
  intros Hp Hz Hd. rewrite c_str_append by assumption.
  assert (Hc : c_str (oom_line ++ post) = (oom_line ++ c_str post)%string)
    by reflexivity.
  rewrite Hc. clear Hc.
  rewrite <- starts_with_digit_c_str in Hd.
  generalize dependent (c_str post). intros q Hd.
  unfold oom_record.
  rewrite strstr_skip by assumption.
  assert (Hs : strstr (oom_line ++ q) "process" = Some ("process 4242" ++ q)%string)
    by reflexivity.
  rewrite Hs.
  change ((pre ++ oom_line ++ q)%string)
    with ((pre ++ "Out of memory" ++ (": Kill process 4242" ++ q))%string).
  rewrite strstr_found. simpl orb. cbv iota.
  change (advance 7 ("process 4242" ++ q)) with (" 4242" ++ q)%string.
  unfold sscanf_d.
  change (skip_space (" 4242" ++ q)) with ("4242" ++ q)%string.
  change (("4242" ++ q)%string) with (String "4" (String "2" (String "4" (String "2" q)))).
  cbv iota.
  change (take_digits 10 (String "4" (String "2" (String "4" (String "2" q)))))
    with (4 :: 2 :: 4 :: 2 :: take_digits 6 q).
  rewrite take_digits_stop by assumption. reflexivity.
Qed.

Section AdjusterFacts.
Context {P : Platform}.
Variable args : option stress_args_t.
Variables procname str : string.
Variable fs : string -> nat -> attempt.

Lemma count_writes_app (t1 t2 : list event) :
  count_writes (t1 ++ t2) = (count_writes t1 + count_writes t2)%nat.
Proof. unfold count_writes. rewrite filter_app, length_app. reflexivity. Qed.

Lemma count_opens_app (t1 t2 : list event) :
  count_opens (t1 ++ t2) = (count_opens t1 + count_opens t2)%nat.
Proof. unfold count_opens. rewrite filter_app, length_app. reflexivity. Qed.

Lemma count_writes_dbg (e : Z) : count_writes (dbg_cant_set args e) = 0%nat.
Proof. unfold dbg_cant_set. destruct (reporting args); reflexivity. Qed.

Lemma count_opens_dbg (e : Z) : count_opens (dbg_cant_set args e) = 0%nat.
Proof. unfold dbg_cant_set. destruct (reporting args); reflexivity. Qed.

Lemma retried_round (rem i : nat) (saved : Z) :
  retried (fs procname i) = true ->
  set_adjustment_loop args procname str fs (S rem) i saved =
  (fst (set_adjustment_loop args procname str fs rem (S i)
          (write_errno (fs procname i))),
   round_io procname str ++
   snd (set_adjustment_loop args procname str fs rem (S i)
          (write_errno (fs procname i)))).
Proof.
  unfold retried, write_again, write_zero. intros H. cbn [set_adjustment_loop].
  destruct (set_adjustment_loop args procname str fs rem (S i)
              (write_errno (fs procname i))) as [r tr].
  cbn [fst snd].
  destruct (open_ret (fs procname i) <? 0) eqn:Ho;
    [apply Z.ltb_lt in Ho; destruct (0 <=? open_ret (fs procname i)) eqn:Ho';
       [apply Z.leb_le in Ho'; lia | simpl in H; discriminate]|].
  destruct (0 <? write_ret (fs procname i)) eqn:Hp.
  { apply Z.ltb_lt in Hp.
    destruct (write_ret (fs procname i) <? 0) eqn:Hn;
      [apply Z.ltb_lt in Hn; lia|].
    destruct (write_ret (fs procname i) =? 0) eqn:Hz;
      [apply Z.eqb_eq in Hz; lia|].
    rewrite !andb_false_r in H. simpl in H. discriminate. }
  destruct (write_ret (fs procname i) <? 0) eqn:Hn; [|reflexivity].
  destruct (write_ret (fs procname i) =? 0) eqn:Hz;
    [apply Z.eqb_eq in Hz; apply Z.ltb_lt in Hn; lia|].
  rewrite andb_false_r, orb_false_r, andb_true_r in H.
  apply andb_true_iff in H as [_ H].
  destruct (write_errno (fs procname i) =? EAGAIN); [reflexivity|].
  simpl in H. rewrite H. reflexivity.
Qed.

(** [k] rounds that are retried, one after the other. *)
Lemma retried_rounds (k : nat) : forall (rem i : nat) (saved : Z),
  (forall j, (i <= j < i + k)%nat -> retried (fs procname j) = true) ->
  exists saved',
    set_adjustment_loop args procname str fs (k + rem) i saved =
    (fst (set_adjustment_loop args procname str fs rem (i + k) saved'),
     List.concat (repeat (round_io procname str) k) ++
     snd (set_adjustment_loop args procname str fs rem (i + k) saved')).
Proof.
  induction k as [|k IH]; intros rem i saved H.
  - exists saved. rewrite Nat.add_0_r. simpl.
    destruct (set_adjustment_loop args procname str fs rem i saved); reflexivity.
  - destruct (IH rem (S i) (write_errno (fs procname i))) as [saved' E].
    { intros j Hj. apply H. lia. }
    exists saved'. change (S k + rem)%nat with (S (k + rem)).
    rewrite retried_round by (apply H; lia).
    rewrite E. cbn [fst snd]. replace (i + S k)%nat with (S i + k)%nat by lia.
    cbn [repeat List.concat]. rewrite <- app_assoc. reflexivity.
Qed.

Lemma count_writes_rounds (k : nat) :
  count_writes (List.concat (repeat (round_io procname str) k)) = k.
Proof.
  induction k as [|k IH]; [reflexivity|].
  cbn [repeat List.concat]. rewrite count_writes_app, IH. reflexivity.
Qed.

Lemma count_opens_rounds (k : nat) :
  count_opens (List.concat (repeat (round_io procname str) k)) = k.
Proof.
  induction k as [|k IH]; [reflexivity|].
  cbn [repeat List.concat]. rewrite count_opens_app, IH. reflexivity.
Qed.

(** All 32 rounds retried: the loop runs out and the result is [-1]. *)
Lemma exhausted :
  (forall i, (i < 32)%nat -> retried (fs procname i) = true) ->
  fst (stress_set_adjustment args procname str fs) = -1 /\
  count_writes (snd (stress_set_adjustment args procname str fs)) = 32%nat /\
  count_opens (snd (stress_set_adjustment args procname str fs)) = 32%nat.
Proof.
  intros H. unfold stress_set_adjustment.
  destruct (retried_rounds 32 0 0 0) as [saved' E].
  { intros j Hj. apply H. lia. }
  change (set_adjustment_loop args procname str fs 32 0 0)
    with (set_adjustment_loop args procname str fs (32 + 0) 0 0).
  rewrite E. cbn [fst snd set_adjustment_loop].
  rewrite count_writes_app, count_opens_app, count_writes_rounds,
    count_opens_rounds, count_writes_dbg, count_opens_dbg. auto.
Qed.

(** After [k] retried rounds the loop is at round [k]. *)
Lemma after_retries (k : nat) :
  (k < 32)%nat ->
  (forall j, (j < k)%nat -> retried (fs procname j) = true) ->
  exists saved,
    stress_set_adjustment args procname str fs =
    (fst (set_adjustment_loop args procname str fs (32 - k) k saved),
     List.concat (repeat (round_io procname str) k) ++
     snd (set_adjustment_loop args procname str fs (32 - k) k saved)).
Proof.
  intros Hk H. unfold stress_set_adjustment.
  destruct (retried_rounds k (32 - k) 0 0) as [saved E].
  { intros j Hj. apply H. lia. }
  exists saved. replace 32%nat with (k + (32 - k))%nat at 1 by lia.
  exact E.
Qed.


Lemma round_open_fails (rem i : nat) (saved : Z) :
  open_ret (fs procname i) < 0 ->
  set_adjustment_loop args procname str fs (S rem) i saved =
  (- open_errno (fs procname i), [Ev_open procname]).
Proof.
  intros H. cbn [set_adjustment_loop].
  apply Z.ltb_lt in H. rewrite H. reflexivity.
Qed.

Lemma round_write_ok (rem i : nat) (saved : Z) :
  0 <= open_ret (fs procname i) -> 0 < write_ret (fs procname i) ->
  set_adjustment_loop args procname str fs (S rem) i saved =
  (0, round_io procname str).
Proof.
  intros Ho Hw. cbn [set_adjustment_loop].
  destruct (open_ret (fs procname i) <? 0) eqn:E;
    [apply Z.ltb_lt in E; lia|].
  apply Z.ltb_lt in Hw. rewrite Hw. reflexivity.
Qed.

Lemma round_write_fails (rem i : nat) (saved : Z) :
  0 <= open_ret (fs procname i) -> write_ret (fs procname i) < 0 ->
  write_errno (fs procname i) <> EAGAIN ->
  write_errno (fs procname i) <> EINTR ->
  set_adjustment_loop args procname str fs (S rem) i saved =
  (- write_errno (fs procname i),
   round_io procname str ++ dbg_cant_set args (close_errno (fs procname i))).
Proof.
  intros Ho Hw Ha Hi. cbn [set_adjustment_loop].
  destruct (open_ret (fs procname i) <? 0) eqn:E;
    [apply Z.ltb_lt in E; lia|].
  destruct (0 <? write_ret (fs procname i)) eqn:E1;
    [apply Z.ltb_lt in E1; lia|].
  apply Z.ltb_lt in Hw. apply Z.eqb_neq in Ha, Hi.
  rewrite Hw, Ha, Hi. reflexivity.
Qed.

Lemma touched_app (q : string) (t1 t2 : list event) :
  touched q (t1 ++ t2) = touched q t1 || touched q t2.
Proof. apply existsb_app. Qed.

Lemma touched_dbg (q : string) (e : Z) : touched q (dbg_cant_set args e) = false.
Proof. unfold dbg_cant_set. destruct (reporting args); reflexivity. Qed.

Lemma touched_round (q : string) :
  touched q (round_io procname str) = String.eqb procname q.
Proof.
  unfold touched, round_io. cbn [existsb touches].
  destruct (String.eqb procname q); reflexivity.
Qed.

(** The loop opens, writes and closes no other path than its own. *)
Lemma loop_touches (q : string) (rem : nat) : forall (i : nat) (saved : Z),
  String.eqb procname q = false ->
  touched q (snd (set_adjustment_loop args procname str fs rem i saved)) = false.
Proof.
  induction rem as [|rem IH]; intros i saved Hq; cbn [set_adjustment_loop].
  - apply touched_dbg.
  - destruct (open_ret (fs procname i) <? 0).
    { cbn [snd touched existsb touches]. rewrite Hq. reflexivity. }
    destruct (0 <? write_ret (fs procname i)).
    { cbn [snd]. rewrite touched_round. assumption. }
    destruct ((write_ret (fs procname i) <? 0)
              && negb (write_errno (fs procname i) =? EAGAIN)
              && negb (write_errno (fs procname i) =? EINTR)).
    { cbn [snd]. rewrite touched_app, touched_round, touched_dbg, Hq.
      reflexivity. }
    specialize (IH (S i) (write_errno (fs procname i)) Hq).
    destruct (set_adjustment_loop args procname str fs rem (S i)
                (write_errno (fs procname i))) as [r tr].
    cbn [snd] in *. rewrite touched_app, touched_round, Hq, IH. reflexivity.
Qed.

(** A round opens the path of the call. *)
Lemma loop_touches_own (rem i : nat) (saved : Z) :
  touched procname
    (snd (set_adjustment_loop args procname str fs (S rem) i saved)) = true.
Proof.
  cbn [set_adjustment_loop].
  destruct (open_ret (fs procname i) <? 0).
  { cbn [snd touched existsb touches]. rewrite String.eqb_refl. reflexivity. }
  destruct (0 <? write_ret (fs procname i)).
  { cbn [snd]. rewrite touched_round. apply String.eqb_refl. }
  destruct ((write_ret (fs procname i) <? 0)
            && negb (write_errno (fs procname i) =? EAGAIN)
            && negb (write_errno (fs procname i) =? EINTR)).
  { cbn [snd]. rewrite touched_app, touched_round, String.eqb_refl.
    reflexivity. }
  destruct (set_adjustment_loop args procname str fs rem (S i)
              (write_errno (fs procname i))) as [r tr].
  cbn [snd]. rewrite touched_app, touched_round, String.eqb_refl. reflexivity.
Qed.

Lemma call_touches :
  touched procname (snd (stress_set_adjustment args procname str fs)) = true.
Proof. apply (loop_touches_own 31 0 0). Qed.

(** Whatever the loop writes is [str], to [procname]. *)
Lemma loop_writes (rem : nat) : forall (i : nat) (saved : Z) (path s : string),
  In (Ev_write path s)
     (snd (set_adjustment_loop args procname str fs rem i saved)) ->
  path = procname /\ s = str.
Proof.
  assert (Hdbg : forall e path s, ~ In (Ev_write path s) (dbg_cant_set args e)).
  { intros e path s. unfold dbg_cant_set.
    destruct (reporting args); simpl; intuition discriminate. }
  assert (Hio : forall path s, In (Ev_write path s) (round_io procname str) ->
                               path = procname /\ s = str).
  { intros path s [H|[H|[H|[]]]]; try discriminate.
    injection H as <- <-. auto. }
  induction rem as [|rem IH]; intros i saved path s; cbn [set_adjustment_loop].
  - cbn [snd]. intros H. elim (Hdbg _ _ _ H).
  - destruct (open_ret (fs procname i) <? 0).
    { cbn [snd]. intros [H|[]]. discriminate. }
    destruct (0 <? write_ret (fs procname i)).
    { cbn [snd]. apply Hio. }
    destruct ((write_ret (fs procname i) <? 0)
              && negb (write_errno (fs procname i) =? EAGAIN)
              && negb (write_errno (fs procname i) =? EINTR)).
    { cbn [snd]. intros H. apply in_app_or in H as [H|H]; [auto|].
      elim (Hdbg _ _ _ H). }
    specialize (IH (S i) (write_errno (fs procname i)) path s).
    destruct (set_adjustment_loop args procname str fs rem (S i)
                (write_errno (fs procname i))) as [r tr].
    cbn [snd] in *. intros H. apply in_app_or in H as [H|H]; auto.
Qed.

(** If [open] succeeds in a round, [str] is written. *)
Lemma loop_writes_first (rem i : nat) (saved : Z) :
  0 <= open_ret (fs procname i) ->
  In (Ev_write procname str)
     (snd (set_adjustment_loop args procname str fs (S rem) i saved)).
Proof.
  intros Ho. cbn [set_adjustment_loop].
  destruct (open_ret (fs procname i) <? 0) eqn:E;
    [apply Z.ltb_lt in E; lia|].
  assert (Hio : In (Ev_write procname str) (round_io procname str))
    by (right; left; reflexivity).
  destruct (0 <? write_ret (fs procname i)); [exact Hio|].
  destruct ((write_ret (fs procname i) <? 0)
            && negb (write_errno (fs procname i) =? EAGAIN)
            && negb (write_errno (fs procname i) =? EINTR)).
  { cbn [snd]. apply in_or_app. auto. }
  destruct (set_adjustment_loop args procname str fs rem (S i)
              (write_errno (fs procname i))) as [r tr].
  cbn [snd]. apply in_or_app. auto.
Qed.

Lemma call_writes :
  0 <= open_ret (fs procname 0) ->
  In (Ev_write procname str) (snd (stress_set_adjustment args procname str fs)).
Proof. apply (loop_writes_first 31 0 0). Qed.

End AdjusterFacts.

Section AdjusterClaims.
Context {P : Platform}.

Lemma make_killable_or (args : option stress_args_t) (killable : bool) (g : Z) :
  make_killable args killable g =
  killable || (negb (is_null args) && bit_set g OPT_FLAGS_OOMABLE).
Proof.
  unfold make_killable.
  destruct (negb (is_null args) && bit_set g OPT_FLAGS_OOMABLE), killable;
    reflexivity.
Qed.

(** Claim C4.  In [stress_set_adjustment], a write that fails with [EAGAIN]
    or [EINTR] in every round is attempted exactly 32 times and the result
    is the failure [-1]; a write that fails with any other error returns
    the negated error at once, with no further round; a write that returns
    a positive count returns 0 at once.  The rounds before the deciding one
    may be any retried rounds. *)
Theorem retry_bound (args : option stress_args_t) (procname str : string)
    (fs : string -> nat -> attempt) :
  ((forall i, (i < 32)%nat -> write_again (fs procname i) = true) ->
   fst (stress_set_adjustment args procname str fs) = -1 /\
   count_writes (snd (stress_set_adjustment args procname str fs)) = 32%nat)
  /\
  (forall k, (k < 32)%nat ->
     (forall j, (j < k)%nat -> retried (fs procname j) = true) ->
     0 <= open_ret (fs procname k) ->
     (write_ret (fs procname k) < 0 ->
      write_errno (fs procname k) <> EAGAIN ->
      write_errno (fs procname k) <> EINTR ->
      fst (stress_set_adjustment args procname str fs)
        = - write_errno (fs procname k) /\
      count_writes (snd (stress_set_adjustment args procname str fs)) = S k)
     /\
     (0 < write_ret (fs procname k) ->
      fst (stress_set_adjustment args procname str fs) = 0 /\
      count_writes (snd (stress_set_adjustment args procname str fs)) = S k)).
Proof.
  split.
  - intros H.
    destruct (exhausted args procname str fs) as (Hr & Hw & _); [|auto].
    intros i Hi. unfold retried. rewrite H by assumption. reflexivity.
  - intros k Hk Hprev Ho.
    destruct (after_retries args procname str fs k Hk Hprev) as [saved E].
    replace (32 - k)%nat with (S (31 - k)) in E by lia.
    split.
    + intros Hw Ha Hi. rewrite E.
      rewrite round_write_fails by assumption. cbn [fst snd].
      rewrite !count_writes_app, count_writes_rounds, count_writes_dbg.
      split; [reflexivity|]. unfold round_io, count_writes. simpl. lia.
    + intros Hw. rewrite E.
      rewrite round_write_ok by assumption. cbn [fst snd].
      rewrite !count_writes_app, count_writes_rounds.
      split; [reflexivity|]. unfold round_io, count_writes. simpl. lia.
Qed.

Lemma modern_never_touches_old (args : option stress_args_t) (str : string)
    (fs : string -> nat -> attempt) :
  touched oom_adj (snd (stress_set_adjustment args oom_score_adj str fs)) = false.
Proof. apply loop_touches. reflexivity. Qed.

(** Claim C3.  With the no-OOM-adjust option clear,
    [stress_set_oom_adjustment] touches [/proc/self/oom_adj] if and only if
    the call on [/proc/self/oom_score_adj] fails with exactly [-ENOENT];
    after a success or any other failure the old interface is not touched.
    With the option set nothing is touched at all. *)
Theorem fallback_iff (args : option stress_args_t) (killable : bool) (g : Z)
    (os : system) :
  let ret :=
    fst (stress_set_adjustment args oom_score_adj
           (score_adj_str (make_killable args killable g) (high_priv os))
           (files os)) in
  (bit_set g OPT_FLAGS_NO_OOM_ADJUST = false ->
   (touched oom_adj (stress_set_oom_adjustment args killable g os) = true
    <-> ret <> 0 /\ ret = - ENOENT))
  /\
  (bit_set g OPT_FLAGS_NO_OOM_ADJUST = true ->
   stress_set_oom_adjustment args killable g os = []).
Proof.
  cbv zeta. unfold stress_set_oom_adjustment. split; intros Hg; rewrite Hg;
    [|reflexivity].
  pose proof (modern_never_touches_old args
                (score_adj_str (make_killable args killable g) (high_priv os))
                (files os)) as Hm.
  destruct (stress_set_adjustment args oom_score_adj
              (score_adj_str (make_killable args killable g) (high_priv os))
              (files os)) as [ret tr].
  cbn [fst snd] in *.
  destruct (ret =? 0) eqn:E0; cbn [orb].
  { apply Z.eqb_eq in E0. rewrite Hm. split; [discriminate|]. intros [H _].
    contradiction. }
  apply Z.eqb_neq in E0.
  destruct (ret =? - ENOENT) eqn:E1; cbn [negb].
  - apply Z.eqb_eq in E1. rewrite touched_app, call_touches, orb_true_r.
    split; auto.
  - apply Z.eqb_neq in E1. rewrite Hm. split; [discriminate|]. intros [_ H].
    contradiction.
Qed.

(** Claim C7, amended.  With the no-OOM-adjust option clear the effective
    killability is [killable], or the OOMable option for a call with
    non-null [args] (the main process, which passes a null [args], is not
    made killable by the option).  Every value written is, on the modern
    interface, "1000" when effectively killable, "-1000" when not killable
    with high privilege and "0" otherwise, and on the old interface "15",
    "-17" and "-16"; all lie in the documented ranges, and an effectively
    killable call never writes the never-kill value.  If the first [open]
    of the modern file succeeds the value is written. *)
Theorem written_values (args : option stress_args_t) (killable : bool) (g : Z)
    (os : system) :
  bit_set g OPT_FLAGS_NO_OOM_ADJUST = false ->
  let mk := killable || (negb (is_null args) && bit_set g OPT_FLAGS_OOMABLE) in
  let hp := (getuid os =? 0) && (geteuid os =? 0) in
  (forall path s,
     In (Ev_write path s) (stress_set_oom_adjustment args killable g os) ->
     (path = "/proc/self/oom_score_adj"%string /\
      s = (if mk then "1000" else if hp then "-1000" else "0")%string /\
      exists v, sscanf_d 10 s = Some v /\ -1000 <= v <= 1000 /\
                (mk = true -> v = 1000) /\
                (mk = false -> hp = true -> v = -1000))
     \/
     (path = "/proc/self/oom_adj"%string /\
      s = (if mk then "15" else if hp then "-17" else "-16")%string /\
      exists v, sscanf_d 10 s = Some v /\ -17 <= v <= 15 /\
                (mk = true -> v = 15) /\
                (mk = false -> hp = true -> v = -17)))
  /\
  (0 <= open_ret (files os "/proc/self/oom_score_adj"%string 0) ->
   In (Ev_write "/proc/self/oom_score_adj"
         (if mk then "1000" else if hp then "-1000" else "0"))
      (stress_set_oom_adjustment args killable g os)).
Proof.
  intros Hg mk hp. unfold stress_set_oom_adjustment. rewrite Hg.
  rewrite make_killable_or. fold mk. unfold high_priv. fold hp.
  pose proof (loop_writes args oom_score_adj (score_adj_str mk hp) (files os)
                32 0 0) as Hm.
  pose proof (call_writes args oom_score_adj (score_adj_str mk hp) (files os))
    as Hw.
  pose proof (loop_writes args oom_adj (adj_str mk hp) (files os) 32 0 0) as Ho.
  fold (stress_set_adjustment args oom_score_adj (score_adj_str mk hp) (files os))
    in Hm.
  fold (stress_set_adjustment args oom_adj (adj_str mk hp) (files os)) in Ho.
  destruct (stress_set_adjustment args oom_score_adj (score_adj_str mk hp)
              (files os)) as [ret tr].
  cbn [snd] in *.
  assert (Hmod : forall path s, In (Ev_write path s) tr ->
            path = "/proc/self/oom_score_adj"%string /\
            s = (if mk then "1000" else if hp then "-1000" else "0")%string /\
            exists v, sscanf_d 10 s = Some v /\ -1000 <= v <= 1000 /\
                      (mk = true -> v = 1000) /\
                      (mk = false -> hp = true -> v = -1000)).
  { intros path s H. destruct (Hm path s H) as [-> ->].
    split; [reflexivity|]. split; [reflexivity|].
    destruct mk, hp; cbn;
      [exists 1000|exists 1000|exists (-1000)|exists 0];
      repeat split; try lia; try reflexivity; intros; try discriminate. }
  assert (Hold : forall path s,
            In (Ev_write path s)
               (snd (stress_set_adjustment args oom_adj (adj_str mk hp) (files os))) ->
            path = "/proc/self/oom_adj"%string /\
            s = (if mk then "15" else if hp then "-17" else "-16")%string /\
            exists v, sscanf_d 10 s = Some v /\ -17 <= v <= 15 /\
                      (mk = true -> v = 15) /\
                      (mk = false -> hp = true -> v = -17)).
  { intros path s H. destruct (Ho path s H) as [-> ->].
    split; [reflexivity|]. split; [reflexivity|].
    destruct mk, hp; cbn;
      [exists 15|exists 15|exists (-17)|exists (-16)];
      repeat split; try lia; try reflexivity; intros; try discriminate. }
  split.
  - intros path s H.
    destruct ((ret =? 0) || negb (ret =? - ENOENT)); [left; auto|].
    apply in_app_or in H as [H|H]; [left|right]; auto.
  - intros Hopen. specialize (Hw Hopen). unfold score_adj_str in Hw.
    destruct ((ret =? 0) || negb (ret =? - ENOENT)); [exact Hw|].
    apply in_or_app. left. exact Hw.
Qed.

(** Claim C10.  In [stress_set_adjustment] a write of zero bytes is retried
    whatever [errno] is; if all 32 rounds write zero bytes the result is
    [-1], which differs from [-ENOENT] (as soon as [ENOENT] is not 1), so
    that [stress_set_oom_adjustment] does not fall back to the old
    interface.  A failed [open] returns the negated [errno] in the round
    where it happens, without a write and without a further round. *)
Theorem zero_write_exhaustion (args : option stress_args_t)
    (procname str : string) (fs : string -> nat -> attempt) :
  ((forall i, (i < 32)%nat -> write_zero (fs procname i) = true) ->
   fst (stress_set_adjustment args procname str fs) = -1 /\
   count_writes (snd (stress_set_adjustment args procname str fs)) = 32%nat)
  /\
  (ENOENT <> 1 ->
   -1 <> - ENOENT /\
   forall killable g os,
     (forall i, (i < 32)%nat ->
        write_zero (files os oom_score_adj i) = true) ->
     touched oom_adj (stress_set_oom_adjustment args killable g os) = false)
  /\
  (forall k, (k < 32)%nat ->
     (forall j, (j < k)%nat -> retried (fs procname j) = true) ->
     open_ret (fs procname k) < 0 ->
     fst (stress_set_adjustment args procname str fs)
       = - open_errno (fs procname k) /\
     count_opens (snd (stress_set_adjustment args procname str fs)) = S k /\
     count_writes (snd (stress_set_adjustment args procname str fs)) = k)
  /\
  (open_ret (fs procname 0%nat) < 0 ->
   stress_set_adjustment args procname str fs
     = (- open_errno (fs procname 0%nat), [Ev_open procname])).
Proof.
  assert (Hz : forall p s f,
            (forall i, (i < 32)%nat -> write_zero (f p i) = true) ->
            fst (stress_set_adjustment args p s f) = -1 /\
            count_writes (snd (stress_set_adjustment args p s f)) = 32%nat).
  { intros p s f H. destruct (exhausted args p s f) as (Hr & Hw & _); [|auto].
    intros i Hi. unfold retried. rewrite H by assumption. apply orb_true_r. }
  split; [apply Hz|]. split; [|split].
  - intros Hne. split; [lia|]. intros killable g os H.
    unfold stress_set_oom_adjustment.
    destruct (bit_set g OPT_FLAGS_NO_OOM_ADJUST); [reflexivity|].
    pose proof (Hz oom_score_adj
                  (score_adj_str (make_killable args killable g) (high_priv os))
                  (files os) H) as [Hr _].
    pose proof (modern_never_touches_old args
                  (score_adj_str (make_killable args killable g) (high_priv os))
                  (files os)) as Hm.
    destruct (stress_set_adjustment args oom_score_adj
                (score_adj_str (make_killable args killable g) (high_priv os))
                (files os)) as [ret tr].
    cbn [fst snd] in *. subst ret.
    replace (-1 =? - ENOENT) with false by (symmetry; apply Z.eqb_neq; lia).
    rewrite orb_true_r. exact Hm.
  - intros k Hk Hprev Ho.
    destruct (after_retries args procname str fs k Hk Hprev) as [saved E].
    replace (32 - k)%nat with (S (31 - k)) in E by lia.
    rewrite E, round_open_fails by assumption. cbn [fst snd].
    rewrite count_writes_app, count_opens_app, count_writes_rounds,
      count_opens_rounds.
    split; [reflexivity|]. unfold count_opens, count_writes. simpl. lia.
  - intros Ho. unfold stress_set_adjustment. change 32%nat with (S 31).
    apply round_open_fails. exact Ho.
Qed.

End AdjusterClaims.

Ltac fields :=
  cbn [pc ooms segvs buserrs rc signal_idx trace goto emit incr_ooms
       incr_segvs incr_buserrs set_rc incr_signal_idx] in *.

Lemma kills_app (t1 t2 : list event) : kills (t1 ++ t2) = kills t1 ++ kills t2.
Proof.
  induction t1 as [|e t1 IH]; [reflexivity|].
  destruct e; cbn [kills app]; rewrite ?IH; reflexivity.
Qed.

Lemma kills_to_app (pid : Z) (t1 t2 : list event) :
  kills_to pid (t1 ++ t2) = kills_to pid t1 ++ kills_to pid t2.
Proof.
  induction t1 as [|e t1 IH]; [reflexivity|].
  destruct e; cbn [kills_to app]; rewrite ?IH; try reflexivity.
  destruct (pid0 =? pid); rewrite ?IH; reflexivity.
Qed.

Lemma count_forks_app (t1 t2 : list event) :
  count_forks (t1 ++ t2) = (count_forks t1 + count_forks t2)%nat.
Proof. unfold count_forks. rewrite filter_app, length_app. reflexivity. Qed.

Section SupervisorFacts.
Context {P : Platform}.
Variable args : stress_args_t.
Variables flag g : Z.

Lemma trace_emit_if (c : bool) (es : list event) (s : state) :
  trace (emit_if c es s) = trace s ++ (if c then es else []).
Proof. destruct c; cbn; [reflexivity|]. symmetry. apply app_nil_r. Qed.

Lemma emit_if_fields (c : bool) (es : list event) (s : state) :
  pc (emit_if c es s) = pc s /\ ooms (emit_if c es s) = ooms s /\
  segvs (emit_if c es s) = segvs s /\ buserrs (emit_if c es s) = buserrs s /\
  rc (emit_if c es s) = rc s /\ signal_idx (emit_if c es s) = signal_idx s.
Proof. destruct c; cbn; auto 10. Qed.

Lemma step_returned (s : state) (a : answer) (v : Z) :
  pc s = Returned v -> step args flag g s a = None.
Proof. unfold step. intros ->. reflexivity. Qed.

Lemma run_returned (s : state) (v : Z) (script : list answer) :
  pc s = Returned v -> run args flag g s script = s.
Proof.
  intros H. destruct script as [|a rest]; [reflexivity|].
  cbn [run]. rewrite (step_returned s a v H). reflexivity.
Qed.

Lemma run_cons (s s' : state) (a : answer) (rest : list answer) :
  step args flag g s a = Some s' ->
  run args flag g s (a :: rest) = run args flag g s' rest.
Proof. intros H. cbn [run]. rewrite H. reflexivity. Qed.

(** Claim C6.  If at entry [stress_continue] is false, or it is true and
    the clock is past [time_end], [stress_oomable_child] returns
    [EXIT_SUCCESS] without any effect: in particular without a [fork]. *)
Theorem entry_check (script : list answer) :
  let s1 := stress_oomable_child args flag g (A_continue false :: script) in
  let s2 :=
    stress_oomable_child args flag g
      (A_continue true :: A_time_up true :: script) in
  (pc s1 = Returned EXIT_SUCCESS /\ trace s1 = [] /\ count_forks (trace s1) = 0%nat)
  /\
  (pc s2 = Returned EXIT_SUCCESS /\ trace s2 = [] /\ count_forks (trace s2) = 0%nat).
Proof.
  cbv zeta. unfold stress_oomable_child. split.
  - rewrite (run_cons entry (goto (Returned EXIT_SUCCESS) entry)) by reflexivity.
    rewrite (run_returned _ EXIT_SUCCESS) by reflexivity. auto.
  - rewrite (run_cons entry (goto At_time entry)) by reflexivity.
    rewrite (run_cons _ (goto (Returned EXIT_SUCCESS) (goto At_time entry)))
      by reflexivity.
    rewrite (run_returned _ EXIT_SUCCESS) by reflexivity. auto.
Qed.

(** Claim C9.  When [fork] fails with [EAGAIN] or [ENOMEM] the supervisor
    sleeps 100000 microseconds and is back at [again:] with its variables
    unchanged; when it fails with another error the function returns [-1]
    after that one [fork], without sleeping or retrying. *)
Theorem fork_failure (s : state) (ret errno : Z) (rest : list answer) :
  pc s = At_fork -> ret < 0 ->
  (errno = EAGAIN \/ errno = ENOMEM ->
   exists s',
     run args flag g s (A_fork ret errno :: rest) = run args flag g s' rest /\
     pc s' = At_again /\
     trace s' = trace s ++ [Ev_fork; Ev_usleep 100000] /\
     ooms s' = ooms s /\ segvs s' = segvs s /\ buserrs s' = buserrs s /\
     rc s' = rc s /\ signal_idx s' = signal_idx s)
  /\
  (errno <> EAGAIN -> errno <> ENOMEM ->
   let s' := run args flag g s (A_fork ret errno :: rest) in
   pc s' = Returned (-1) /\
   trace s' = trace s ++ Ev_fork ::
                (if not_quiet flag
                 then [Ev_err_fork_failed (args_name args) errno] else []) /\
   count_forks (trace s') = S (count_forks (trace s))).
Proof.
  intros Hpc Hret. apply Z.ltb_lt in Hret.
  assert (Hstep : step args flag g s (A_fork ret errno)
                  = Some (on_fork args flag ret errno s)).
  { unfold step. rewrite Hpc. reflexivity. }
  split.
  - intros He. exists (on_fork args flag ret errno s).
    split; [apply run_cons, Hstep|].
    unfold on_fork. rewrite Hret.
    replace ((errno =? EAGAIN) || (errno =? ENOMEM)) with true.
    + fields. rewrite <- app_assoc. auto 10.
    + symmetry. apply orb_true_iff.
      destruct He as [->| ->]; [left|right]; apply Z.eqb_refl.
  - intros Ha Hm. cbv zeta. rewrite (run_cons _ _ _ _ Hstep).
    unfold on_fork. rewrite Hret.
    apply Z.eqb_neq in Ha, Hm. rewrite Ha, Hm. cbn [orb].
    rewrite (run_returned _ (-1)) by reflexivity.
    fields. rewrite trace_emit_if. fields. rewrite <- app_assoc.
    split; [reflexivity|]. split; [reflexivity|].
    rewrite count_forks_app. cbn [app]. unfold count_forks at 2.
    destruct (not_quiet flag); cbn; lia.
Qed.


Lemma step_waitpid (s : state) (pid ret status errno : Z) :
  pc s = At_waitpid pid ->
  step args flag g s (A_waitpid ret status errno)
  = Some (on_waitpid args flag g pid ret status errno s).
Proof. intros H. unfold step. rewrite H. reflexivity. Qed.

(** Claim C1.  A child reaped as killed by [SIGKILL] while the schedule
    entry at [signal_idx] is not [SIGKILL]: with the OOMable option the
    function returns [EXIT_SUCCESS] with the OOM counter unchanged and no
    further [fork]; without it the OOM counter grows by exactly one, the
    other variables are unchanged and control is back at [again:]. *)
Theorem oom_kill_branch (s : state) (pid ret status errno : Z)
    (rest : list answer) :
  pc s = At_waitpid pid -> 0 <= ret ->
  WIFSIGNALED status = true -> WTERMSIG status = SIGKILL ->
  nth (signal_idx s) signals 0 <> SIGKILL ->
  SIGKILL <> SIGBUS ->
  (bit_set g OPT_FLAGS_OOMABLE = true ->
   let s' := run args flag g s (A_waitpid ret status errno :: rest) in
   pc s' = Returned EXIT_SUCCESS /\
   ooms s' = ooms s /\ segvs s' = segvs s /\ buserrs s' = buserrs s /\
   count_forks (trace s') = count_forks (trace s) /\
   In (Ev_clean_dir (args_name args) (args_pid args) (args_instance args))
      (trace s'))
  /\
  (bit_set g OPT_FLAGS_OOMABLE = false ->
   exists s',
     run args flag g s (A_waitpid ret status errno :: rest)
       = run args flag g s' rest /\
     pc s' = At_again /\
     ooms s' = ooms s + 1 /\ segvs s' = segvs s /\ buserrs s' = buserrs s /\
     rc s' = rc s /\ signal_idx s' = signal_idx s /\
     count_forks (trace s') = count_forks (trace s)).
Proof.
  intros Hpc Hret Hsig Hterm Hidx Hbus.
  pose proof (step_waitpid s pid ret status errno Hpc) as Hstep.
  assert (E : on_waitpid args flag g pid ret status errno s
              = on_signaled args flag g status s).
  { unfold on_waitpid. rewrite Hsig.
    destruct (ret <? 0) eqn:E; [apply Z.ltb_lt in E; lia|reflexivity]. }
  rewrite E in Hstep. clear E.
  apply Z.eqb_neq in Hidx, Hbus.
  split; intros Hoom.
  - cbv zeta. rewrite (run_cons _ _ _ _ Hstep).
    unfold on_signaled. rewrite Hterm, Hbus. fields.
    destruct (emit_if_fields (not_quiet flag)
                [Ev_dbg_child_died (args_name args) SIGKILL (args_instance args)]
                (emit [Ev_proc_state (args_name args) STRESS_STATE_RUN] s))
      as (_ & _ & _ & _ & _ & Hi).
    rewrite Hi. fields. rewrite Hidx, Z.eqb_refl, Hoom. cbn [negb andb].
    rewrite (run_returned _ EXIT_SUCCESS) by reflexivity.
    destruct (not_quiet flag); cbn [emit_if]; fields;
      rewrite !count_forks_app; cbn; repeat split; try lia;
      apply in_or_app; right; left; reflexivity.
  - exists (on_signaled args flag g status s).
    split; [apply run_cons, Hstep|].
    unfold on_signaled. rewrite Hterm, Hbus. fields.
    destruct (emit_if_fields (not_quiet flag)
                [Ev_dbg_child_died (args_name args) SIGKILL (args_instance args)]
                (emit [Ev_proc_state (args_name args) STRESS_STATE_RUN] s))
      as (_ & _ & _ & _ & _ & Hi).
    rewrite Hi. fields. rewrite Hidx, Z.eqb_refl, Hoom. cbn [negb andb].
    destruct (not_quiet flag); cbn [emit_if]; fields;
      rewrite !count_forks_app; cbn; repeat split; lia.
Qed.


(** The first three answers of a round bring the supervisor from [again:]
    to the call of [waitpid] on a new child. *)
Lemma spawn_round (s : state) (pid status : Z) (rest : list answer) :
  pc s = At_again -> 0 < pid ->
  run args flag g s (child_round pid status ++ rest)
  = run args flag g
      (on_waitpid args flag g pid pid status 0
         (rewait args pid (emit [Ev_fork] s))) rest.
Proof.
  intros Hpc Hpid. unfold child_round. cbn [app].
  rewrite (run_cons s (goto At_time s)) by (unfold step; rewrite Hpc; reflexivity).
  rewrite (run_cons _ (goto At_fork s)) by reflexivity.
  rewrite (run_cons _ (rewait args pid (emit [Ev_fork] s))).
  - apply run_cons. reflexivity.
  - unfold step. cbn [pc goto]. unfold on_fork.
    destruct (pid <? 0) eqn:E; [apply Z.ltb_lt in E; lia|].
    apply Z.ltb_lt in Hpid. rewrite Hpid. reflexivity.
Qed.

(** One round whose child dies of [SIGBUS], [SIGSEGV] or an outside
    [SIGKILL], without the [--oomable] option. *)
Lemma death_round (s : state) (pid status : Z) (rest : list answer) :
  SIGBUS <> SIGKILL -> SIGBUS <> SIGSEGV -> SIGSEGV <> SIGKILL ->
  bit_set g OPT_FLAGS_OOMABLE = false ->
  pc s = At_again -> nth (signal_idx s) signals 0 <> SIGKILL ->
  0 < pid -> WIFSIGNALED status = true ->
  WTERMSIG status = SIGBUS \/ WTERMSIG status = SIGSEGV
  \/ WTERMSIG status = SIGKILL ->
  exists s',
    run args flag g s (child_round pid status ++ rest) = run args flag g s' rest /\
    pc s' = At_again /\ signal_idx s' = signal_idx s /\ rc s' = rc s /\
    ooms s' = ooms s + (if WTERMSIG status =? SIGKILL then 1 else 0) /\
    segvs s' = segvs s + (if WTERMSIG status =? SIGSEGV then 1 else 0) /\
    buserrs s' = buserrs s + (if WTERMSIG status =? SIGBUS then 1 else 0) /\
    count_forks (trace s') = S (count_forks (trace s)).
Proof.
  intros Hbk Hbs Hsk Hoom Hpc Hidx Hpid Hsig Hterm.
  exists (on_waitpid args flag g pid pid status 0
            (rewait args pid (emit [Ev_fork] s))).
  split; [apply spawn_round; assumption|].
  unfold on_waitpid. rewrite Hsig.
  destruct (pid <? 0) eqn:E; [apply Z.ltb_lt in E; lia|]. clear E.
  apply Z.eqb_neq in Hidx.
  assert (Hkb : (SIGKILL =? SIGBUS) = false) by (apply Z.eqb_neq; congruence).
  assert (Hsb : (SIGSEGV =? SIGBUS) = false) by (apply Z.eqb_neq; congruence).
  assert (Hks : (SIGKILL =? SIGSEGV) = false) by (apply Z.eqb_neq; congruence).
  assert (Hbk' : (SIGBUS =? SIGKILL) = false) by (apply Z.eqb_neq; congruence).
  assert (Hbs' : (SIGBUS =? SIGSEGV) = false) by (apply Z.eqb_neq; congruence).
  assert (Hsk' : (SIGSEGV =? SIGKILL) = false) by (apply Z.eqb_neq; congruence).
  unfold on_signaled, rewait.
  destruct Hterm as [-> | [-> | ->]]; rewrite ?Z.eqb_refl, ?Hkb, ?Hsb, ?Hks,
    ?Hbk', ?Hbs', ?Hsk';
    destruct (not_quiet flag); cbn [emit_if]; fields;
    rewrite ?Hidx, ?Z.eqb_refl, ?Hsk', ?Hoom; cbn [negb andb]; fields;
    rewrite ?Hsb, ?Z.eqb_refl; fields;
    rewrite !count_forks_app; cbn; repeat split; lia.
Qed.

Lemma death_rounds (deaths : list (Z * Z)) : forall (s : state) (rest : list answer),
  SIGBUS <> SIGKILL -> SIGBUS <> SIGSEGV -> SIGSEGV <> SIGKILL ->
  bit_set g OPT_FLAGS_OOMABLE = false ->
  pc s = At_again -> nth (signal_idx s) signals 0 <> SIGKILL ->
  Forall (fun d => 0 < fst d /\ WIFSIGNALED (snd d) = true /\
                   (termsig d = SIGBUS \/ termsig d = SIGSEGV
                    \/ termsig d = SIGKILL)) deaths ->
  exists s',
    run args flag g s
      (flat_map (fun d => child_round (fst d) (snd d)) deaths ++ rest)
      = run args flag g s' rest /\
    pc s' = At_again /\ signal_idx s' = signal_idx s /\ rc s' = rc s /\
    ooms s' = ooms s + Z.of_nat (count_occ Z.eq_dec (map termsig deaths) SIGKILL) /\
    segvs s' = segvs s + Z.of_nat (count_occ Z.eq_dec (map termsig deaths) SIGSEGV) /\
    buserrs s' = buserrs s + Z.of_nat (count_occ Z.eq_dec (map termsig deaths) SIGBUS) /\
    count_forks (trace s') = (count_forks (trace s) + List.length deaths)%nat.
Proof.
  induction deaths as [|[pid status] deaths IH];
    intros s rest Hbk Hbs Hsk Hoom Hpc Hidx Hall.
  - exists s. cbn. repeat split; try reflexivity; try assumption; lia.
  - inversion Hall as [|d l (Hpid & Hsig & Hterm) Hall']; subst.
    cbn [fst snd termsig] in *.
    destruct (death_round s pid status
                (flat_map (fun d => child_round (fst d) (snd d)) deaths ++ rest)
                Hbk Hbs Hsk Hoom Hpc Hidx Hpid Hsig Hterm)
      as (s1 & Hrun & Hpc1 & Hidx1 & Hrc1 & Ho1 & Hs1 & Hb1 & Hf1).
    destruct (IH s1 rest Hbk Hbs Hsk Hoom Hpc1) as
      (s2 & Hrun2 & Hpc2 & Hidx2 & Hrc2 & Ho2 & Hs2 & Hb2 & Hf2);
      [rewrite Hidx1; assumption | assumption |].
    exists s2. cbn [flat_map fst snd]. rewrite <- app_assoc, Hrun, Hrun2.
    split; [reflexivity|]. split; [assumption|].
    split; [congruence|]. split; [congruence|].
    cbn [map count_occ List.length].
    rewrite Ho2, Hs2, Hb2, Hf2, Ho1, Hs1, Hb1, Hf1.
    unfold termsig. cbn [snd].
    repeat split;
      try (destruct (Z.eq_dec (WTERMSIG status) _) as [e|n];
           [rewrite e, Z.eqb_refl | apply Z.eqb_neq in n; rewrite n]; lia).
    lia.
Qed.

(** A round whose child is not signaled ends the supervisor. *)
Lemma final_round (s : state) (pid status : Z) :
  pc s = At_again -> 0 < pid -> WIFSIGNALED status = false ->
  let s' := run args flag g s (child_round pid status) in
  pc s' = Returned (WEXITSTATUS status) /\
  ooms s' = ooms s /\ segvs s' = segvs s /\ buserrs s' = buserrs s /\
  count_forks (trace s') = S (count_forks (trace s)) /\
  (0 < ooms s + segvs s + buserrs s -> not_quiet flag = true ->
   exists tr,
     trace s' = tr ++ [Ev_dbg_restarts (args_name args) (ooms s) (segvs s)
                         (buserrs s)]).
Proof.
  intros Hpc Hpid Hsig. cbv zeta.
  rewrite <- (app_nil_r (child_round pid status)).
  rewrite spawn_round by assumption. cbn [run].
  unfold on_waitpid. rewrite Hsig.
  destruct (pid <? 0) eqn:E; [apply Z.ltb_lt in E; lia|]. clear E.
  unfold report, rewait. fields.
  destruct ((0 <? ooms s + segvs s + buserrs s) && not_quiet flag) eqn:C;
    cbn [emit_if]; fields; rewrite !count_forks_app; cbn;
    repeat split; try lia.
  - intros _ _. eexists. reflexivity.
  - intros Hpos Hq. apply Z.ltb_lt in Hpos. rewrite Hpos, Hq in C.
    discriminate.
Qed.

(** Claim C8.  One invocation whose children die, in any order, three
    times of [SIGBUS], twice of [SIGSEGV] and once of an outside [SIGKILL]
    (OOMable option clear), before a child that is not signaled: the
    counters end at ooms = 1, segvs = 2, buserrs = 3, seven children were
    forked, the function returns the exit status of the last child, and
    the final report (unless quiet) carries these counts. *)
Theorem counter_aggregation (deaths : list (Z * Z)) (pid status : Z) :
  SIGBUS <> SIGKILL -> SIGBUS <> SIGSEGV -> SIGSEGV <> SIGKILL ->
  SIGALRM <> SIGKILL ->
  bit_set g OPT_FLAGS_OOMABLE = false ->
  Forall (fun d => 0 < fst d /\ WIFSIGNALED (snd d) = true) deaths ->
  Permutation (map (fun d => WTERMSIG (snd d)) deaths)
    [SIGBUS; SIGBUS; SIGBUS; SIGSEGV; SIGSEGV; SIGKILL] ->
  0 < pid -> WIFSIGNALED status = false ->
  let s :=
    stress_oomable_child args flag g
      (flat_map (fun d => child_round (fst d) (snd d)) deaths
       ++ child_round pid status) in
  pc s = Returned (WEXITSTATUS status) /\
  ooms s = 1 /\ segvs s = 2 /\ buserrs s = 3 /\
  count_forks (trace s) = 7%nat /\
  (not_quiet flag = true ->
   exists tr, trace s = tr ++ [Ev_dbg_restarts (args_name args) 1 2 3]).
Proof.
  intros Hbk Hbs Hsk Hak Hoom Hall Hperm Hpid Hsig. cbv zeta.
  change (map (fun d => WTERMSIG (snd d)) deaths) with (map termsig deaths)
    in Hperm.
  assert (Hall' : Forall (fun d => 0 < fst d /\ WIFSIGNALED (snd d) = true /\
                   (termsig d = SIGBUS \/ termsig d = SIGSEGV
                    \/ termsig d = SIGKILL)) deaths).
  { rewrite Forall_forall in *. intros d Hd.
    destruct (Hall d Hd) as [H1 H2]. split; [assumption|]. split; [assumption|].
    assert (Hin : In (termsig d) (map termsig deaths)) by (apply in_map; assumption).
    apply (Permutation_in _ Hperm) in Hin. cbn [In] in Hin.
    intuition congruence. }
  pose proof (proj1 (Permutation_count_occ Z.eq_dec _ _) Hperm) as Hcount.
  pose proof (Permutation_length Hperm) as Hlen.
  rewrite length_map in Hlen. cbn [List.length] in Hlen.
  unfold stress_oomable_child.
  destruct (death_rounds deaths entry (child_round pid status)
              Hbk Hbs Hsk Hoom eq_refl)
    as (s1 & Hrun & Hpc1 & Hidx1 & Hrc1 & Ho1 & Hs1 & Hb1 & Hf1);
    [exact Hak | exact Hall' |].
  rewrite Hrun.
  rewrite (Hcount SIGKILL) in Ho1. rewrite (Hcount SIGSEGV) in Hs1.
  rewrite (Hcount SIGBUS) in Hb1.
  assert (Ck : count_occ Z.eq_dec
                 [SIGBUS; SIGBUS; SIGBUS; SIGSEGV; SIGSEGV; SIGKILL] SIGKILL
               = 1%nat).
  { cbn [count_occ].
    destruct (Z.eq_dec SIGBUS SIGKILL); [contradiction|].
    destruct (Z.eq_dec SIGSEGV SIGKILL); [contradiction|].
    destruct (Z.eq_dec SIGKILL SIGKILL); [reflexivity|congruence]. }
  assert (Cs : count_occ Z.eq_dec
                 [SIGBUS; SIGBUS; SIGBUS; SIGSEGV; SIGSEGV; SIGKILL] SIGSEGV
               = 2%nat).
  { cbn [count_occ].
    destruct (Z.eq_dec SIGBUS SIGSEGV); [contradiction|].
    destruct (Z.eq_dec SIGSEGV SIGSEGV); [|congruence].
    destruct (Z.eq_dec SIGKILL SIGSEGV); [congruence|reflexivity]. }
  assert (Cb : count_occ Z.eq_dec
                 [SIGBUS; SIGBUS; SIGBUS; SIGSEGV; SIGSEGV; SIGKILL] SIGBUS
               = 3%nat).
  { cbn [count_occ].
    destruct (Z.eq_dec SIGBUS SIGBUS); [|congruence].
    destruct (Z.eq_dec SIGSEGV SIGBUS); [congruence|].
    destruct (Z.eq_dec SIGKILL SIGBUS); [congruence|reflexivity]. }
  rewrite Ck in Ho1. rewrite Cs in Hs1. rewrite Cb in Hb1.
  cbn [entry ooms segvs buserrs trace] in Ho1, Hs1, Hb1, Hf1.
  destruct (final_round s1 pid status Hpc1 Hpid Hsig)
    as (Fpc & Fo & Fs & Fb & Ff & Ftr).
  rewrite Fpc, Fo, Fs, Fb, Ff, Ho1, Hs1, Hb1, Hf1, Hlen.
  repeat split.
  intros Hq. destruct (Ftr ltac:(lia) Hq) as [tr Htr].
  exists tr. rewrite Htr, Ho1, Hs1, Hb1. reflexivity.
Qed.

End SupervisorFacts.

Section EscalationFacts.
Context {P : Platform}.
Variable args : stress_args_t.
Variables flag g : Z.

Lemma kills_dbg_cant_set (a : option stress_args_t) (e : Z) :
  kills (dbg_cant_set a e) = [].
Proof. unfold dbg_cant_set. destruct (reporting a); reflexivity. Qed.

Lemma kills_loop (a : option stress_args_t) (p str : string)
    (fs : string -> nat -> attempt) (rem : nat) : forall (i : nat) (saved : Z),
  kills (snd (set_adjustment_loop a p str fs rem i saved)) = [].
Proof.
  induction rem as [|rem IH]; intros i saved; cbn [set_adjustment_loop].
  - apply kills_dbg_cant_set.
  - destruct (open_ret (fs p i) <? 0); [reflexivity|].
    destruct (0 <? write_ret (fs p i)); [reflexivity|].
    destruct ((write_ret (fs p i) <? 0) && negb (write_errno (fs p i) =? EAGAIN)
              && negb (write_errno (fs p i) =? EINTR)).
    { cbn [snd]. rewrite kills_app, kills_dbg_cant_set. reflexivity. }
    specialize (IH (S i) (write_errno (fs p i))).
    destruct (set_adjustment_loop a p str fs rem (S i) (write_errno (fs p i))).
    cbn [snd] in *. rewrite kills_app, IH. reflexivity.
Qed.

Lemma kills_adjustment (a : option stress_args_t) (killable : bool) (os : system) :
  kills (stress_set_oom_adjustment a killable g os) = [].
Proof.
  unfold stress_set_oom_adjustment.
  destruct (bit_set g OPT_FLAGS_NO_OOM_ADJUST); [reflexivity|].
  pose proof (kills_loop a oom_score_adj
                (score_adj_str (make_killable a killable g) (high_priv os))
                (files os) 32 0 0) as Hm.
  fold (stress_set_adjustment a oom_score_adj
          (score_adj_str (make_killable a killable g) (high_priv os)) (files os))
    in Hm.
  destruct (stress_set_adjustment a oom_score_adj
              (score_adj_str (make_killable a killable g) (high_priv os))
              (files os)) as [ret tr].
  cbn [snd] in Hm.
  destruct ((ret =? 0) || negb (ret =? - ENOENT)); [assumption|].
  rewrite kills_app, Hm. apply kills_loop.
Qed.

Lemma kills_to_none (p : Z) (tr : list event) :
  kills tr = [] -> kills_to p tr = [].
Proof.
  induction tr as [|e tr IH]; [reflexivity|].
  destruct e; cbn [kills kills_to]; auto. discriminate.
Qed.

Ltac cases :=
  repeat match goal with
         | |- context [if ?c then _ else _] => destruct c eqn:?
         end.

(** What one step does to the escalation index and to the signals sent. *)
Lemma step_escalation (s s' : state) (a : answer) :
  step args flag g s a = Some s' ->
  (signal_idx s' = signal_idx s /\ kills (trace s') = kills (trace s) /\
   forall p, kills_to p (trace s') = kills_to p (trace s))
  \/
  (exists pid ret status errno,
     pc s = At_waitpid pid /\ a = A_waitpid ret status errno /\
     ret < 0 /\ errno <> ECHILD /\
     signal_idx s' = S (signal_idx s) /\
     kills (trace s') = kills (trace s) ++ [nth (signal_idx s) signals 0] /\
     kills_to pid (trace s')
       = kills_to pid (trace s) ++ [nth (signal_idx s) signals 0] /\
     ((6 <= signal_idx s')%nat -> pc s' = Returned (rc s')) /\
     ((signal_idx s' < 6)%nat -> pc s' = At_waitpid pid)).
Proof.
  unfold step. intros H.
  destruct (pc s) eqn:Hpc; destruct a; try discriminate;
    injection H as <-.
  - left. cases; fields; auto.
  - left. cases; fields; auto.
  - left. unfold on_fork, rewait, emit_if. cases; fields;
      repeat split; intros; rewrite ?kills_app, ?kills_to_app;
      cbn [kills kills_to]; rewrite ?app_nil_r; auto.
  - unfold on_waitpid. destruct (ret <? 0) eqn:Hret.
    + unfold on_wait_failed. destruct (errno =? ECHILD) eqn:Hch.
      * left. unfold report, emit_if. cases; fields;
          repeat split; intros; rewrite ?kills_app, ?kills_to_app;
          cbn [kills kills_to]; rewrite ?app_nil_r; auto.
      * right. exists pid, ret, status, errno.
        apply Z.ltb_lt in Hret. apply Z.eqb_neq in Hch.
        do 4 (split; [assumption || reflexivity|]).
        change (List.length signals) with 6%nat.
        unfold report, rewait, emit_if. cases; fields;
          rewrite ?kills_app, ?kills_to_app; cbn [kills kills_to];
          rewrite ?Z.eqb_refl, ?app_nil_r;
          repeat match goal with
                 | H : (_ <=? _)%nat = true |- _ => apply Nat.leb_le in H
                 | H : (_ <=? _)%nat = false |- _ => apply Nat.leb_gt in H
                 end;
          repeat split; intros; try reflexivity; try lia.
    + left. destruct (WIFSIGNALED status).
      * unfold on_signaled, report, emit_if. cases; fields;
          repeat split; intros; rewrite ?kills_app, ?kills_to_app;
          cbn [kills kills_to]; rewrite ?app_nil_r; auto.
      * unfold report, emit_if. cases; fields;
          repeat split; intros; rewrite ?kills_app, ?kills_to_app;
          cbn [kills kills_to]; rewrite ?app_nil_r; auto.
  - left. unfold child_exit. cases; fields;
      repeat split; intros; rewrite ?kills_app, ?kills_to_app;
      cbn [kills kills_to]; rewrite ?app_nil_r; auto.
  - left. unfold emit_if. cases; fields;
      repeat split; intros; rewrite ?kills_app, ?kills_to_app;
      cbn [kills kills_to];
      rewrite ?kills_adjustment, ?(kills_to_none _ _ (kills_adjustment _ _ _)),
        ?app_nil_r; auto.
  - left. unfold child_exit. cases; fields;
      repeat split; intros; rewrite ?kills_app, ?kills_to_app;
      cbn [kills kills_to]; rewrite ?app_nil_r; auto.
  - left. unfold child_exit. cases; fields;
      repeat split; intros; rewrite ?kills_app, ?kills_to_app;
      cbn [kills kills_to]; rewrite ?app_nil_r; auto.
  - left. fields. auto.
  - left. unfold child_exit. cases; fields;
      repeat split; intros; rewrite ?kills_app, ?kills_to_app;
      cbn [kills kills_to]; rewrite ?app_nil_r; auto.
Qed.

Lemma firstn_snoc (n : nat) (l : list Z) :
  (n < List.length l)%nat -> firstn n l ++ [nth n l 0] = firstn (S n) l.
Proof.
  revert l. induction n as [|n IH]; intros [|x l] H; cbn in *; try lia.
  - reflexivity.
  - rewrite IH by lia. reflexivity.
Qed.

Lemma step_inv (s s' : state) (a : answer) :
  escalation_inv s -> step args flag g s a = Some s' -> escalation_inv s'.
Proof.
  intros (Hk & Hle & Hend) Hstep.
  assert (Hlt : (signal_idx s < 6)%nat).
  { destruct (Nat.eq_dec (signal_idx s) 6) as [E|]; [|lia].
    rewrite (step_returned args flag g s a _ (Hend E)) in Hstep. discriminate. }
  destruct (step_escalation s s' a Hstep)
    as [(Hi & Hk' & _) | (pid & ret & status & errno & _ & _ & _ & _ &
                          Hi & Hk' & _ & Hret & _)].
  - unfold escalation_inv. rewrite Hi, Hk'. repeat split; try assumption; lia.
  - unfold escalation_inv. rewrite Hi, Hk', Hk.
    split; [apply firstn_snoc; exact Hlt|]. split; [lia|].
    intros E. apply Hret. rewrite Hi. lia.
Qed.

Lemma run_inv (script : list answer) : forall s,
  escalation_inv s -> escalation_inv (run args flag g s script).
Proof.
  induction script as [|a rest IH]; intros s H; cbn [run]; [assumption|].
  destruct (step args flag g s a) as [s'|] eqn:E; [|assumption].
  apply IH. exact (step_inv s s' a H E).
Qed.

Lemma entry_inv : escalation_inv entry.
Proof. unfold escalation_inv. cbn. repeat split; [lia|discriminate]. Qed.

(** One failing wait, not [ECHILD], before the schedule is used up. *)
Lemma wait_failed_step (s : state) (pid ret status errno : Z) :
  pc s = At_waitpid pid -> ret < 0 -> errno <> ECHILD ->
  (signal_idx s < 6)%nat ->
  exists s',
    step args flag g s (A_waitpid ret status errno) = Some s' /\
    signal_idx s' = S (signal_idx s) /\
    rc s' = rc s /\ ooms s' = ooms s /\ segvs s' = segvs s /\
    buserrs s' = buserrs s /\
    kills_to pid (trace s')
      = kills_to pid (trace s) ++ [nth (signal_idx s) signals 0] /\
    ((signal_idx s < 5)%nat -> pc s' = At_waitpid pid) /\
    (signal_idx s = 5%nat -> pc s' = Returned (rc s)).
Proof.
  intros Hpc Hret Hch Hlt. eexists. split; [apply step_waitpid, Hpc|].
  unfold on_waitpid, on_wait_failed.
  apply Z.ltb_lt in Hret. apply Z.eqb_neq in Hch. rewrite Hret, Hch.
  change (List.length signals) with 6%nat.
  unfold report, rewait, emit_if. cases; fields;
    rewrite ?kills_to_app; cbn [kills_to];
    rewrite ?Z.eqb_refl, ?app_nil_r;
    repeat match goal with
           | H : (_ <=? _)%nat = true |- _ => apply Nat.leb_le in H
           | H : (_ <=? _)%nat = false |- _ => apply Nat.leb_gt in H
           end;
    repeat split; intros; try reflexivity; try lia.
Qed.

Lemma skipn_nth (i : nat) (l : list Z) :
  (i < List.length l)%nat -> skipn i l = nth i l 0 :: skipn (S i) l.
Proof.
  revert l. induction i as [|i IH]; intros [|x l] H; cbn in *; try lia.
  - reflexivity.
  - apply IH. lia.
Qed.

(** Failing waits in a row, none with [ECHILD], while the schedule lasts. *)
Lemma failing_waits (errs : list Z) : forall (s : state) (pid : Z),
  pc s = At_waitpid pid ->
  Forall (fun e => e <> ECHILD) errs ->
  (signal_idx s + List.length errs <= 6)%nat ->
  let s' := run args flag g s (map (fun e => A_waitpid (-1) 0 e) errs) in
  signal_idx s' = (signal_idx s + List.length errs)%nat /\
  rc s' = rc s /\
  kills_to pid (trace s')
    = kills_to pid (trace s)
      ++ firstn (List.length errs) (skipn (signal_idx s) signals) /\
  ((signal_idx s' < 6)%nat -> pc s' = At_waitpid pid) /\
  (signal_idx s' = 6%nat -> errs <> [] -> pc s' = Returned (rc s)).
Proof.
  induction errs as [|e errs IH]; intros s pid Hpc Hall Hlen; cbv zeta.
  - cbn. rewrite Nat.add_0_r, app_nil_r. repeat split; auto. congruence.
  - inversion Hall as [|x l He Hall']; subst. cbn [map List.length] in *.
    destruct (wait_failed_step s pid (-1) 0 e Hpc ltac:(lia) He ltac:(lia))
      as (s1 & Hstep & Hi & Hrc & _ & _ & _ & Hk & Hgo & Hstop).
    rewrite (run_cons args flag g s s1 _ _ Hstep).
    rewrite (skipn_nth (signal_idx s)) by (cbn; lia).
    cbn [firstn].
    destruct (Nat.eq_dec (signal_idx s) 5) as [E5|N5].
    + assert (errs = []) as -> by (destruct errs; [reflexivity|cbn in Hlen; lia]).
      cbn [map run List.length firstn]. rewrite Hi, Hrc, Hk, E5.
      repeat split; try lia. intros _ _. apply Hstop, E5.
    + destruct (IH s1 pid (Hgo ltac:(lia)) Hall' ltac:(lia))
        as (Hi' & Hrc' & Hk' & Hgo' & Hstop').
      rewrite Hi', Hrc', Hk', Hi, Hrc, Hk, <- app_assoc. cbn [app].
      repeat split; try lia.
      * intros H. apply Hgo'. lia.
      * intros H _. destruct errs as [|e' errs'].
        { cbn in H. lia. }
        rewrite <- Hrc. apply Hstop'; [lia|discriminate].
Qed.

End EscalationFacts.

(* ------------------------------------------------------------------ *)
(** *** The detector on the quoted line *)

Lemma prefix_c_str (s : string) : forall n : string,
  prefix n (c_str s) = true -> prefix n s = true.
Proof.
  induction s as [|b t IH]; intros n H; [exact H|].
  destruct n as [|a n]; [reflexivity|].
  cbn [c_str] in H. destruct (Ascii.eqb b zero); [discriminate|].
  cbn [prefix] in *. destruct (ascii_dec a b); [apply IH; exact H|discriminate].
Qed.

(** A needle that is not in the buffer is not in its C string either. *)
Lemma strstr_c_str_none (n s : string) :
  strstr s n = None -> strstr (c_str s) n = None.
Proof.
  induction s as [|b t IH]; intros H; [exact H|].
  rewrite strstr_unfold in H.
  destruct (prefix n (String b t)) eqn:Hp; [discriminate|].
  rewrite strstr_unfold.
  destruct (prefix n (c_str (String b t))) eqn:Hc.
  { apply prefix_c_str in Hc. congruence. }
  cbn [c_str]. destruct (Ascii.eqb b zero); [reflexivity|]. apply IH, H.
Qed.

Lemma oom_record_needs_phrase (buf : string) :
  strstr buf "Out of memory" = None -> strstr buf "oom_reaper" = None ->
  oom_record buf = None.
Proof.
  intros H1 H2. unfold oom_record. rewrite H1, H2.
  destruct (strstr buf "process"); reflexivity.
Qed.

(** Claim C5.  A chunk of the kernel log that holds the line
    "Out of memory: Kill process 4242" makes [stress_process_oomed] answer
    true for pid 4242 and is passed over for pid 4241 (so the answer is
    false when nothing else is buffered); here the line may follow a record
    prefix without the letter p and without NUL, and be followed by
    anything that does not start with a digit.  A chunk with neither
    "Out of memory" nor "oom_reaper" is passed over whatever else it holds,
    so a log of such chunks gives false; and if the device cannot be opened
    the answer is false. *)
Theorem detector_fixtures :
  (forall pre post rest,
     free_of "p" pre = true -> free_of zero pre = true ->
     starts_with_digit post = false ->
     stress_process_oomed 4242 (Some ((pre ++ oom_line ++ post)%string :: rest))
       = true /\
     stress_process_oomed 4241 (Some ((pre ++ oom_line ++ post)%string :: rest))
       = stress_process_oomed 4241 (Some rest))
  /\ stress_process_oomed 4242 (Some [oom_line]) = true
  /\ stress_process_oomed 4241 (Some [oom_line]) = false
  /\ (forall pid data rest,
        strstr data "Out of memory" = None -> strstr data "oom_reaper" = None ->
        stress_process_oomed pid (Some (data :: rest))
          = stress_process_oomed pid (Some rest))
  /\ (forall pid reads,
        Forall (fun data => strstr data "Out of memory" = None /\
                            strstr data "oom_reaper" = None) reads ->
        stress_process_oomed pid (Some reads) = false)
  /\ (forall pid, stress_process_oomed pid None = false).
Proof.
  assert (Hskip : forall pid data rest,
            strstr data "Out of memory" = None ->
            strstr data "oom_reaper" = None ->
            scan_kmsg pid (data :: rest) = scan_kmsg pid rest).
  { intros pid data rest H1 H2. cbn [scan_kmsg].
    rewrite oom_record_needs_phrase; auto using strstr_c_str_none. }
  split; [|split; [reflexivity|split; [reflexivity|split; [|split]]]].
  - intros pre post rest Hp Hz Hd. cbn [stress_process_oomed scan_kmsg].
    rewrite (oom_record_line pre post Hp Hz Hd). split; reflexivity.
  - intros pid data rest. cbn [stress_process_oomed]. apply Hskip.
  - intros pid reads Hall. cbn [stress_process_oomed].
    induction Hall as [|data reads [H1 H2] _ IH]; [reflexivity|].
    rewrite Hskip by assumption. exact IH.
  - reflexivity.
Qed.

Lemma detector_fixtures_witness :
  (stress_process_oomed 4242
     (Some ["6,1034,2345678,-;Out of memory: Kill process 4242 (stress-ng) score 7"%string;
            "6,1035,2345700,-;usb 1-1: new device"%string]) = true /\
   stress_process_oomed 4241
     (Some ["6,1034,2345678,-;Out of memory: Kill process 4242 (stress-ng) score 7"%string;
            "6,1035,2345700,-;usb 1-1: new device"%string])
   = stress_process_oomed 4241 (Some ["6,1035,2345700,-;usb 1-1: new device"%string]))
  /\
  stress_process_oomed 17
    (Some ["4,99,1,-;traps: process 17 general protection"%string]) = false.
Proof.
  split.
  - exact (proj1 detector_fixtures "6,1034,2345678,-;"%string
             " (stress-ng) score 7"%string
             ["6,1035,2345700,-;usb 1-1: new device"%string]
             eq_refl eq_refl eq_refl).
  - apply (proj1 (proj2 (proj2 (proj2 (proj2 detector_fixtures))))).
    repeat constructor.
Defined.

(* ------------------------------------------------------------------ *)
(** *** The escalation schedule over whole runs *)

Section EscalationClaim.
Context {P : Platform}.
Variable args : stress_args_t.
Variables flag g : Z.

(** The state after [fork] has given the parent a first child. *)
Lemma first_spawn (pid e0 : Z) (rest : list answer) :
  0 < pid ->
  stress_oomable_child args flag g
    (A_continue true :: A_time_up false :: A_fork pid e0 :: rest)
  = run args flag g (rewait args pid (emit [Ev_fork] entry)) rest.
Proof.
  intros Hpid. unfold stress_oomable_child.
  rewrite (run_cons args flag g entry (goto At_time entry)) by reflexivity.
  rewrite (run_cons args flag g _ (goto At_fork entry)) by reflexivity.
  apply run_cons. unfold step. cbn [pc goto]. unfold on_fork.
  destruct (pid <? 0) eqn:E; [apply Z.ltb_lt in E; lia|].
  apply Z.ltb_lt in Hpid. rewrite Hpid. reflexivity.
Qed.

(** The escalation as the code runs it (the part of claim C2 that holds).
    Within one invocation the signals sent on failing
    waits are, in order, the entries of
    [SIGALRM, SIGALRM, SIGALRM, SIGALRM, SIGTERM, SIGKILL]: at every moment
    the signals sent so far are the first [signal_idx] entries, the index
    never exceeds six, and once it is six the function has returned.  The
    index never decreases, and a [fork] leaves it as it is: it is set to
    zero only at entry and carries over to a child spawned later.  Six
    failing waits (none with [ECHILD]) on the first child deliver exactly
    the schedule and the function then returns; [SIGKILL] is sent at most
    once in an invocation. *)
Theorem escalation_schedule :
  (forall script,
     let s := stress_oomable_child args flag g script in
     kills (trace s) = firstn (signal_idx s) signals /\
     (signal_idx s <= 6)%nat /\
     (signal_idx s = 6%nat -> pc s = Returned (rc s)))
  /\
  (forall s a s',
     step args flag g s a = Some s' -> (signal_idx s <= signal_idx s')%nat)
  /\
  (forall s pid errno s',
     step args flag g s (A_fork pid errno) = Some s' ->
     signal_idx s' = signal_idx s)
  /\
  (forall pid e0 errs,
     0 < pid -> List.length errs = 6%nat ->
     Forall (fun e => e <> ECHILD) errs ->
     let s :=
       stress_oomable_child args flag g
         (A_continue true :: A_time_up false :: A_fork pid e0
          :: map (fun e => A_waitpid (-1) 0 e) errs) in
     kills_to pid (trace s) = signals /\ pc s = Returned EXIT_SUCCESS)
  /\
  (SIGALRM <> SIGKILL -> SIGTERM <> SIGKILL ->
   forall script,
     (count_occ Z.eq_dec
        (kills (trace (stress_oomable_child args flag g script))) SIGKILL
      <= 1)%nat).
Proof.
  assert (Hinv : forall script,
            escalation_inv (stress_oomable_child args flag g script)).
  { intros script. apply run_inv, entry_inv. }
  split; [exact Hinv|]. split; [|split; [|split]].
  - intros s a s' H.
    destruct (step_escalation args flag g s s' a H)
      as [(Hi & _) | (p & r & st & e & _ & _ & _ & _ & Hi & _)]; lia.
  - intros s pid errno s' H.
    destruct (step_escalation args flag g s s' _ H)
      as [(Hi & _) | (p & r & st & e & _ & E & _)];
      [exact Hi|discriminate].
  - intros pid e0 errs Hpid Hlen Hall. cbv zeta.
    rewrite first_spawn by assumption.
    destruct (failing_waits args flag g errs
                (rewait args pid (emit [Ev_fork] entry)) pid eq_refl Hall)
      as (Hi & Hrc & Hk & _ & Hstop).
    { cbn [signal_idx rewait goto emit entry]. lia. }
    cbn [signal_idx rc trace rewait goto emit entry app kills_to skipn] in *.
    rewrite Hlen in *. split; [exact Hk|].
    apply Hstop; [exact Hi|]. intros ->. discriminate.
  - intros Ha Ht script. destruct (Hinv script) as (Hk & Hle & _).
    rewrite Hk.
    remember (signal_idx (stress_oomable_child args flag g script)) as n.
    clear Heqn Hk.
    do 7 (destruct n as [|n]; [cbn [firstn signals count_occ];
      repeat match goal with
             | |- context [Z.eq_dec ?a ?b] =>
                 destruct (Z.eq_dec a b); [congruence|]
             end;
      try destruct (Z.eq_dec SIGKILL SIGKILL); lia|]).
    lia.
Qed.

End EscalationClaim.

Lemma escalation_schedule_witness :
  (let s :=
     stress_oomable_child (P := linux) sample_args 0 0
       (A_continue true :: A_time_up false :: A_fork 100 0
        :: map (fun e => A_waitpid (-1) 0 e) [4; 4; 5; 5; 4; 4]) in
   kills_to 100 (trace s) = [14; 14; 14; 14; 15; 9] /\ pc s = Returned 0)
  /\
  (count_occ Z.eq_dec
     (kills (trace (stress_oomable_child (P := linux) sample_args 0 0
                      (respawn_script ++ five_failed_waits)))) 9%Z
   <= 1)%nat.
Proof.
  split.
  - apply (proj1 (proj2 (proj2 (proj2
             (escalation_schedule (P := linux) sample_args 0 0)))) 100 0
             [4; 4; 5; 5; 4; 4]).
    + lia.
    + reflexivity.
    + repeat constructor; discriminate.
  - apply (proj2 (proj2 (proj2 (proj2
             (escalation_schedule (P := linux) sample_args 0 0))))).
    + discriminate.
    + discriminate.
Defined.

(** The index is not set back to the start of the schedule when a new
    child is spawned.  After one failed wait on the
    first child, which then dies of [SIGSEGV], the second child (pid 101)
    is waited for with the index at 1, and five failing waits on it send
    only [SIGALRM] three times, [SIGTERM] and [SIGKILL] before the function
    gives up. *)
Lemma reset_on_spawn_counterexample :
  let s := stress_oomable_child (P := linux) sample_args 0 0 respawn_script in
  let s' := run (P := linux) sample_args 0 0 s five_failed_waits in
  pc s = At_waitpid 101 /\ signal_idx s = 1%nat /\
  kills_to 101 (trace s') = [14; 14; 14; 15; 9] /\
  kills_to 101 (trace s') <> signals (P := linux) /\
  pc s' = Returned 0.
Proof.
  cbv zeta. repeat split; try reflexivity. discriminate.
Qed.

(** Claim C2: the index is to start from the beginning of the schedule
    for every fresh spawn, and the comments in the code say the same (kill
    the child multiple times, start with [SIGALRM] and work up; first time
    round do a fast re-wait).  The code sets [signal_idx] only in its
    declaration.  After five failed waits on the first child, which then
    dies of [SIGSEGV], the second child (pid 101) is waited for with the
    index at 5: the first failed wait on it sends [SIGKILL] at once, with
    no [SIGALRM] or [SIGTERM] before it, and the function returns without
    waiting for that child again. *)
Lemma stale_index_first_kill :
  let s :=
    stress_oomable_child (P := linux) sample_args 0 0 stale_index_script in
  let s' := run (P := linux) sample_args 0 0 s [A_waitpid (-1) 0 4] in
  pc s = At_waitpid 101 /\ signal_idx s = 5%nat /\ segvs s = 1 /\
  kills_to 100 (trace s) = [14; 14; 14; 14; 15] /\
  kills_to 101 (trace s') = [9] /\
  kills_to 101 (trace s') <> firstn 1 (signals (P := linux)) /\
  pc s' = Returned 0 /\
  trace s' = trace s ++ [Ev_proc_state "vm" STRESS_STATE_RUN; Ev_kill 101 9;
                         Ev_dbg_restarts "vm" 0 1 0].
Proof.
  cbv zeta.
  repeat match goal with
         | |- _ /\ _ => split
         | |- _ = _ => vm_compute; reflexivity
         end.
  vm_compute. discriminate.
Qed.

(* ------------------------------------------------------------------ *)
(** *** The theorems at sample inputs *)

Lemma oom_kill_branch_witness :
  (let s' :=
     run (P := linux) sample_args 0 2 (waiting 2)
       [A_waitpid 100 9 0; A_continue true] in
   pc s' = Returned 0 /\ ooms s' = 0 /\ segvs s' = 0 /\ buserrs s' = 0 /\
   count_forks (trace s') = count_forks (trace (waiting 2)) /\
   In (Ev_clean_dir "vm" 4000 0) (trace s'))
  /\
  (exists s',
     run (P := linux) sample_args 0 0 (waiting 0)
       [A_waitpid 100 9 0; A_continue true]
     = run (P := linux) sample_args 0 0 s' [A_continue true] /\
     pc s' = At_again /\ ooms s' = 0 + 1 /\ segvs s' = 0 /\ buserrs s' = 0 /\
     rc s' = 0 /\ signal_idx s' = 0%nat /\
     count_forks (trace s') = count_forks (trace (waiting 0))).
Proof.
  split.
  - apply (proj1 (oom_kill_branch (P := linux) sample_args 0 2 (waiting 2)
                    100 100 9 0 [A_continue true]
                    eq_refl ltac:(discriminate) eq_refl eq_refl
                    ltac:(discriminate) ltac:(discriminate))).
    reflexivity.
  - apply (proj2 (oom_kill_branch (P := linux) sample_args 0 0 (waiting 0)
                    100 100 9 0 [A_continue true]
                    eq_refl ltac:(discriminate) eq_refl eq_refl
                    ltac:(discriminate) ltac:(discriminate))).
    reflexivity.
Defined.

Lemma fallback_iff_witness :
  touched oom_adj
    (stress_set_oom_adjustment (P := linux) (Some sample_args) true 0
       (as_root old_kernel)) = true
  <->
  fst (stress_set_adjustment (P := linux) (Some sample_args) oom_score_adj
         "1000" old_kernel) <> 0 /\
  fst (stress_set_adjustment (P := linux) (Some sample_args) oom_score_adj
         "1000" old_kernel) = -2.
Proof.
  apply (proj1 (fallback_iff (P := linux) (Some sample_args) true 0
                  (as_root old_kernel))).
  reflexivity.
Defined.

Lemma retry_bound_witness :
  (fst (stress_set_adjustment (P := linux) None oom_score_adj "1000"
          (always att_eagain)) = -1 /\
   count_writes (snd (stress_set_adjustment (P := linux) None oom_score_adj
                        "1000" (always att_eagain))) = 32%nat)
  /\
  (fst (stress_set_adjustment (P := linux) None oom_score_adj "1000"
          (after_two_eagain att_eacces)) = - 13 /\
   count_writes (snd (stress_set_adjustment (P := linux) None oom_score_adj
                        "1000" (after_two_eagain att_eacces))) = 3%nat)
  /\
  (fst (stress_set_adjustment (P := linux) None oom_score_adj "1000"
          (after_two_eagain att_ok)) = 0 /\
   count_writes (snd (stress_set_adjustment (P := linux) None oom_score_adj
                        "1000" (after_two_eagain att_ok))) = 3%nat).
Proof.
  split; [|split].
  - apply (proj1 (retry_bound (P := linux) None oom_score_adj "1000"
                    (always att_eagain))).
    intros i _. reflexivity.
  - apply (proj1 (proj2 (retry_bound (P := linux) None oom_score_adj "1000"
                           (after_two_eagain att_eacces)) 2%nat
                    ltac:(lia)
                    (fun j Hj => ltac:(destruct j as [|[|j]];
                                       [reflexivity|reflexivity|lia]))
                    ltac:(discriminate)));
      [reflexivity|discriminate|discriminate].
  - apply (proj2 (proj2 (retry_bound (P := linux) None oom_score_adj "1000"
                           (after_two_eagain att_ok)) 2%nat
                    ltac:(lia)
                    (fun j Hj => ltac:(destruct j as [|[|j]];
                                       [reflexivity|reflexivity|lia]))
                    ltac:(discriminate))).
    reflexivity.
Defined.

Lemma written_values_witness :
  In (Ev_write "/proc/self/oom_score_adj" "-1000")
     (stress_set_oom_adjustment (P := linux) (Some sample_args) false 0
        (as_root (always att_ok))).
Proof.
  apply (proj2 (written_values (P := linux) (Some sample_args) false 0
                  (as_root (always att_ok)) eq_refl)).
  discriminate.
Defined.

(** Claim C7 as stated fails for the main process: with a null [args] the
    OOMable option does not make the call killable, and as root the value
    written is the never-kill value "-1000", not "1000". *)
Lemma main_process_counterexample :
  bit_set 2 (OPT_FLAGS_NO_OOM_ADJUST (Platform := linux)) = false /\
  false || bit_set 2 (OPT_FLAGS_OOMABLE (Platform := linux)) = true /\
  stress_set_oom_adjustment (P := linux) None false 2 (as_root (always att_ok))
  = [Ev_open "/proc/self/oom_score_adj";
     Ev_write "/proc/self/oom_score_adj" "-1000";
     Ev_close "/proc/self/oom_score_adj"].
Proof. repeat split. Qed.

Lemma permuted_deaths :
  Permutation (map (fun d => WTERMSIG (Platform := linux) (snd d)) six_deaths)
    [7; 7; 7; 11; 11; 9].
Proof.
  change (Permutation [7; 11; 9; 7; 11; 7] [7; 7; 7; 11; 11; 9]).
  apply perm_skip.
  apply (perm_trans (l' := [7; 11; 9; 11; 7])); [|].
  - apply perm_trans with (l' := [11; 7; 9; 11; 7]).
    + apply perm_skip. apply perm_trans with (l' := [7; 9; 11; 7]).
      * apply perm_swap.
      * apply perm_skip. apply Permutation_refl.
    + apply perm_swap.
  - apply perm_skip.
    apply perm_trans with (l' := [11; 9; 7; 11]).
    + apply perm_skip. apply perm_skip. apply perm_swap.
    + apply perm_trans with (l' := [11; 7; 9; 11]).
      * apply perm_skip. apply perm_swap.
      * apply perm_trans with (l' := [7; 11; 9; 11]).
        { apply perm_swap. }
        apply perm_skip. apply perm_skip. apply perm_swap.
Defined.

Lemma counter_aggregation_witness :
  let s :=
    stress_oomable_child (P := linux) sample_args 0 0
      (flat_map (fun d => child_round (fst d) (snd d)) six_deaths
       ++ child_round 107 768) in
  pc s = Returned 3 /\ ooms s = 1 /\ segvs s = 2 /\ buserrs s = 3 /\
  count_forks (trace s) = 7%nat /\
  (not_quiet (P := linux) 0 = true ->
   exists tr, trace s = tr ++ [Ev_dbg_restarts "vm" 1 2 3]).
Proof.
  apply (counter_aggregation (P := linux) sample_args 0 0 six_deaths 107 768);
    try discriminate; try reflexivity.
  - repeat constructor.
  - exact permuted_deaths.
Defined.

Lemma fork_failure_witness :
  (exists s',
     run (P := linux) sample_args 0 0 at_fork_state
       [A_fork (-1) 11; A_continue false]
     = run (P := linux) sample_args 0 0 s' [A_continue false] /\
     pc s' = At_again /\
     trace s' = [] ++ [Ev_fork; Ev_usleep 100000] /\
     ooms s' = 0 /\ segvs s' = 0 /\ buserrs s' = 0 /\
     rc s' = 0 /\ signal_idx s' = 0%nat)
  /\
  (let s' :=
     run (P := linux) sample_args 0 0 at_fork_state
       [A_fork (-1) 13; A_continue true] in
   pc s' = Returned (-1) /\
   trace s' = [] ++ [Ev_fork; Ev_err_fork_failed "vm" 13] /\
   count_forks (trace s') = 1%nat).
Proof.
  split.
  - apply (proj1 (fork_failure (P := linux) sample_args 0 0 at_fork_state
                    (-1) 11 [A_continue false] eq_refl eq_refl)).
    left. reflexivity.
  - apply (proj2 (fork_failure (P := linux) sample_args 0 0 at_fork_state
                    (-1) 13 [A_continue true] eq_refl eq_refl));
      discriminate.
Defined.

Lemma zero_write_exhaustion_witness :
  (fst (stress_set_adjustment (P := linux) (Some sample_args) oom_score_adj
          "1000" (always att_zero)) = -1 /\
   count_writes (snd (stress_set_adjustment (P := linux) (Some sample_args)
                        oom_score_adj "1000" (always att_zero))) = 32%nat)
  /\
  (-1 <> - 2 /\
   touched oom_adj
     (stress_set_oom_adjustment (P := linux) (Some sample_args) true 0
        (as_user (always att_zero))) = false)
  /\
  (fst (stress_set_adjustment (P := linux) (Some sample_args) oom_score_adj
          "1000" (after_two_eagain att_noent)) = - 2 /\
   count_opens (snd (stress_set_adjustment (P := linux) (Some sample_args)
                       oom_score_adj "1000" (after_two_eagain att_noent)))
   = 3%nat /\
   count_writes (snd (stress_set_adjustment (P := linux) (Some sample_args)
                        oom_score_adj "1000" (after_two_eagain att_noent)))
   = 2%nat)
  /\
  stress_set_adjustment (P := linux) (Some sample_args) oom_score_adj "1000"
    (always att_noent)
  = (- 2, [Ev_open oom_score_adj]).
Proof.
  split; [|split; [|split]].
  - apply (proj1 (zero_write_exhaustion (P := linux) (Some sample_args)
                    oom_score_adj "1000" (always att_zero))).
    intros i _. reflexivity.
  - destruct (proj1 (proj2 (zero_write_exhaustion (P := linux)
                              (Some sample_args) oom_score_adj "1000"
                              (always att_zero)))
                ltac:(discriminate)) as [Hne Hno].
    split; [exact Hne|]. apply Hno. intros i _. reflexivity.
  - apply (proj1 (proj2 (proj2 (zero_write_exhaustion (P := linux)
                                  (Some sample_args) oom_score_adj "1000"
                                  (after_two_eagain att_noent)))) 2%nat
                    ltac:(lia)
                    (fun j Hj => ltac:(destruct j as [|[|j]];
                                       [reflexivity|reflexivity|lia]))).
    reflexivity.
  - apply (proj2 (proj2 (proj2 (zero_write_exhaustion (P := linux)
                                  (Some sample_args) oom_score_adj "1000"
                                  (always att_noent))))).
    reflexivity.
Defined.

(* ================================================================== *)
(** * Further properties of the supervisor *)

Lemma count_app (f : event -> bool) (t1 t2 : list event) :
  count f (t1 ++ t2) = (count f t1 + count f t2)%nat.
Proof. unfold count. rewrite filter_app, length_app. reflexivity. Qed.

Ltac branches :=
  repeat match goal with
         | |- context [if ?c then _ else _] => destruct c eqn:?
         end.

Ltac nat_tests :=
  repeat match goal with
         | H : (_ <=? _)%nat = true |- _ => apply Nat.leb_le in H
         | H : (_ <=? _)%nat = false |- _ => apply Nat.leb_gt in H
         | H : (_ <? _)%nat = true |- _ => apply Nat.ltb_lt in H
         | H : (_ <? _)%nat = false |- _ => apply Nat.ltb_ge in H
         end.

Section WaitFacts.
Context {P : Platform}.
Variable args : stress_args_t.
Variables flag g : Z.

(** A wait that fails with [ECHILD] ends the function at once: no signal
    is sent, the index and the counters stay, and the value returned is
    the current [rc]. *)
Theorem wait_echild (s : state) (pid ret status : Z) (rest : list answer) :
  pc s = At_waitpid pid -> ret < 0 ->
  let s' := run args flag g s (A_waitpid ret status ECHILD :: rest) in
  pc s' = Returned (rc s) /\
  kills (trace s') = kills (trace s) /\
  signal_idx s' = signal_idx s /\
  ooms s' = ooms s /\ segvs s' = segvs s /\ buserrs s' = buserrs s /\
  count_forks (trace s') = count_forks (trace s).
Proof.
  intros Hpc Hret. cbv zeta.
  rewrite (run_cons args flag g _ _ _ _ (step_waitpid args flag g s pid ret status ECHILD Hpc)).
  unfold on_waitpid, on_wait_failed. apply Z.ltb_lt in Hret.
  rewrite Hret, Z.eqb_refl.
  rewrite (run_returned args flag g _ (rc s)).
  - unfold report, emit_if. branches; fields;
      rewrite ?kills_app, ?count_forks_app; cbn; rewrite ?app_nil_r;
      repeat split; lia.
  - unfold report, emit_if. branches; reflexivity.
Qed.

(** The events of a failing wait other than [ECHILD], before the schedule
    is used up. *)
Lemma wait_failed_trace (s : state) (pid ret status errno : Z) :
  pc s = At_waitpid pid -> ret < 0 -> errno <> ECHILD ->
  (signal_idx s < 6)%nat ->
  exists s',
    step args flag g s (A_waitpid ret status errno) = Some s' /\
    signal_idx s' = S (signal_idx s) /\
    exists tail,
      trace s' =
        trace s
        ++ Ev_proc_state (args_name args) STRESS_STATE_RUN
        :: (if negb (errno =? EINTR) && not_quiet flag
            then [Ev_dbg_waitpid (args_name args) errno] else [])
        ++ Ev_kill pid (nth (signal_idx s) signals 0)
        :: (if (1 <=? signal_idx s)%nat && (signal_idx s <? 5)%nat
            then [Ev_usleep 500000] else [])
        ++ tail /\
      count is_backoff tail = 0%nat /\ count is_dbg_waitpid tail = 0%nat /\
      kills tail = [].
Proof.
  intros Hpc Hret Hch Hlt. eexists. split; [apply step_waitpid, Hpc|].
  unfold on_waitpid, on_wait_failed.
  apply Z.ltb_lt in Hret. apply Z.eqb_neq in Hch. rewrite Hret, Hch.
  change (List.length signals) with 6%nat.
  unfold report, rewait, emit_if.
  destruct (negb (errno =? EINTR) && not_quiet flag);
    destruct (1 <=? signal_idx s)%nat eqn:H1;
    destruct (signal_idx s <? 5)%nat eqn:H5;
    cbn [andb]; fields; branches; fields; nat_tests;
    (split; [reflexivity|]);
    repeat rewrite <- app_assoc; cbn [app];
    try lia;
    eexists; (split; [reflexivity|]); repeat split.
Qed.

(** Every failing wait other than [ECHILD], [EINTR] included, sends the
    signal at the index to the child and moves the index on by one; the
    debug line is printed unless the error is [EINTR] or the call is
    quiet. *)
Theorem wait_failure_escalates (s : state) (pid ret status errno : Z) :
  pc s = At_waitpid pid -> ret < 0 -> errno <> ECHILD ->
  (signal_idx s < 6)%nat ->
  exists s',
    step args flag g s (A_waitpid ret status errno) = Some s' /\
    signal_idx s' = S (signal_idx s) /\
    kills (trace s') = kills (trace s) ++ [nth (signal_idx s) signals 0] /\
    kills_to pid (trace s')
      = kills_to pid (trace s) ++ [nth (signal_idx s) signals 0] /\
    count is_dbg_waitpid (trace s')
      = (count is_dbg_waitpid (trace s)
         + (if negb (errno =? EINTR)%Z && not_quiet flag then 1 else 0))%nat.
Proof.
  intros Hpc Hret Hch Hlt.
  destruct (wait_failed_trace s pid ret status errno Hpc Hret Hch Hlt)
    as (s' & Hstep & Hi & tail & Htr & _ & Hd & Hk).
  exists s'. split; [exact Hstep|]. split; [exact Hi|]. rewrite Htr.
  rewrite kills_app, kills_to_app, count_app.
  cbn [kills kills_to]. rewrite kills_app, kills_to_app.
  cbn [kills kills_to]. rewrite Z.eqb_refl, kills_app, kills_to_app, Hk,
    (kills_to_none _ _ Hk).
  destruct (negb (errno =? EINTR) && not_quiet flag);
    destruct ((1 <=? signal_idx s)%nat && (signal_idx s <? 5)%nat);
    cbn [kills kills_to app]; repeat split;
    unfold count in *; cbn [filter is_dbg_waitpid List.length app];
    rewrite ?filter_app, ?length_app; cbn [filter is_dbg_waitpid List.length];
    rewrite ?Hd; lia.
Qed.

(** The back-off: after a failing wait the supervisor sleeps half a second
    before waiting again, except after the first signal of the schedule,
    where it waits again at once, and after the last one, where it gives
    up. *)
Theorem wait_failure_backoff (s : state) (pid ret status errno : Z) :
  pc s = At_waitpid pid -> ret < 0 -> errno <> ECHILD ->
  (signal_idx s < 6)%nat ->
  exists s',
    step args flag g s (A_waitpid ret status errno) = Some s' /\
    count is_backoff (trace s')
      = (count is_backoff (trace s)
         + (if (1 <=? signal_idx s)%nat && (signal_idx s <? 5)%nat
            then 1 else 0))%nat /\
    (signal_idx s = 0%nat ->
     pc s' = At_waitpid pid /\
     count is_backoff (trace s') = count is_backoff (trace s)) /\
    (signal_idx s = 5%nat ->
     pc s' = Returned (rc s) /\
     count is_backoff (trace s') = count is_backoff (trace s)).
Proof.
  intros Hpc Hret Hch Hlt.
  destruct (wait_failed_trace s pid ret status errno Hpc Hret Hch Hlt)
    as (s' & Hstep & Hi & tail & Htr & Hb & _ & _).
  destruct (wait_failed_step args flag g s pid ret status errno Hpc Hret Hch Hlt)
    as (s2 & Hstep2 & _ & _ & _ & _ & _ & _ & Hgo & Hstop).
  assert (s2 = s') by congruence. subst s2.
  exists s'. split; [exact Hstep|].
  assert (Hcount :
    count is_backoff (trace s')
    = (count is_backoff (trace s)
       + (if (1 <=? signal_idx s)%nat && (signal_idx s <? 5)%nat
          then 1 else 0))%nat).
  { rewrite Htr. rewrite count_app.
    destruct (negb (errno =? EINTR) && not_quiet flag);
      destruct ((1 <=? signal_idx s)%nat && (signal_idx s <? 5)%nat);
      unfold count in *; cbn [filter is_backoff List.length app];
      rewrite ?filter_app, ?length_app; cbn [filter is_backoff List.length];
      rewrite ?Hb; lia. }
  split; [exact Hcount|]. split.
  - intros E. split; [apply Hgo; lia|]. rewrite Hcount, E. cbn. lia.
  - intros E. split; [apply Hstop, E|]. rewrite Hcount, E. cbn. lia.
Qed.

End WaitFacts.

Section DeathFacts.
Context {P : Platform}.
Variable args : stress_args_t.
Variables flag g : Z.

Lemma signaled_step (s : state) (pid ret status errno : Z) :
  pc s = At_waitpid pid -> 0 <= ret -> WIFSIGNALED status = true ->
  step args flag g s (A_waitpid ret status errno)
  = Some (on_signaled args flag g status s).
Proof.
  intros Hpc Hret Hsig. rewrite (step_waitpid args flag g s pid ret status errno Hpc).
  unfold on_waitpid. rewrite Hsig.
  destruct (ret <? 0) eqn:E; [apply Z.ltb_lt in E; lia|reflexivity].
Qed.

(** A child killed by [SIGBUS] is restarted whatever the options and the
    escalation index are: the bus-error counter grows by one and control
    is back at [again:].  The same holds for [SIGSEGV] and the segfault
    counter, [SIGSEGV] being neither [SIGBUS] nor [SIGKILL]. *)
Theorem bus_segv_restart (s : state) (pid ret status errno : Z)
    (rest : list answer) :
  pc s = At_waitpid pid -> 0 <= ret -> WIFSIGNALED status = true ->
  (WTERMSIG status = SIGBUS ->
   exists s',
     run args flag g s (A_waitpid ret status errno :: rest)
       = run args flag g s' rest /\
     pc s' = At_again /\ buserrs s' = buserrs s + 1 /\
     ooms s' = ooms s /\ segvs s' = segvs s /\ rc s' = rc s /\
     signal_idx s' = signal_idx s /\ kills (trace s') = kills (trace s))
  /\
  (WTERMSIG status = SIGSEGV -> SIGSEGV <> SIGBUS -> SIGSEGV <> SIGKILL ->
   exists s',
     run args flag g s (A_waitpid ret status errno :: rest)
       = run args flag g s' rest /\
     pc s' = At_again /\ segvs s' = segvs s + 1 /\
     ooms s' = ooms s /\ buserrs s' = buserrs s /\ rc s' = rc s /\
     signal_idx s' = signal_idx s /\ kills (trace s') = kills (trace s)).
Proof.
  intros Hpc Hret Hsig.
  pose proof (signaled_step s pid ret status errno Hpc Hret Hsig) as Hstep.
  split.
  - intros Hterm. eexists. split; [apply run_cons, Hstep|].
    unfold on_signaled. rewrite Hterm, Z.eqb_refl.
    unfold emit_if. destruct (not_quiet flag); fields;
      rewrite ?kills_app; cbn [kills]; rewrite ?app_nil_r; repeat split.
  - intros Hterm Hsb Hsk. eexists. split; [apply run_cons, Hstep|].
    unfold on_signaled. rewrite Hterm.
    apply Z.eqb_neq in Hsb, Hsk. rewrite Hsb, Hsk, andb_false_r, Z.eqb_refl.
    unfold emit_if. destruct (not_quiet flag); fields;
      rewrite ?kills_app; cbn [kills]; rewrite ?app_nil_r; repeat split.
Qed.

(** A child killed by any other signal ends the function: nothing is
    counted or restarted, and the value returned is [WEXITSTATUS] of the
    status word.  This is also what happens to a child killed by
    [SIGKILL] once the schedule entry at the index is [SIGKILL] itself. *)
Theorem other_signal_ends (s : state) (pid ret status errno : Z)
    (rest : list answer) :
  pc s = At_waitpid pid -> 0 <= ret -> WIFSIGNALED status = true ->
  WTERMSIG status <> SIGBUS -> WTERMSIG status <> SIGSEGV ->
  WTERMSIG status <> SIGKILL \/ nth (signal_idx s) signals 0 = SIGKILL ->
  let s' := run args flag g s (A_waitpid ret status errno :: rest) in
  pc s' = Returned (WEXITSTATUS status) /\
  ooms s' = ooms s /\ segvs s' = segvs s /\ buserrs s' = buserrs s /\
  count_forks (trace s') = count_forks (trace s) /\
  kills (trace s') = kills (trace s).
Proof.
  intros Hpc Hret Hsig Hb Hs Hk. cbv zeta.
  rewrite (run_cons args flag g _ _ _ _
             (signaled_step s pid ret status errno Hpc Hret Hsig)).
  unfold on_signaled. apply Z.eqb_neq in Hb, Hs. rewrite Hb, Hs.
  assert (Hcond : negb (nth (signal_idx s) signals 0 =? SIGKILL)
                  && (WTERMSIG status =? SIGKILL) = false).
  { destruct Hk as [Hk|Hk].
    - apply Z.eqb_neq in Hk. rewrite Hk. apply andb_false_r.
    - rewrite Hk, Z.eqb_refl. reflexivity. }
  unfold emit_if. destruct (not_quiet flag); fields; rewrite Hcond;
    (rewrite (run_returned args flag g _ (WEXITSTATUS status));
     [|unfold report, emit_if; branches; reflexivity]);
    unfold report, emit_if; branches; fields;
    rewrite ?kills_app, ?count_forks_app; cbn; rewrite ?app_nil_r;
    repeat split; lia.
Qed.

(** A child that was not signaled ends the function with its exit
    status. *)
Theorem normal_exit_ends (s : state) (pid ret status errno : Z)
    (rest : list answer) :
  pc s = At_waitpid pid -> 0 <= ret -> WIFSIGNALED status = false ->
  let s' := run args flag g s (A_waitpid ret status errno :: rest) in
  pc s' = Returned (WEXITSTATUS status) /\
  ooms s' = ooms s /\ segvs s' = segvs s /\ buserrs s' = buserrs s /\
  count_forks (trace s') = count_forks (trace s) /\
  kills (trace s') = kills (trace s).
Proof.
  intros Hpc Hret Hsig. cbv zeta.
  rewrite (run_cons args flag g _ _ _ _
             (step_waitpid args flag g s pid ret status errno Hpc)).
  unfold on_waitpid. rewrite Hsig.
  destruct (ret <? 0) eqn:E; [apply Z.ltb_lt in E; lia|].
  rewrite (run_returned args flag g _ (WEXITSTATUS status));
    [|unfold report, emit_if; branches; reflexivity].
  unfold report, emit_if; branches; fields;
    rewrite ?kills_app, ?count_forks_app; cbn; rewrite ?app_nil_r;
    repeat split; lia.
Qed.

End DeathFacts.

(* ================================================================== *)
(** * Invariants of whole runs *)

Section RunInvariants.
Context {P : Platform}.
Variable args : stress_args_t.
Variables flag g : Z.

Lemma run_preserves (I : state -> Prop) :
  (forall s a s', I s -> step args flag g s a = Some s' -> I s') ->
  forall script s, I s -> I (run args flag g s script).
Proof.
  intros Hstep script. induction script as [|a rest IH]; intros s H;
    cbn [run]; [assumption|].
  destruct (step args flag g s a) as [s'|] eqn:E; [|assumption].
  apply IH. exact (Hstep s a s' H E).
Qed.

Lemma adjust_loop_events (a : option stress_args_t) (p str : string)
    (fs : string -> nat -> attempt) (rem : nat) : forall (i : nat) (saved : Z),
  forallb is_adjust_event (snd (set_adjustment_loop a p str fs rem i saved))
  = true.
Proof.
  assert (Hd : forall e, forallb is_adjust_event (dbg_cant_set a e) = true).
  { intros e. unfold dbg_cant_set. destruct (reporting a); reflexivity. }
  induction rem as [|rem IH]; intros i saved; cbn [set_adjustment_loop].
  - apply Hd.
  - destruct (open_ret (fs p i) <? 0); [reflexivity|].
    destruct (0 <? write_ret (fs p i)); [reflexivity|].
    destruct ((write_ret (fs p i) <? 0) && negb (write_errno (fs p i) =? EAGAIN)
              && negb (write_errno (fs p i) =? EINTR)).
    { cbn [snd]. rewrite forallb_app, Hd. reflexivity. }
    specialize (IH (S i) (write_errno (fs p i))).
    destruct (set_adjustment_loop a p str fs rem (S i) (write_errno (fs p i))).
    cbn [snd] in *. rewrite forallb_app, IH. reflexivity.
Qed.

Lemma adjustment_events (a : option stress_args_t) (killable : bool)
    (os : system) :
  forallb is_adjust_event (stress_set_oom_adjustment a killable g os) = true.
Proof.
  unfold stress_set_oom_adjustment.
  destruct (bit_set g OPT_FLAGS_NO_OOM_ADJUST); [reflexivity|].
  pose proof (adjust_loop_events a oom_score_adj
                (score_adj_str (make_killable a killable g) (high_priv os))
                (files os) 32 0 0) as Hm.
  fold (stress_set_adjustment a oom_score_adj
          (score_adj_str (make_killable a killable g) (high_priv os)) (files os))
    in Hm.
  destruct (stress_set_adjustment a oom_score_adj
              (score_adj_str (make_killable a killable g) (high_priv os))
              (files os)) as [ret tr].
  cbn [snd] in Hm.
  destruct ((ret =? 0) || negb (ret =? - ENOENT)); [assumption|].
  rewrite forallb_app, Hm. apply adjust_loop_events.
Qed.

(** A test that no adjuster event passes counts none of them. *)
Lemma count_adjust_events (f : event -> bool) (tr : list event) :
  (forall e, is_adjust_event e = true -> f e = false) ->
  forallb is_adjust_event tr = true -> count f tr = 0%nat.
Proof.
  intros Hf. induction tr as [|e tr IH]; [reflexivity|].
  cbn [forallb]. intros H. apply andb_true_iff in H as [He Htr].
  unfold count in *. cbn [filter]. rewrite (Hf e He). auto.
Qed.

End RunInvariants.

Section ReturnedValues.
Context {P : Platform}.
Variable args : stress_args_t.
Variables flag g : Z.

Lemma rc_step (s s' : state) (a : answer) :
  (running (pc s) = true -> rc s = EXIT_SUCCESS) ->
  step args flag g s a = Some s' ->
  (running (pc s') = true -> rc s' = EXIT_SUCCESS) /\
  (forall v, pc s' = Returned v ->
     v = EXIT_SUCCESS \/ v = -1 \/
     exists ret status errno,
       a = A_waitpid ret status errno /\ 0 <= ret /\ v = WEXITSTATUS status).
Proof.
  intros Hinv H. unfold step in H.
  destruct (pc s) eqn:Hpc; destruct a; try discriminate;
    injection H as <-; specialize (Hinv eq_refl);
    unfold on_fork, on_waitpid, on_wait_failed, on_signaled, report, rewait,
      child_exit, emit_if;
    branches; fields;
    (split;
     [ intros Hrun; first [discriminate Hrun | assumption]
     | intros v Hv;
       first
         [ discriminate Hv
         | injection Hv as <-;
           first
             [ left; first [reflexivity | assumption]
             | right; left; reflexivity
             | right; right; do 3 eexists;
               split; [reflexivity|];
               split; [|reflexivity];
               match goal with
               | E : (?r <? 0) = false |- 0 <= ?r =>
                   apply Z.ltb_ge in E; exact E
               end ] ] ]).
Qed.

Lemma reaped_later (a : answer) (rest : list answer) (st : Z) :
  In st (reaped rest) -> In st (reaped (a :: rest)).
Proof.
  intros H. destruct a; cbn [reaped]; try assumption.
  destruct (0 <=? ret); [right|]; assumption.
Qed.

Lemma rc_run (script : list answer) : forall s,
  (running (pc s) = true -> rc s = EXIT_SUCCESS) ->
  (running (pc (run args flag g s script)) = true ->
   rc (run args flag g s script) = EXIT_SUCCESS) /\
  (forall v, pc (run args flag g s script) = Returned v ->
     pc s = Returned v \/ v = EXIT_SUCCESS \/ v = -1 \/
     exists st, In st (reaped script) /\ v = WEXITSTATUS st).
Proof.
  induction script as [|a rest IH]; intros s Hinv; cbn [run].
  - split; [assumption|]. intros v Hv. left. exact Hv.
  - destruct (step args flag g s a) as [s'|] eqn:E.
    + destruct (rc_step s s' a Hinv E) as [Hinv' Hret].
      destruct (IH s' Hinv') as [Hrc Hv]. split; [exact Hrc|].
      intros v Hfin. right.
      destruct (Hv v Hfin) as [Hs'|[?|[?|(st & Hin & ->)]]]; auto.
      * destruct (Hret v Hs') as [?|[?|(ret & status & errno & -> & Hr & ->)]];
          auto.
        right. right. exists status. split; [|reflexivity].
        cbn [reaped]. apply Z.leb_le in Hr. rewrite Hr. left. reflexivity.
      * right. right. exists st. split; [|reflexivity].
        apply reaped_later, Hin.
    + split; [assumption|]. intros v Hv. left. exact Hv.
Qed.

(** The value [stress_oomable_child] returns is [EXIT_SUCCESS], or [-1]
    (a [fork] that failed for good), or [WEXITSTATUS] of the status word of
    a child that was reaped; until it returns, [rc] is [EXIT_SUCCESS].  So
    when the wait fails with [ECHILD], or the schedule of signals is used
    up on a child that cannot be reaped, the value returned is
    [EXIT_SUCCESS]. *)
Theorem returned_values (script : list answer) :
  (forall v,
     pc (stress_oomable_child args flag g script) = Returned v ->
     v = EXIT_SUCCESS \/ v = -1 \/
     exists st, In st (reaped script) /\ v = WEXITSTATUS st)
  /\
  (running (pc (stress_oomable_child args flag g script)) = true ->
   rc (stress_oomable_child args flag g script) = EXIT_SUCCESS)
  /\
  (forall pid ret status errno v,
     pc (stress_oomable_child args flag g script) = At_waitpid pid ->
     ret < 0 ->
     pc (run args flag g (stress_oomable_child args flag g script)
           [A_waitpid ret status errno]) = Returned v ->
     v = EXIT_SUCCESS).
Proof.
  destruct (rc_run script entry (fun _ => eq_refl)) as [Hrc Hv].
  fold (stress_oomable_child args flag g script) in Hrc, Hv.
  split; [|split; [exact Hrc|]].
  - intros v H. destruct (Hv v H) as [Habs|?]; [discriminate Habs|assumption].
  - intros pid ret status errno v Hpc Hret Hfin.
    specialize (Hrc ltac:(rewrite Hpc; reflexivity)).
    rewrite (run_cons args flag g _ _ _ _
               (step_waitpid args flag g _ pid ret status errno Hpc)) in Hfin.
    cbn [run] in Hfin. revert Hfin.
    unfold on_waitpid, on_wait_failed. apply Z.ltb_lt in Hret. rewrite Hret.
    unfold report, rewait, emit_if. branches; fields; intros Hfin;
      first [discriminate Hfin | injection Hfin as <-; assumption].
Qed.

End ReturnedValues.

Section ChildAndParent.
Context {P : Platform}.
Variable args : stress_args_t.
Variables flag g : Z.

Lemma child_step (s s' : state) (a : answer) :
  in_child (pc s) = true -> step args flag g s a = Some s' ->
  in_child (pc s') = true.
Proof.
  intros Hc H. unfold step in H.
  destruct (pc s) eqn:Hpc; try discriminate Hc; destruct a; try discriminate;
    injection H as <-; unfold child_exit, emit_if; branches; reflexivity.
Qed.

(** The forked child never comes back into the caller: once [fork] has
    returned 0, whatever the environment answers, control stays in the
    child's part of the function and ends, if at all, in [_exit]; the
    function never returns there. *)
Theorem child_never_returns (s : state) (errno : Z) (rest : list answer) :
  pc s = At_fork ->
  in_child (pc (run args flag g s (A_fork 0 errno :: rest))) = true /\
  forall v, pc (run args flag g s (A_fork 0 errno :: rest)) <> Returned v.
Proof.
  intros Hpc.
  assert (Hstep : step args flag g s (A_fork 0 errno)
                  = Some (goto Child_continue (emit [Ev_fork] s))).
  { unfold step. rewrite Hpc. reflexivity. }
  rewrite (run_cons args flag g _ _ _ _ Hstep).
  assert (H : in_child (pc (run args flag g
                              (goto Child_continue (emit [Ev_fork] s)) rest))
              = true).
  { apply (run_preserves args flag g (fun s => in_child (pc s) = true)).
    - intros s0 a s' H0 H1. exact (child_step s0 s' a H0 H1).
    - reflexivity. }
  split; [exact H|]. intros v Hv. rewrite Hv in H. discriminate.
Qed.

(** The child's way through its part of the function when nothing stops
    it: it exits with the value of [func], unless [pr_fail_check] leaves
    [rc] different from [EXIT_SUCCESS], which then is the exit status.  If
    the run is over at either check, it exits with [EXIT_SUCCESS] without
    calling [func]. *)
Theorem child_exit_status (s : state) (os : system) (ret rc' : Z) :
  pc s = Child_continue ->
  pc (run args flag g s
        [A_continue true; A_system os; A_continue true; A_time_up false;
         A_func ret; A_fail_check rc'])
    = Exited (if rc' =? EXIT_SUCCESS then ret else rc')
  /\ pc (run args flag g s [A_continue false]) = Exited EXIT_SUCCESS
  /\ pc (run args flag g s [A_continue true; A_system os; A_continue false])
     = Exited EXIT_SUCCESS
  /\ pc (run args flag g s
           [A_continue true; A_system os; A_continue true; A_time_up true])
     = Exited EXIT_SUCCESS.
Proof.
  intros Hpc.
  assert (E1 : step args flag g s (A_continue true)
               = Some (goto Child_adjust (emit [Ev_parent_died_alarm] s))).
  { unfold step. rewrite Hpc. reflexivity. }
  assert (E0 : step args flag g s (A_continue false)
               = Some (child_exit args EXIT_SUCCESS s)).
  { unfold step. rewrite Hpc. reflexivity. }
  rewrite !(run_cons args flag g _ _ _ _ E1), (run_cons args flag g _ _ _ _ E0).
  cbn [run step pc goto emit].
  destruct (bit_set flag STRESS_OOMABLE_DROP_CAP);
    cbn [run step pc goto emit emit_if child_exit set_rc rc negb];
    destruct (rc' =? EXIT_SUCCESS); cbn [negb]; auto.
Qed.

Lemma adjust_kill_first (os : system) :
  Forall kill_first_write
    (stress_set_oom_adjustment (Some args) true g os).
Proof.
  apply Forall_forall. intros e He. destruct e; try exact I.
  cbn [kill_first_write]. revert He. unfold stress_set_oom_adjustment.
  destruct (bit_set g OPT_FLAGS_NO_OOM_ADJUST); [intros []|].
  assert (Hmk : make_killable (Some args) true g = true).
  { unfold make_killable. destruct (_ && _); reflexivity. }
  rewrite Hmk. cbn [score_adj_str adj_str].
  pose proof (loop_writes (Some args) oom_score_adj OOM_SCORE_ADJ_MAX
                (files os) 32 0 0 path str) as Hm.
  pose proof (loop_writes (Some args) oom_adj OOM_ADJ_MAX
                (files os) 32 0 0 path str) as Ho.
  fold (stress_set_adjustment (Some args) oom_score_adj OOM_SCORE_ADJ_MAX
          (files os)) in Hm.
  fold (stress_set_adjustment (Some args) oom_adj OOM_ADJ_MAX (files os)) in Ho.
  destruct (stress_set_adjustment (Some args) oom_score_adj OOM_SCORE_ADJ_MAX
              (files os)) as [r tr].
  cbn [snd] in Hm.
  destruct ((r =? 0) || negb (r =? - ENOENT)).
  - intros H. left. apply Hm, H.
  - intros H. apply in_app_or in H as [H|H]; [left; apply Hm, H|].
    right. apply Ho, H.
Qed.

Lemma kill_first_step (s s' : state) (a : answer) :
  Forall kill_first_write (trace s) -> step args flag g s a = Some s' ->
  Forall kill_first_write (trace s').
Proof.
  intros Hinv H. unfold step in H.
  destruct (pc s) eqn:Hpc; destruct a; try discriminate;
    injection H as <-;
    unfold on_fork, on_waitpid, on_wait_failed, on_signaled, report, rewait,
      child_exit, emit_if;
    branches; fields;
    repeat (apply Forall_app; split);
    first [assumption | apply adjust_kill_first | repeat constructor].
Qed.

(** The supervisor never protects anything from the OOM killer: every
    value written to an OOM file in the course of a run, by the forked
    child, is the kill-first value, "1000" on the modern file and "15" on
    the old one, whatever the privilege of the process. *)
Theorem only_kill_first_is_written (script : list answer) (path str : string) :
  In (Ev_write path str) (trace (stress_oomable_child args flag g script)) ->
  (path = "/proc/self/oom_score_adj"%string /\ str = "1000"%string)
  \/ (path = "/proc/self/oom_adj"%string /\ str = "15"%string).
Proof.
  intros H.
  assert (Hall : Forall kill_first_write
                   (trace (stress_oomable_child args flag g script))).
  { apply (run_preserves args flag g
             (fun s => Forall kill_first_write (trace s))).
    - intros s a s'. apply kill_first_step.
    - constructor. }
  rewrite Forall_forall in Hall. exact (Hall _ H).
Qed.

Lemma quiet_step (s s' : state) (a : answer) :
  bit_set flag STRESS_OOMABLE_QUIET = true ->
  count is_message (trace s) = 0%nat -> step args flag g s a = Some s' ->
  count is_message (trace s') = 0%nat.
Proof.
  intros Hq Hinv H.
  assert (Hnq : not_quiet flag = false) by (unfold not_quiet; rewrite Hq; reflexivity).
  assert (Hadj : forall os,
            count is_message (stress_set_oom_adjustment (Some args) true g os)
            = 0%nat).
  { intros os. apply count_adjust_events; [|apply adjustment_events].
    intros e He. destruct e; try discriminate He; reflexivity. }
  unfold step in H.
  destruct (pc s) eqn:Hpc; destruct a; try discriminate;
    injection H as <-;
    unfold on_fork, on_waitpid, on_wait_failed, on_signaled, report, rewait,
      child_exit; rewrite ?Hnq, ?andb_false_r; unfold emit_if;
    branches; fields; rewrite ?count_app, ?Hinv, ?Hadj; reflexivity.
Qed.

(** With [STRESS_OOMABLE_QUIET] the supervisor prints none of its own
    messages, whatever happens: not the failed fork, not the deaths and
    restarts, not the final counts. *)
Theorem quiet_is_silent (script : list answer) :
  bit_set flag STRESS_OOMABLE_QUIET = true ->
  count is_message (trace (stress_oomable_child args flag g script)) = 0%nat.
Proof.
  intros Hq.
  apply (run_preserves args flag g (fun s => count is_message (trace s) = 0%nat)).
  - intros s a s'. apply quiet_step, Hq.
  - reflexivity.
Qed.

Lemma counters_step (s s' : state) (a : answer) :
  counters_inv g s -> step args flag g s a = Some s' -> counters_inv g s'.
Proof.
  intros (Ho & Hs & Hb & Hsum & Hoom) H.
  assert (Hadj : forall os,
            count_forks (stress_set_oom_adjustment (Some args) true g os)
            = 0%nat).
  { intros os. apply (count_adjust_events is_fork); [|apply adjustment_events].
    intros e He. destruct e; try discriminate He; reflexivity. }
  unfold step in H. unfold counters_inv.
  destruct (pc s) eqn:Hpc; destruct a; try discriminate;
    injection H as <-;
    unfold on_fork, on_waitpid, on_wait_failed, on_signaled, report, rewait,
      child_exit, emit_if;
    branches; fields; rewrite ?count_forks_app, ?Hadj;
    cbn [count_forks filter is_fork List.length];
    repeat split; try lia; try (intros; congruence);
    try (intros Hg; specialize (Hoom Hg); lia).
Qed.

(** The restart counters never go below zero, and every restart counted
    stands for a child that was forked and is gone: the three counters
    together never exceed the number of forks made, and stay below it
    while a child is waited for.  With the OOMable option the OOM counter
    stays zero. *)
Theorem restart_counters (script : list answer) :
  let s := stress_oomable_child args flag g script in
  0 <= ooms s /\ 0 <= segvs s /\ 0 <= buserrs s /\
  ooms s + segvs s + buserrs s
  + (match pc s with At_waitpid _ => 1 | _ => 0 end)
  <= Z.of_nat (count_forks (trace s)) /\
  (bit_set g OPT_FLAGS_OOMABLE = true -> ooms s = 0).
Proof.
  apply (run_preserves args flag g (counters_inv g)).
  - intros s a s'. apply counters_step.
  - unfold counters_inv. cbn. repeat split; lia.
Qed.

End ChildAndParent.

(* ================================================================== *)
(** * Further properties of the adjuster *)

Section AdjusterMore.
Context {P : Platform}.
Variable args : option stress_args_t.
Variables procname str : string.
Variable fs : string -> nat -> attempt.

Lemma retried_or_decided (a : attempt) :
  open_ret a < 0
  \/ (0 <= open_ret a /\ 0 < write_ret a)
  \/ (0 <= open_ret a /\ write_ret a < 0 /\
      write_errno a <> EAGAIN /\ write_errno a <> EINTR)
  \/ retried a = true.
Proof.
  unfold retried, write_again, write_zero.
  destruct (Z.ltb_spec (open_ret a) 0) as [Ho|Ho]; [left; exact Ho|right].
  destruct (Z.ltb_spec 0 (write_ret a)) as [Hp|Hp]; [left; auto|right].
  apply Z.leb_le in Ho. rewrite Ho. cbn [andb].
  destruct (Z.eqb_spec (write_ret a) 0) as [Hz|Hz].
  { right. apply orb_true_r. }
  destruct (Z.ltb_spec (write_ret a) 0) as [Hn|Hn]; [|lia].
  destruct (Z.eqb_spec (write_errno a) EAGAIN) as [Ha|Ha]; [right; reflexivity|].
  destruct (Z.eqb_spec (write_errno a) EINTR) as [Hi|Hi]; [right; reflexivity|].
  left. apply Z.leb_le in Ho. auto.
Qed.

Lemma retried_not_written (a : attempt) :
  retried a = true -> written a = false.
Proof.
  unfold retried, write_again, write_zero, written.
  destruct (0 <=? open_ret a); [|reflexivity]. cbn [andb].
  destruct (Z.ltb_spec 0 (write_ret a)) as [Hp|Hp]; [|reflexivity].
  destruct (Z.ltb_spec (write_ret a) 0); [lia|].
  destruct (Z.eqb_spec (write_ret a) 0); [lia|]. discriminate.
Qed.

Lemma count_closes_app (t1 t2 : list event) :
  count_closes (t1 ++ t2) = (count_closes t1 + count_closes t2)%nat.
Proof. unfold count_closes. rewrite filter_app, length_app. reflexivity. Qed.

Lemma dbg_counts (e : Z) :
  count_opens (dbg_cant_set args e) = 0%nat /\
  count_writes (dbg_cant_set args e) = 0%nat /\
  count_closes (dbg_cant_set args e) = 0%nat /\
  (count is_dbg_cant_set (dbg_cant_set args e) <= 1)%nat.
Proof. unfold dbg_cant_set. destruct (reporting args); cbn; auto. Qed.

Lemma loop_descriptors (rem : nat) : forall (i : nat) (saved : Z),
  let tr := snd (set_adjustment_loop args procname str fs rem i saved) in
  count_closes tr = count_writes tr /\
  (count_opens tr = count_writes tr \/ count_opens tr = S (count_writes tr)) /\
  (count_opens tr <= rem)%nat /\
  (count is_dbg_cant_set tr <= 1)%nat.
Proof.
  induction rem as [|rem IH]; intros i saved; cbv zeta;
    cbn [set_adjustment_loop].
  - destruct (dbg_counts saved) as (Ho & Hw & Hc & Hd). cbn [snd].
    rewrite Ho, Hw, Hc. auto.
  - destruct (open_ret (fs procname i) <? 0).
    { cbn. repeat split; auto; lia. }
    destruct (0 <? write_ret (fs procname i)).
    { cbn. repeat split; auto; lia. }
    destruct ((write_ret (fs procname i) <? 0)
              && negb (write_errno (fs procname i) =? EAGAIN)
              && negb (write_errno (fs procname i) =? EINTR)).
    { destruct (dbg_counts (close_errno (fs procname i)))
        as (Ho & Hw & Hc & Hd).
      cbn [snd]. rewrite count_closes_app, count_writes_app, count_opens_app,
        count_app, Ho, Hw, Hc. cbn. repeat split; auto; lia. }
    specialize (IH (S i) (write_errno (fs procname i))). cbv zeta in IH.
    destruct (set_adjustment_loop args procname str fs rem (S i)
                (write_errno (fs procname i))) as [r tr].
    cbn [snd] in *. destruct IH as (Hc & Ho & Hle & Hd).
    rewrite count_closes_app, count_writes_app, count_opens_app, count_app.
    cbn. repeat split; lia.
Qed.

(** The events of the loop are whole rounds, each an [open], a [write]
    and a [close] of the file, followed by nothing, by one debug line, or
    by the [open] that failed. *)
Lemma loop_shape (rem : nat) : forall (i : nat) (saved : Z),
  exists n tail,
    snd (set_adjustment_loop args procname str fs rem i saved)
    = List.concat (repeat (round_io procname str) n) ++ tail /\
    (n <= rem)%nat /\
    (forall j, (i <= j < i + n)%nat -> 0 <= open_ret (fs procname j)) /\
    (tail = [] \/
     (exists e, tail = [Ev_dbg_cant_set (stress_args_name args) e]) \/
     (tail = [Ev_open procname] /\ (n < rem)%nat /\
      open_ret (fs procname (i + n)) < 0)).
Proof.
  assert (Hdbg : forall e,
            dbg_cant_set args e = [] \/
            (exists e', dbg_cant_set args e
                        = [Ev_dbg_cant_set (stress_args_name args) e'])).
  { intros e. unfold dbg_cant_set. destruct (reporting args);
      [right; exists e; reflexivity|left; reflexivity]. }
  induction rem as [|rem IH]; intros i saved; cbn [set_adjustment_loop].
  - exists 0%nat, (dbg_cant_set args saved). cbn [snd repeat List.concat app].
    split; [reflexivity|]. split; [lia|]. split; [intros j Hj; lia|].
    destruct (Hdbg saved) as [H|H]; auto.
  - destruct (open_ret (fs procname i) <? 0) eqn:Hopen.
    { exists 0%nat, [Ev_open procname]. cbn [snd repeat List.concat app].
      split; [reflexivity|]. split; [lia|]. split; [intros j Hj; lia|].
      right. right. split; [reflexivity|]. split; [lia|].
      rewrite Nat.add_0_r. apply Z.ltb_lt. exact Hopen. }
    apply Z.ltb_ge in Hopen.
    destruct (0 <? write_ret (fs procname i)).
    { exists 1%nat, []. cbn [snd repeat List.concat]. rewrite !app_nil_r.
      split; [reflexivity|]. split; [lia|]. split; [|auto].
      intros j Hj. replace j with i by lia. exact Hopen. }
    destruct ((write_ret (fs procname i) <? 0)
              && negb (write_errno (fs procname i) =? EAGAIN)
              && negb (write_errno (fs procname i) =? EINTR)).
    { exists 1%nat, (dbg_cant_set args (close_errno (fs procname i))).
      cbn [snd repeat List.concat]. rewrite app_nil_r.
      split; [reflexivity|]. split; [lia|]. split.
      - intros j Hj. replace j with i by lia. exact Hopen.
      - destruct (Hdbg (close_errno (fs procname i))) as [H|H]; auto. }
    destruct (IH (S i) (write_errno (fs procname i)))
      as (n & tail & Htr & Hn & Hok & Htail).
    destruct (set_adjustment_loop args procname str fs rem (S i)
                (write_errno (fs procname i))) as [r tr].
    cbn [snd] in *. exists (S n), tail. cbn [repeat List.concat].
    split; [rewrite Htr, app_assoc; reflexivity|]. split; [lia|]. split.
    + intros j Hj. destruct (Nat.eq_dec j i) as [->|Hne]; [exact Hopen|].
      apply Hok. lia.
    + destruct Htail as [H|[H|(H1 & H2 & H3)]]; auto.
      right. right. split; [exact H1|]. split; [lia|].
      replace (i + S n)%nat with (S i + n)%nat by lia. exact H3.
Qed.

(** No descriptor is held over a round.  The events of a call of
    [stress_set_adjustment] are [n] whole rounds, at most 32, each an
    [open] that succeeded followed at once by the [write] and the [close]
    of the same file, and after them either nothing, or one debug line, or
    one last [open], the one that failed in round [n], which leaves nothing
    to close.  So every [write] has its [close], every [open] but possibly
    the last has its [write], there are at most 32 [open]s, and at most
    one debug line. *)
Theorem descriptor_discipline :
  let tr := snd (stress_set_adjustment args procname str fs) in
  (exists n tail,
     tr = List.concat
            (repeat [Ev_open procname; Ev_write procname str;
                     Ev_close procname] n) ++ tail /\
     (n <= 32)%nat /\
     (forall j, (j < n)%nat -> 0 <= open_ret (fs procname j)) /\
     (tail = [] \/
      (exists e, tail = [Ev_dbg_cant_set (stress_args_name args) e]) \/
      (tail = [Ev_open procname] /\ (n < 32)%nat /\
       open_ret (fs procname n) < 0))) /\
  count_closes tr = count_writes tr /\
  (count_opens tr = count_writes tr \/ count_opens tr = S (count_writes tr)) /\
  (count_opens tr <= 32)%nat /\
  (count is_dbg_cant_set tr <= 1)%nat.
Proof.
  cbv zeta. unfold stress_set_adjustment.
  destruct (loop_descriptors 32 0 0) as (Hclose & Hopen & Hmax & Hdbg).
  destruct (loop_shape 32 0 0) as (n & tail & Htr & Hn & Hok & Htail).
  split.
  - exists n, tail. split; [exact Htr|]. split; [exact Hn|]. split.
    + intros j Hj. apply Hok. lia.
    + exact Htail.
  - split; [exact Hclose|]. split; [exact Hopen|].
    split; [exact Hmax|exact Hdbg].
Qed.

Lemma loop_success (rem : nat) : forall (i : nat) (saved : Z),
  (forall j, (i <= j < i + rem)%nat -> errno_set (fs procname j) = true) ->
  (fst (set_adjustment_loop args procname str fs rem i saved) = 0 <->
   exists k, (i <= k < i + rem)%nat /\
             (forall j, (i <= j < k)%nat -> retried (fs procname j) = true) /\
             written (fs procname k) = true)
  /\ fst (set_adjustment_loop args procname str fs rem i saved) <= 0.
Proof.
  induction rem as [|rem IH]; intros i saved Hsane.
  - cbn [set_adjustment_loop fst]. split; [|lia]. split; [lia|].
    intros (k & Hk & _). lia.
  - assert (Hi : errno_set (fs procname i) = true) by (apply Hsane; lia).
    unfold errno_set in Hi. apply andb_true_iff in Hi as [Hso Hsw].
    assert (Hlater : forall k,
              (i <= k < i + S rem)%nat ->
              (forall j, (i <= j < k)%nat -> retried (fs procname j) = true) ->
              written (fs procname k) = true ->
              retried (fs procname i) = false -> k = i).
    { intros k Hk Hprev _ Hnot. destruct (Nat.eq_dec k i); [assumption|].
      rewrite Hprev in Hnot by lia. discriminate. }
    destruct (retried_or_decided (fs procname i))
      as [Ho | [[Ho Hw] | [(Ho & Hw & Ha & He) | Hr]]].
    + rewrite round_open_fails by assumption. cbn [fst].
      assert (Hpos : 0 < open_errno (fs procname i)).
      { apply orb_true_iff in Hso as [H|H];
          [apply Z.leb_le in H; lia | apply Z.ltb_lt in H; exact H]. }
      split; [|lia]. split; [lia|]. intros (k & Hk & Hprev & Hwr).
      assert (Hnot : retried (fs procname i) = false).
      { unfold retried, write_again, write_zero.
        destruct (0 <=? open_ret (fs procname i)) eqn:E;
          [apply Z.leb_le in E; lia|reflexivity]. }
      rewrite (Hlater k Hk Hprev Hwr Hnot) in Hwr. unfold written in Hwr.
      apply andb_true_iff in Hwr as [Hwr _]. apply Z.leb_le in Hwr. lia.
    + rewrite round_write_ok by assumption. cbn [fst]. split; [|lia].
      split; [|reflexivity]. intros _. exists i. split; [lia|].
      split; [intros j Hj; lia|]. unfold written.
      apply Z.leb_le in Ho. apply Z.ltb_lt in Hw. rewrite Ho, Hw. reflexivity.
    + rewrite round_write_fails by assumption. cbn [fst].
      assert (Hpos : 0 < write_errno (fs procname i)).
      { apply orb_true_iff in Hsw as [H|H];
          [apply Z.leb_le in H; lia | apply Z.ltb_lt in H; exact H]. }
      split; [|lia]. split; [lia|]. intros (k & Hk & Hprev & Hwr).
      assert (Hnot : retried (fs procname i) = false).
      { unfold retried, write_again, write_zero.
        apply Z.eqb_neq in Ha, He. rewrite Ha, He.
        destruct (write_ret (fs procname i) =? 0) eqn:E;
          [apply Z.eqb_eq in E; lia|].
        rewrite !andb_false_r. reflexivity. }
      rewrite (Hlater k Hk Hprev Hwr Hnot) in Hwr. unfold written in Hwr.
      apply andb_true_iff in Hwr as [_ Hwr]. apply Z.ltb_lt in Hwr. lia.
    + rewrite retried_round by assumption. cbn [fst].
      destruct (IH (S i) (write_errno (fs procname i))) as [Hiff Hle].
      { intros j Hj. apply Hsane. lia. }
      split; [|exact Hle]. rewrite Hiff. split.
      * intros (k & Hk & Hprev & Hwr). exists k. split; [lia|].
        split; [|exact Hwr]. intros j Hj.
        destruct (Nat.eq_dec j i) as [->|]; [exact Hr|apply Hprev; lia].
      * intros (k & Hk & Hprev & Hwr). exists k.
        assert (k <> i).
        { intros ->. rewrite (retried_not_written _ Hr) in Hwr. discriminate. }
        split; [lia|]. split; [|exact Hwr]. intros j Hj. apply Hprev. lia.
Qed.

(** When every failing [open] and [write] leaves a positive [errno], the
    result of [stress_set_adjustment] is never positive, and it is 0
    exactly when, after rounds that were all retried, a round within the
    first 32 has a [write] that returns a positive count. *)
Theorem success_iff_written :
  (forall j, (j < 32)%nat -> errno_set (fs procname j) = true) ->
  (fst (stress_set_adjustment args procname str fs) = 0 <->
   exists k, (k < 32)%nat /\
             (forall j, (j < k)%nat -> retried (fs procname j) = true) /\
             written (fs procname k) = true)
  /\ fst (stress_set_adjustment args procname str fs) <= 0.
Proof.
  intros Hsane. destruct (loop_success 32 0 0) as [Hiff Hle].
  { intros j Hj. apply Hsane. lia. }
  split; [|exact Hle]. unfold stress_set_adjustment. rewrite Hiff. split.
  - intros (k & Hk & Hprev & Hw). exists k. split; [lia|].
    split; [|exact Hw]. intros j Hj. apply Hprev. lia.
  - intros (k & Hk & Hprev & Hw). exists k. split; [lia|].
    split; [|exact Hw]. intros j Hj. apply Hprev. lia.
Qed.

Lemma loop_reports (rem : nat) : forall (i : nat) (saved : Z) (n : string) (e : Z),
  In (Ev_dbg_cant_set n e)
     (snd (set_adjustment_loop args procname str fs rem i saved)) ->
  exists a, args = Some a /\ args_instance a = 0 /\ n = args_name a.
Proof.
  assert (Hd : forall e0 n e, In (Ev_dbg_cant_set n e) (dbg_cant_set args e0) ->
              exists a, args = Some a /\ args_instance a = 0 /\ n = args_name a).
  { intros e0 n e. unfold dbg_cant_set, reporting, stress_args_name.
    destruct args as [a|]; [|intros []].
    destruct (Z.eqb_spec (args_instance a) 0) as [E|E]; [|intros []].
    intros [H|[]]. injection H as <- _. exists a. auto. }
  assert (Hio : forall n e, ~ In (Ev_dbg_cant_set n e) (round_io procname str)).
  { intros n e [H|[H|[H|[]]]]; discriminate. }
  induction rem as [|rem IH]; intros i saved n e; cbn [set_adjustment_loop].
  - apply Hd.
  - destruct (open_ret (fs procname i) <? 0).
    { intros [H|[]]. discriminate. }
    destruct (0 <? write_ret (fs procname i)).
    { intros H. elim (Hio _ _ H). }
    destruct ((write_ret (fs procname i) <? 0)
              && negb (write_errno (fs procname i) =? EAGAIN)
              && negb (write_errno (fs procname i) =? EINTR)).
    { cbn [snd]. intros H. apply in_app_or in H as [H|H];
        [elim (Hio _ _ H)|exact (Hd _ _ _ H)]. }
    specialize (IH (S i) (write_errno (fs procname i)) n e).
    destruct (set_adjustment_loop args procname str fs rem (S i)
                (write_errno (fs procname i))) as [r tr].
    cbn [snd] in *. intros H. apply in_app_or in H as [H|H];
      [elim (Hio _ _ H)|auto].
Qed.

(** The debug line of [stress_set_adjustment] is printed only for a
    stressor of instance 0, under the stressor's name: never for the main
    process (null [args]), so the name "main" is never printed. *)
Theorem reports_only_instance_zero (n : string) (e : Z) :
  In (Ev_dbg_cant_set n e) (snd (stress_set_adjustment args procname str fs)) ->
  exists a, args = Some a /\ args_instance a = 0 /\ n = args_name a.
Proof. apply loop_reports. Qed.

End AdjusterMore.

Section FallbackMore.
Context {P : Platform}.

(** The fallback is taken on the value [-ENOENT] wherever it comes from: a
    [write] on the modern file that fails with [ENOENT] leads to the old
    file just as a failed [open] does. *)
Theorem write_enoent_falls_back (args : option stress_args_t)
    (killable : bool) (g : Z) (os : system) :
  bit_set g OPT_FLAGS_NO_OOM_ADJUST = false ->
  ENOENT <> 0 -> ENOENT <> EAGAIN -> ENOENT <> EINTR ->
  0 <= open_ret (files os oom_score_adj 0%nat) ->
  write_ret (files os oom_score_adj 0%nat) < 0 ->
  write_errno (files os oom_score_adj 0%nat) = ENOENT ->
  touched oom_adj (stress_set_oom_adjustment args killable g os) = true.
Proof.
  intros Hg H0 Ha Hi Ho Hw He. unfold stress_set_oom_adjustment. rewrite Hg.
  unfold stress_set_adjustment at 1. change 32%nat with (S 31) at 1.
  rewrite round_write_fails by (try assumption; rewrite He; assumption).
  rewrite He. replace (- ENOENT =? 0) with false
    by (symmetry; apply Z.eqb_neq; lia).
  rewrite Z.eqb_refl. cbn [orb negb].
  rewrite touched_app, call_touches. apply orb_true_r.
Qed.

(** [stress_set_oom_adjustment] touches no file but the two OOM files,
    starts with the modern one, and opens files at most 64 times. *)
Theorem only_the_oom_files (args : option stress_args_t) (killable : bool)
    (g : Z) (os : system) :
  let tr := stress_set_oom_adjustment args killable g os in
  (forall q, touched q tr = true ->
             q = "/proc/self/oom_score_adj"%string
             \/ q = "/proc/self/oom_adj"%string)
  /\ (bit_set g OPT_FLAGS_NO_OOM_ADJUST = false ->
      hd_error tr = Some (Ev_open "/proc/self/oom_score_adj"))
  /\ (count_opens tr <= 64)%nat.
Proof.
  cbv zeta. unfold stress_set_oom_adjustment.
  set (mk := make_killable args killable g). set (hp := high_priv os).
  assert (Hhd : forall p s rem i saved,
            hd_error (snd (set_adjustment_loop args p s (files os) (S rem) i saved))
            = Some (Ev_open p)).
  { intros p s rem i saved. cbn [set_adjustment_loop].
    destruct (open_ret (files os p i) <? 0); [reflexivity|].
    destruct (0 <? write_ret (files os p i)); [reflexivity|].
    destruct ((write_ret (files os p i) <? 0)
              && negb (write_errno (files os p i) =? EAGAIN)
              && negb (write_errno (files os p i) =? EINTR)); [reflexivity|].
    destruct (set_adjustment_loop args p s (files os) rem (S i)
                (write_errno (files os p i))). reflexivity. }
  assert (Hq : forall p s q,
            touched q (snd (stress_set_adjustment args p s (files os))) = true ->
            q = p).
  { intros p s q H. destruct (String.eqb_spec p q) as [E|E]; [auto|].
    apply String.eqb_neq in E.
    unfold stress_set_adjustment in H. rewrite loop_touches in H by exact E.
    discriminate. }
  pose proof (Hq oom_score_adj (score_adj_str mk hp)) as Hm.
  pose proof (Hq oom_adj (adj_str mk hp)) as Ho.
  pose proof (Hhd oom_score_adj (score_adj_str mk hp) 31%nat 0%nat 0) as Hh.
  destruct (loop_descriptors args oom_score_adj (score_adj_str mk hp)
              (files os) 32 0 0) as (_ & _ & Hc1 & _).
  destruct (loop_descriptors args oom_adj (adj_str mk hp) (files os) 32 0 0)
    as (_ & _ & Hc2 & _).
  fold (stress_set_adjustment args oom_score_adj (score_adj_str mk hp) (files os))
    in Hc1.
  fold (stress_set_adjustment args oom_adj (adj_str mk hp) (files os)) in Hc2.
  fold (stress_set_adjustment args oom_score_adj (score_adj_str mk hp) (files os))
    in Hh.
  destruct (bit_set g OPT_FLAGS_NO_OOM_ADJUST).
  { split; [discriminate|]. split; [discriminate|]. cbn. lia. }
  destruct (stress_set_adjustment args oom_score_adj (score_adj_str mk hp)
              (files os)) as [ret tr].
  cbn [snd] in *.
  destruct ((ret =? 0) || negb (ret =? - ENOENT)).
  - split; [intros q H; left; apply Hm, H|]. split; [intros _; exact Hh|lia].
  - split; [|split].
    + intros q H. rewrite touched_app in H. apply orb_true_iff in H as [H|H];
        [left; apply Hm, H | right; apply Ho, H].
    + intros _. destruct tr; [discriminate Hh|exact Hh].
    + rewrite count_opens_app. lia.
Qed.

End FallbackMore.

(* ================================================================== *)
(** * The kill detector: further properties *)

(** [stress_process_oomed] answers true exactly when the device could be
    opened and some chunk read from it is an OOM record for the pid: that
    the loop stops at the first such chunk does not change the answer. *)
Theorem oomed_iff_some_record (pid : Z) (kmsg : option (list string)) :
  stress_process_oomed pid kmsg = true <->
  exists reads,
    kmsg = Some reads /\
    Exists (fun data => oom_record (c_str data) = Some pid) reads.
Proof.
  destruct kmsg as [reads|]; cbn [stress_process_oomed].
  - split.
    + intros H. exists reads. split; [reflexivity|].
      induction reads as [|data rest IH]; [discriminate|].
      cbn [scan_kmsg] in H.
      destruct (oom_record (c_str data)) as [p|] eqn:E;
        [|right; auto].
      destruct (Z.eqb_spec p pid) as [->|]; [left; exact E|right; auto].
    + intros (r & Hr & H). injection Hr as <-.
      induction H as [data rest H|data rest _ IH]; cbn [scan_kmsg].
      * rewrite H, Z.eqb_refl. reflexivity.
      * destruct (oom_record (c_str data)) as [p|]; [|exact IH].
        destruct (p =? pid); [reflexivity|exact IH].
  - split; [discriminate|]. intros (r & Hr & _). discriminate.
Qed.

(** Only the first "process" of a buffer is looked at: when nothing before
    it has the letter p, the buffer is an OOM record exactly when one of
    the two phrases occurs somewhere in it, and the pid is then read from
    the text right behind that first "process"; a pid named later in the
    same buffer is never read. *)
Theorem first_process_decides (pre rest : string) :
  free_of "p" pre = true ->
  oom_record (pre ++ "process" ++ rest)
  = if found (strstr (pre ++ "process" ++ rest) "Out of memory")
       || found (strstr (pre ++ "process" ++ rest) "oom_reaper")
    then sscanf_d 10 rest
    else None.
Proof.
  intros Hp. unfold oom_record. rewrite strstr_skip by assumption.
  rewrite strstr_unfold, prefix_append. reflexivity.
Qed.

(** A NUL byte ends what is searched of a chunk: the bytes behind it do
    not matter. *)
Theorem nul_ends_chunk (pid : Z) (a b : string) (rest : list string) :
  scan_kmsg pid ((a ++ String zero b)%string :: rest)
  = scan_kmsg pid (a :: rest).
Proof.
  assert (E : c_str (a ++ String zero b) = c_str a).
  { induction a as [|c a IH]; [reflexivity|].
    cbn [append c_str]. destruct (Ascii.eqb c zero); [reflexivity|].
    rewrite IH. reflexivity. }
  cbn [scan_kmsg]. rewrite E. reflexivity.
Qed.

Lemma isdigit_value (c : ascii) :
  isdigit c = true -> 0 <= Z.of_nat (nat_of_ascii c) - 48 <= 9.
Proof.
  unfold isdigit. intros H. apply andb_true_iff in H as [H1 H2].
  apply Nat.leb_le in H1, H2. lia.
Qed.

Lemma take_digits_digits (w : nat) : forall s,
  Forall (fun d => 0 <= d <= 9) (take_digits w s) /\
  (List.length (take_digits w s) <= w)%nat.
Proof.
  induction w as [|w IH]; intros s; cbn [take_digits].
  - destruct s; split; constructor.
  - destruct s as [|c t]; [split; [constructor|cbn; lia]|].
    destruct (isdigit c) eqn:E; [|split; [constructor|cbn; lia]].
    destruct (IH t) as [Hd Hl]. split.
    + constructor; [apply isdigit_value, E|exact Hd].
    + cbn [List.length]. lia.
Qed.

Lemma fold_decimal_bound (ds : list Z) : forall acc,
  Forall (fun d => 0 <= d <= 9) ds -> 0 <= acc ->
  0 <= fold_left (fun a d => 10 * a + d) ds acc
    < (acc + 1) * 10 ^ Z.of_nat (List.length ds).
Proof.
  induction ds as [|d ds IH]; intros acc Hall Hacc.
  - cbn. lia.
  - inversion Hall as [|x l Hd Hall']; subst. cbn [fold_left List.length].
    specialize (IH (10 * acc + d) Hall' ltac:(lia)).
    rewrite Nat2Z.inj_succ, Z.pow_succ_r by lia.
    assert (0 < 10 ^ Z.of_nat (List.length ds)) by (apply Z.pow_pos_nonneg; lia).
    nia.
Qed.

Lemma digits_value_bound (w : nat) (s : string) :
  0 <= decimal (take_digits w s) < 10 ^ Z.of_nat w.
Proof.
  destruct (take_digits_digits w s) as [Hd Hl].
  pose proof (fold_decimal_bound (take_digits w s) 0 Hd ltac:(lia)) as H.
  unfold decimal.
  assert (10 ^ Z.of_nat (List.length (take_digits w s)) <= 10 ^ Z.of_nat w)
    by (apply Z.pow_le_mono_r; lia).
  lia.
Qed.

(** The pid read from the log has at most ten characters, sign included:
    it lies between -999999999 and 9999999999, so it fits [intmax_t] and a
    longer number in the log is cut after its tenth character. *)
Theorem scanned_pid_bound (s : string) (v : Z) :
  sscanf_d 10 s = Some v -> -999999999 <= v <= 9999999999.
Proof.
  unfold sscanf_d.
  pose proof (digits_value_bound 10) as H10.
  pose proof (digits_value_bound 9) as H9.
  change (10 - 1)%nat with 9%nat.
  change (10 ^ Z.of_nat 10) with 10000000000 in H10.
  change (10 ^ Z.of_nat 9) with 1000000000 in H9.
  intros H.
  repeat match type of H with
         | match ?x with _ => _ end = Some _ => destruct x eqn:?
         | (if ?x then _ else _) = Some _ => destruct x eqn:?
         end;
    try discriminate; injection H as <-;
    repeat match goal with
           | E : take_digits ?w ?t = _ |- _ =>
               first [ specialize (H10 t); rewrite E in H10
                     | specialize (H9 t); rewrite E in H9 ];
               clear E
           end; lia.
Qed.

(* ================================================================== *)
(** * The fork stressor *)

Section ForkFacts.
Context {P : Platform}.

Lemma fk_count_app (f : fork_event -> bool) (l1 l2 : list fork_event) :
  fk_count f (l1 ++ l2) = (fk_count f l1 + fk_count f l2)%nat.
Proof. unfold fk_count. rewrite filter_app, length_app. reflexivity. Qed.

Lemma fork_pass_counts (verify : bool) (pid : Z) :
  fk_count fk_is_fork (fork_pass verify pid) = 1%nat /\
  fk_count fk_is_waitpid (fork_pass verify pid)
    = (if 0 <? pid then 1%nat else 0%nat) /\
  fk_count fk_is_fail (fork_pass verify pid)
    = (if (pid <? 0) && verify then 1%nat else 0%nat).
Proof.
  unfold fork_pass. destruct (0 <? pid), ((pid <? 0) && verify); cbn; auto.
Qed.

Lemma uint64_incr_range (c : Z) : 0 <= uint64_incr c < 2 ^ 64.
Proof. unfold uint64_incr. apply Z.mod_pos_bound. lia. Qed.

Lemma fork_accounting (verify : bool) (max_ops : Z)
    (script : list (Z * bool)) : forall counter,
  0 <= counter < 2 ^ 64 ->
  let r := stress_fork verify max_ops counter script in
  fk_counter r = (counter + Z.of_nat (passes r)) mod 2 ^ 64 /\
  (forall v, fk_outcome r = Fork_exited v ->
     v = 0 /\ (1 <= fk_count fk_is_fork (fk_events r))%nat) /\
  (forall v, fk_outcome r = Fork_returned v -> v = EXIT_SUCCESS) /\
  (fk_count fk_is_waitpid (fk_events r)
   <= fk_count fk_is_fork (fk_events r))%nat /\
  (verify = false -> fk_count fk_is_fail (fk_events r) = 0%nat).
Proof.
  induction script as [|[pid run] rest IH]; intros counter Hc; cbv zeta;
    cbn [stress_fork].
  - unfold passes. cbn. rewrite Z.add_0_r, Z.mod_small by lia.
    split; [reflexivity|]. split; [intros v H; discriminate H|].
    split; [intros v H; discriminate H|]. split; [lia|reflexivity].
  - destruct (pid =? 0).
    { unfold passes. cbn. rewrite Z.add_0_r, Z.mod_small by lia.
      split; [reflexivity|]. split.
      - intros v H. injection H as <-. split; [reflexivity|lia].
      - split; [intros v H; discriminate H|]. split; [lia|reflexivity]. }
    destruct (fork_pass_counts verify pid) as (Hf & Hw & Hx).
    destruct (run && ((max_ops =? 0) || (uint64_incr counter <? max_ops))).
    + specialize (IH (uint64_incr counter) (uint64_incr_range counter)).
      cbv zeta in IH. destruct IH as (Hcnt & Hex & Hret & Hwait & Hfail).
      set (r := stress_fork verify max_ops (uint64_incr counter) rest) in *.
      assert (Hp : passes {| fk_outcome := fk_outcome r;
                             fk_counter := fk_counter r;
                             fk_events := fork_pass verify pid ++ fk_events r |}
                   = S (passes r)).
      { unfold passes. cbn [fk_outcome fk_events]. rewrite fk_count_app, Hf.
        destruct (fk_outcome r) eqn:E; try reflexivity.
        destruct (Hex v eq_refl) as [_ H1]. lia. }
      rewrite Hp. cbn [fk_counter fk_outcome fk_events].
      rewrite !fk_count_app, Hf, Hw, Hx.
      split; [|split; [|split; [|split]]].
      * rewrite Hcnt. unfold uint64_incr. rewrite Z.add_mod_idemp_l by lia.
        f_equal. lia.
      * intros v H. destruct (Hex v H). split; [assumption|lia].
      * exact Hret.
      * destruct (0 <? pid); lia.
      * intros ->. rewrite andb_false_r, Hfail by reflexivity. reflexivity.
    + unfold passes. cbn [fk_counter fk_outcome fk_events]. rewrite Hf, Hw, Hx.
      split; [|split; [|split; [|split]]].
      * unfold uint64_incr. f_equal.
      * intros v H. discriminate H.
      * intros v H. injection H as <-. reflexivity.
      * destruct (0 <? pid); lia.
      * intros ->. rewrite andb_false_r. reflexivity.
Qed.

Lemma exited_has_fork (verify : bool) (max_ops : Z)
    (script : list (Z * bool)) : forall counter v,
  fk_outcome (stress_fork verify max_ops counter script) = Fork_exited v ->
  (1 <= fk_count fk_is_fork
          (fk_events (stress_fork verify max_ops counter script)))%nat.
Proof.
  induction script as [|[pid run] rest IH]; intros counter v;
    cbn [stress_fork]; [discriminate|].
  destruct (pid =? 0); [intros _; cbn; lia|].
  destruct (run && ((max_ops =? 0) || (uint64_incr counter <? max_ops)));
    cbn [fk_outcome fk_events]; [|discriminate].
  intros H. rewrite fk_count_app.
  specialize (IH _ _ H). lia.
Qed.

(** The events are those of the passes made, answer by answer, and after
    them the [fork] that put us in the child, if one did. *)
Lemma fork_events_shape (verify : bool) (max_ops : Z)
    (script : list (Z * bool)) : forall counter,
  let r := stress_fork verify max_ops counter script in
  fk_events r
  = flat_map (fun a => fork_pass verify (fst a)) (firstn (passes r) script)
    ++ match fk_outcome r with Fork_exited _ => [Fk_fork] | _ => [] end.
Proof.
  induction script as [|[pid run] rest IH]; intros counter; cbv zeta;
    cbn [stress_fork].
  - reflexivity.
  - destruct (pid =? 0); [reflexivity|].
    destruct (fork_pass_counts verify pid) as (Hf & _).
    destruct (run && ((max_ops =? 0) || (uint64_incr counter <? max_ops))).
    + specialize (IH (uint64_incr counter)). cbv zeta in IH.
      pose proof (exited_has_fork verify max_ops rest (uint64_incr counter))
        as Hex.
      set (r := stress_fork verify max_ops (uint64_incr counter) rest) in *.
      assert (Hp : passes {| fk_outcome := fk_outcome r;
                             fk_counter := fk_counter r;
                             fk_events := fork_pass verify pid ++ fk_events r |}
                   = S (passes r)).
      { unfold passes. cbn [fk_outcome fk_events]. rewrite fk_count_app, Hf.
        destruct (fk_outcome r) eqn:E; try reflexivity.
        specialize (Hex v eq_refl). lia. }
      rewrite Hp. cbn [fk_outcome fk_events firstn flat_map fst].
      rewrite IH at 1. rewrite app_assoc. reflexivity.
    + unfold passes. cbn [fk_outcome fk_events]. rewrite Hf.
      cbn [firstn flat_map fst]. rewrite !app_nil_r. reflexivity.
Qed.

(** [stress_fork] counts every pass of its loop, with a fork that failed
    as with one that worked: the counter ends at its entry value plus the
    passes made, modulo 2^64.  The events are exactly those of the passes,
    in the order of the answers of [fork]: in each pass the [fork], then a
    [waitpid] on the pid returned if and only if that pid is positive, then
    the failure report if and only if the pid is negative and the verify
    option is set.  So [waitpid] is called only for a fork that returned a
    child, directly after it and on that child, once for each such fork;
    and whenever the function returns, the value is [EXIT_SUCCESS]. *)
Theorem fork_counts_every_pass (verify : bool) (max_ops counter : Z)
    (script : list (Z * bool)) :
  0 <= counter < 2 ^ 64 ->
  let r := stress_fork verify max_ops counter script in
  let made := firstn (passes r) script in
  fk_counter r = (counter + Z.of_nat (passes r)) mod 2 ^ 64 /\
  (forall v, fk_outcome r = Fork_returned v -> v = EXIT_SUCCESS) /\
  fk_events r
  = flat_map
      (fun a =>
         Fk_fork
         :: (if 0 <? fst a then [Fk_waitpid (fst a)] else [])
         ++ (if (fst a <? 0) && verify then [Fk_fail] else []))
      made
    ++ match fk_outcome r with Fork_exited _ => [Fk_fork] | _ => [] end /\
  (forall pid, In (Fk_waitpid pid) (fk_events r) ->
     0 < pid /\ exists run, In (pid, run) made) /\
  fk_count fk_is_waitpid (fk_events r)
  = List.length (filter (fun a => 0 <? fst a) made) /\
  (fk_count fk_is_waitpid (fk_events r)
   <= fk_count fk_is_fork (fk_events r))%nat /\
  (verify = false -> fk_count fk_is_fail (fk_events r) = 0%nat).
Proof.
  intros Hc. destruct (fork_accounting verify max_ops script counter Hc)
    as (H1 & _ & H3 & H4 & H5).
  pose proof (fork_events_shape verify max_ops script counter) as Hs.
  cbv zeta in *.
  set (r := stress_fork verify max_ops counter script) in *.
  set (made := firstn (passes r) script) in *.
  assert (Htail : forall f, f Fk_fork = false ->
            fk_count f match fk_outcome r with
                       | Fork_exited _ => [Fk_fork] | _ => [] end = 0%nat).
  { intros f Hf. destruct (fk_outcome r); unfold fk_count; cbn [filter];
      rewrite ?Hf; reflexivity. }
  split; [exact H1|]. split; [exact H3|]. split; [exact Hs|].
  split; [|split; [|split; [exact H4|exact H5]]].
  - intros pid Hin. rewrite Hs in Hin. apply in_app_or in Hin.
    destruct Hin as [Hin|Hin].
    + apply in_flat_map in Hin. destruct Hin as ([p run] & Hmade & Hin).
      cbn [fst] in Hin. unfold fork_pass in Hin.
      destruct Hin as [E|Hin]; [discriminate E|].
      apply in_app_or in Hin. destruct Hin as [Hin|Hin].
      * destruct (0 <? p) eqn:Hp; [|destruct Hin].
        destruct Hin as [E|[]]. injection E as <-.
        split; [apply Z.ltb_lt; exact Hp|]. exists run. exact Hmade.
      * destruct ((p <? 0) && verify); [|destruct Hin].
        destruct Hin as [E|[]]. discriminate E.
    + destruct (fk_outcome r); try destruct Hin as [E|[]];
        try discriminate E; destruct Hin.
  - rewrite Hs, fk_count_app, (Htail fk_is_waitpid eq_refl), Nat.add_0_r.
    clear. induction made as [|[p run] made IH]; [reflexivity|].
    cbn [flat_map filter fst]. rewrite fk_count_app, IH.
    destruct (fork_pass_counts verify p) as (_ & Hw & _). rewrite Hw.
    destruct (0 <? p); reflexivity.
Qed.

Lemma fork_last_pass (verify : bool) (max_ops counter pid : Z) (run : bool)
    (rest : list (Z * bool)) :
  pid <> 0 -> 0 <= counter -> 0 < max_ops <= counter + 1 -> counter + 1 < 2 ^ 64 ->
  stress_fork verify max_ops counter ((pid, run) :: rest)
  = {| fk_outcome := Fork_returned EXIT_SUCCESS; fk_counter := counter + 1;
       fk_events := fork_pass verify pid |}.
Proof.
  intros Hpid Hc Hm Hlt. cbn [stress_fork].
  apply Z.eqb_neq in Hpid. rewrite Hpid.
  unfold uint64_incr. rewrite Z.mod_small by lia.
  replace (max_ops =? 0) with false by (symmetry; apply Z.eqb_neq; lia).
  replace (counter + 1 <? max_ops) with false
    by (symmetry; apply Z.ltb_ge; lia).
  rewrite andb_false_r. reflexivity.
Qed.

(** With a bound on the operations and [opt_do_run] staying true, the loop
    makes exactly the passes that are left up to [max_ops] and returns
    with the counter at [max_ops].  The test comes after the body: a call
    whose counter has already reached the bound makes one pass and returns
    with the counter one higher, as long as the counter is below
    [2^64 - 1].  At [2^64 - 1] the increment wraps the [uint64_t] to 0,
    which is below the bound: the pass is made and, with [opt_do_run] true,
    the loop goes on as a call entered with the counter at 0 would. *)
Theorem fork_stops_at_max_ops (verify : bool) (max_ops pid : Z) (run : bool)
    (rest : list (Z * bool)) :
  pid <> 0 -> max_ops < 2 ^ 64 ->
  (forall script counter,
     0 <= counter ->
     counter + Z.of_nat (S (List.length script)) = max_ops ->
     Forall (fun a => fst a <> 0 /\ snd a = true) script ->
     let r :=
       stress_fork verify max_ops counter (script ++ (pid, run) :: rest) in
     fk_outcome r = Fork_returned EXIT_SUCCESS /\
     fk_counter r = max_ops /\
     fk_count fk_is_fork (fk_events r) = S (List.length script))
  /\
  (forall counter,
     0 < max_ops <= counter + 1 -> counter + 1 < 2 ^ 64 -> 0 <= counter ->
     let r := stress_fork verify max_ops counter ((pid, run) :: rest) in
     fk_outcome r = Fork_returned EXIT_SUCCESS /\
     fk_counter r = counter + 1 /\
     fk_count fk_is_fork (fk_events r) = 1%nat)
  /\
  (0 < max_ops -> run = true ->
   let r := stress_fork verify max_ops (2 ^ 64 - 1) ((pid, run) :: rest) in
   let r0 := stress_fork verify max_ops 0 rest in
   fk_outcome r = fk_outcome r0 /\
   fk_counter r = fk_counter r0 /\
   fk_events r = fork_pass verify pid ++ fk_events r0).
Proof.
  intros Hpid Hmax. split; [|split].
  - induction script as [|[p r0] script IH]; intros counter Hc Hsum Hall;
      cbv zeta.
    + cbn [app List.length] in *.
      rewrite fork_last_pass by (try assumption; lia).
      cbn [fk_outcome fk_counter fk_events].
      destruct (fork_pass_counts verify pid) as (Hf & _). rewrite Hf.
      repeat split. lia.
    + inversion Hall as [|x l [Hp Hr] Hall']; subst. cbn [fst snd] in *.
      subst r0. cbn [app List.length stress_fork] in *.
      apply Z.eqb_neq in Hp. rewrite Hp.
      unfold uint64_incr. rewrite Z.mod_small by lia.
      replace (counter + 1 <? counter + Z.of_nat (S (S (List.length script))))
        with true by (symmetry; apply Z.ltb_lt; lia).
      rewrite orb_true_r. cbn [andb].
      specialize (IH (counter + 1) ltac:(lia) ltac:(lia) Hall').
      cbv zeta in IH. destruct IH as (Ho & Hcnt & Hforks).
      cbn [fk_outcome fk_counter fk_events].
      destruct (fork_pass_counts verify p) as (Hf & _).
      rewrite fk_count_app, Hf, Hforks. auto.
  - intros counter Hm Hlt Hc. cbv zeta.
    rewrite fork_last_pass by assumption.
    cbn [fk_outcome fk_counter fk_events].
    destruct (fork_pass_counts verify pid) as (Hf & _). rewrite Hf. auto.
  - intros Hpos ->. cbv zeta. cbn [stress_fork].
    apply Z.eqb_neq in Hpid. rewrite Hpid.
    change (uint64_incr (2 ^ 64 - 1)) with 0.
    replace (max_ops =? 0) with false by (symmetry; apply Z.eqb_neq; lia).
    replace (0 <? max_ops) with true by (symmetry; apply Z.ltb_lt; lia).
    cbn [andb orb fk_outcome fk_counter fk_events]. auto.
Qed.

(** Without a bound ([max_ops] is 0) the loop goes on for as long as
    [opt_do_run] is true, and ends with the pass after which it is
    false. *)
Theorem fork_runs_until_stopped (verify : bool) (pid : Z)
    (rest : list (Z * bool)) :
  pid <> 0 ->
  forall script counter,
    Forall (fun a => fst a <> 0 /\ snd a = true) script ->
    let r := stress_fork verify 0 counter (script ++ (pid, false) :: rest) in
    fk_outcome r = Fork_returned EXIT_SUCCESS /\
    fk_count fk_is_fork (fk_events r) = S (List.length script).
Proof.
  intros Hpid. induction script as [|[p r0] script IH]; intros counter Hall;
    cbv zeta.
  - cbn [app List.length stress_fork]. apply Z.eqb_neq in Hpid. rewrite Hpid.
    cbn [andb fk_outcome fk_events].
    destruct (fork_pass_counts verify pid) as (Hf & _). rewrite Hf. auto.
  - inversion Hall as [|x l [Hp Hr] Hall']; subst. cbn [fst snd] in *.
    subst r0. cbn [app List.length stress_fork].
    apply Z.eqb_neq in Hp. rewrite Hp. cbn [Z.eqb orb andb].
    specialize (IH (uint64_incr counter) Hall'). cbv zeta in IH.
    destruct IH as (Ho & Hforks). cbn [fk_outcome fk_events].
    destruct (fork_pass_counts verify p) as (Hf & _).
    rewrite fk_count_app, Hf, Hforks. auto.
Qed.

End ForkFacts.

(* ================================================================== *)
(** * The further properties at sample inputs *)

Lemma wait_echild_witness :
  let s' :=
    run (P := linux) sample_args 0 0 one_signal_sent
      [A_waitpid (-1) 0 10; A_continue true] in
  pc s' = Returned 0 /\
  kills (trace s') = [14] /\ signal_idx s' = 1%nat /\
  ooms s' = 0 /\ segvs s' = 0 /\ buserrs s' = 0 /\
  count_forks (trace s') = 1%nat.
Proof.
  apply (wait_echild (P := linux) sample_args 0 0 one_signal_sent 100 (-1) 0
           [A_continue true]); reflexivity.
Defined.

Lemma wait_failure_escalates_witness :
  exists s',
    step (P := linux) sample_args 0 0 one_signal_sent (A_waitpid (-1) 0 4)
      = Some s' /\
    signal_idx s' = 2%nat /\
    kills (trace s') = [14] ++ [14] /\
    kills_to 100 (trace s') = [14] ++ [14] /\
    count is_dbg_waitpid (trace s') = (0 + 0)%nat.
Proof.
  apply (wait_failure_escalates (P := linux) sample_args 0 0 one_signal_sent
           100 (-1) 0 4); try reflexivity.
  - discriminate.
  - cbn. lia.
Defined.

Lemma wait_failure_backoff_witness :
  exists s',
    step (P := linux) sample_args 0 0 one_signal_sent (A_waitpid (-1) 0 5)
      = Some s' /\
    count is_backoff (trace s') = (0 + 1)%nat /\
    (1%nat = 0%nat ->
     pc s' = At_waitpid 100 /\ count is_backoff (trace s') = 0%nat) /\
    (1%nat = 5%nat ->
     pc s' = Returned 0 /\ count is_backoff (trace s') = 0%nat).
Proof.
  apply (wait_failure_backoff (P := linux) sample_args 0 0 one_signal_sent
           100 (-1) 0 5); try reflexivity.
  - discriminate.
  - cbn. lia.
Defined.

Lemma bus_segv_restart_witness :
  (exists s',
     run (P := linux) sample_args 0 2 (waiting 2) [A_waitpid 100 7 0]
       = run (P := linux) sample_args 0 2 s' [] /\
     pc s' = At_again /\ buserrs s' = 0 + 1 /\
     ooms s' = 0 /\ segvs s' = 0 /\ rc s' = 0 /\
     signal_idx s' = 0%nat /\ kills (trace s') = [])
  /\
  (exists s',
     run (P := linux) sample_args 0 2 (waiting 2) [A_waitpid 100 11 0]
       = run (P := linux) sample_args 0 2 s' [] /\
     pc s' = At_again /\ segvs s' = 0 + 1 /\
     ooms s' = 0 /\ buserrs s' = 0 /\ rc s' = 0 /\
     signal_idx s' = 0%nat /\ kills (trace s') = []).
Proof.
  split.
  - apply (proj1 (bus_segv_restart (P := linux) sample_args 0 2 (waiting 2)
                    100 100 7 0 [] eq_refl ltac:(discriminate) eq_refl)).
    reflexivity.
  - apply (proj2 (bus_segv_restart (P := linux) sample_args 0 2 (waiting 2)
                    100 100 11 0 [] eq_refl ltac:(discriminate) eq_refl));
      [reflexivity|discriminate|discriminate].
Defined.

Lemma other_signal_ends_witness :
  let s' :=
    run (P := linux) sample_args 0 0 (waiting 0)
      [A_waitpid 100 15 0; A_continue true] in
  pc s' = Returned 0 /\
  ooms s' = 0 /\ segvs s' = 0 /\ buserrs s' = 0 /\
  count_forks (trace s') = 1%nat /\ kills (trace s') = [].
Proof.
  apply (other_signal_ends (P := linux) sample_args 0 0 (waiting 0)
           100 100 15 0 [A_continue true]);
    try reflexivity; try discriminate.
  left. discriminate.
Defined.

Lemma returned_values_witness :
  3 = 0 \/ 3 = -1 \/
  exists st, In st (reaped (child_round 100 768)) /\
             3 = WEXITSTATUS (Platform := linux) st.
Proof.
  apply (proj1 (returned_values (P := linux) sample_args 0 0
                  (child_round 100 768)) 3).
  reflexivity.
Defined.

Lemma child_never_returns_witness :
  in_child
    (pc (run (P := linux) sample_args 0 0 at_fork_state
           (A_fork 0 0 :: child_script (as_root (always att_ok))))) = true /\
  forall v,
    pc (run (P := linux) sample_args 0 0 at_fork_state
          (A_fork 0 0 :: child_script (as_root (always att_ok))))
    <> Returned v.
Proof.
  apply (child_never_returns (P := linux) sample_args 0 0 at_fork_state 0
           (child_script (as_root (always att_ok)))).
  reflexivity.
Defined.

Lemma child_exit_status_witness :
  pc (run (P := linux) sample_args 0 0 in_child_state
        (child_script (as_user (always att_ok)))) = Exited 5.
Proof.
  apply (proj1 (child_exit_status (P := linux) sample_args 0 0 in_child_state
                  (as_user (always att_ok)) 5 0 eq_refl)).
Defined.

Lemma only_kill_first_is_written_witness :
  ("/proc/self/oom_score_adj"%string = "/proc/self/oom_score_adj"%string /\
   "1000"%string = "1000"%string)
  \/ ("/proc/self/oom_score_adj"%string = "/proc/self/oom_adj"%string /\
      "1000"%string = "15"%string).
Proof.
  apply (only_kill_first_is_written (P := linux) sample_args 0 0
           (A_continue true :: A_time_up false :: A_fork 0 0
            :: child_script (as_root (always att_ok)))).
  cbn. tauto.
Defined.

Lemma quiet_is_silent_witness :
  count is_message
    (trace (stress_oomable_child (P := linux) sample_args 2 0
              (flat_map (fun d => child_round (fst d) (snd d))
                 six_deaths
               ++ child_round 107 768))) = 0%nat.
Proof.
  apply (quiet_is_silent (P := linux) sample_args 2 0). reflexivity.
Defined.

Lemma restart_counters_witness :
  ooms (stress_oomable_child (P := linux) sample_args 0 2
          (child_round 100 9 ++ child_round 101 7))
  = 0.
Proof.
  apply (proj2 (proj2 (proj2 (proj2
           (restart_counters (P := linux) sample_args 0 2
              (child_round 100 9
               ++ child_round 101 7)))))).
  reflexivity.
Defined.

Lemma success_iff_written_witness :
  (fst (stress_set_adjustment (P := linux) None oom_score_adj "1000"
          (after_two_eagain att_ok)) = 0 <->
   exists k, (k < 32)%nat /\
             (forall j, (j < k)%nat ->
                retried (P := linux) (after_two_eagain att_ok oom_score_adj j)
                = true) /\
             written (after_two_eagain att_ok oom_score_adj k) = true)
  /\ fst (stress_set_adjustment (P := linux) None oom_score_adj "1000"
            (after_two_eagain att_ok)) <= 0.
Proof.
  apply (success_iff_written (P := linux) None oom_score_adj "1000"
           (after_two_eagain att_ok)).
  intros j _. unfold after_two_eagain. destruct (j <? 2)%nat; reflexivity.
Defined.

Lemma reports_only_instance_zero_witness :
  exists a, Some sample_args = Some a /\ args_instance a = 0 /\
            "vm"%string = args_name a.
Proof.
  apply (reports_only_instance_zero (P := linux) (Some sample_args)
           oom_score_adj "1000" (always att_eacces) "vm" 13).
  cbn. tauto.
Defined.

Lemma write_enoent_falls_back_witness :
  touched oom_adj
    (stress_set_oom_adjustment (P := linux) (Some sample_args) true 0
       (as_root stale_modern)) = true.
Proof.
  apply (write_enoent_falls_back (P := linux) (Some sample_args) true 0
           (as_root stale_modern));
    try reflexivity; discriminate.
Defined.

Lemma only_the_oom_files_witness :
  hd_error
    (stress_set_oom_adjustment (P := linux) None false 0
       (as_user old_kernel))
  = Some (Ev_open "/proc/self/oom_score_adj").
Proof.
  apply (proj1 (proj2 (only_the_oom_files (P := linux) None false 0
                         (as_user old_kernel)))).
  reflexivity.
Defined.

Lemma oomed_iff_some_record_witness :
  stress_process_oomed 7 (Some ["usb 1-1: new device"%string; two_pids]) = true.
Proof.
  apply (proj2 (oomed_iff_some_record 7
                  (Some ["usb 1-1: new device"%string; two_pids]))).
  exists ["usb 1-1: new device"%string; two_pids]. split; [reflexivity|].
  right. left. reflexivity.
Defined.

Lemma first_process_decides_witness :
  oom_record two_pids = Some 7.
Proof.
  exact (first_process_decides "Out of memory: Killed "
           " 7 (a), also process 4242" eq_refl).
Defined.

Lemma scanned_pid_bound_witness :
  sscanf_d 10 " 12345678901" = Some 1234567890 /\
  -999999999 <= 1234567890 <= 9999999999.
Proof.
  split; [reflexivity|].
  apply (scanned_pid_bound " 12345678901" 1234567890). reflexivity.
Defined.

Lemma fork_counts_every_pass_witness :
  let r :=
    stress_fork (P := linux) true 0 (2 ^ 64 - 2) (fork_script ++ [(102, false)])
  in
  fk_counter r = 2 /\
  fk_events r
  = [Fk_fork; Fk_waitpid 100; Fk_fork; Fk_fail; Fk_fork; Fk_waitpid 101;
     Fk_fork; Fk_waitpid 102] /\
  (forall pid, In (Fk_waitpid pid) (fk_events r) ->
     0 < pid /\
     exists run, In (pid, run) (firstn (passes r) (fork_script ++ [(102, false)]))).
Proof.
  assert (Hc : 0 <= 2 ^ 64 - 2 < 2 ^ 64) by (split; [discriminate|reflexivity]).
  pose proof (fork_counts_every_pass (P := linux) true 0 (2 ^ 64 - 2)
                (fork_script ++ [(102, false)]) Hc) as H.
  cbv zeta in H. destruct H as (H1 & _ & H3 & H4 & _).
  split; [rewrite H1; vm_compute; reflexivity|].
  split; [rewrite H3; vm_compute; reflexivity|].
  exact H4.
Defined.

Lemma fork_stops_at_max_ops_witness :
  (let r := stress_fork (P := linux) false 10 6 (fork_script ++ [(102, true)]) in
   fk_outcome r = Fork_returned 0 /\ fk_counter r = 10 /\
   fk_count fk_is_fork (fk_events r) = 4%nat)
  /\
  (let r := stress_fork (P := linux) false 10 10 [(102, true)] in
   fk_outcome r = Fork_returned 0 /\ fk_counter r = 10 + 1 /\
   fk_count fk_is_fork (fk_events r) = 1%nat)
  /\
  (let r := stress_fork (P := linux) false 2 (2 ^ 64 - 1)
              [(102, true); (103, true); (104, true)] in
   let r0 := stress_fork (P := linux) false 2 0 [(103, true); (104, true)] in
   fk_outcome r = fk_outcome r0 /\ fk_counter r = fk_counter r0 /\
   fk_events r = fork_pass false 102 ++ fk_events r0).
Proof.
  split; [|split].
  - apply (proj1 (fork_stops_at_max_ops (P := linux) false 10 102 true []
                    ltac:(discriminate) eq_refl) fork_script 6).
    + discriminate.
    + reflexivity.
    + repeat constructor; discriminate.
  - apply (proj1 (proj2 (fork_stops_at_max_ops (P := linux) false 10 102 true []
                    ltac:(discriminate) eq_refl)) 10).
    + split; [reflexivity|discriminate].
    + reflexivity.
    + discriminate.
  - apply (proj2 (proj2 (fork_stops_at_max_ops (P := linux) false 2 102 true
                    [(103, true); (104, true)]
                    ltac:(discriminate) eq_refl))); reflexivity.
Defined.

Lemma fork_runs_until_stopped_witness :
  let r := stress_fork (P := linux) false 0 0 (fork_script ++ [(102, false)]) in
  fk_outcome r = Fork_returned 0 /\
  fk_count fk_is_fork (fk_events r) = 4%nat.
Proof.
  apply (fork_runs_until_stopped (P := linux) false 102 [] ltac:(discriminate)
           fork_script 0).
  repeat constructor; discriminate.
Defined.

(* ================================================================== *)
(** * The ranges of physical memory *)

Section PhysRangeFacts.
Variable sscanf_range : string -> option (Z * Z).
Variable page_size : Z.

Lemma unusable_skipped (l : iomem_line) (rest : list iomem_line) :
  usable sscanf_range page_size l = false ->
  get_ranges_loop sscanf_range page_size (l :: rest)
  = get_ranges_loop sscanf_range page_size rest.
Proof.
  unfold usable. cbn [get_ranges_loop].
  destruct (found (strstr (c_str (line l)) "System RAM")); [|reflexivity].
  destruct (sscanf_range (c_str (line l))) as [[b e]|]; [|reflexivity].
  cbn [andb]. intros H.
  destruct (Z.leb_spec e b) as [Hle|Hgt]; [reflexivity|].
  destruct (Z.ltb_spec (e - b) page_size) as [Hs|Hs]; [reflexivity|].
  apply andb_false_iff in H as [H|H].
  - apply Z.ltb_ge in H. lia.
  - apply Z.leb_gt in H. lia.
Qed.

Lemma usable_step (l : iomem_line) (rest : list iomem_line) :
  usable sscanf_range page_size l = true ->
  exists b e,
    sscanf_range (c_str (line l)) = Some (b, e) /\ b < e /\
    page_size <= e - b /\
    get_ranges_loop sscanf_range page_size (l :: rest)
    = if allocated l
      then {| addr := b; pages := (e - b) / page_size;
              bitmap := repeat 255
                          (Z.to_nat (round_up_bitmap ((e - b) / page_size)));
              bitmap_size := round_up_bitmap ((e - b) / page_size);
              mappable := true |}
           :: get_ranges_loop sscanf_range page_size rest
      else [].
Proof.
  unfold usable, allocated. cbn [get_ranges_loop].
  destruct (found (strstr (c_str (line l)) "System RAM")); [|discriminate].
  destruct (sscanf_range (c_str (line l))) as [[b e]|]; [|discriminate].
  cbn [andb]. intros H. apply andb_true_iff in H as [H1 H2].
  apply Z.ltb_lt in H1. apply Z.leb_le in H2.
  exists b, e. repeat split; try assumption.
  destruct (Z.leb_spec e b); [lia|].
  destruct (Z.ltb_spec (e - b) page_size); [lia|].
  destruct (malloc_node l), (malloc_bitmap l); reflexivity.
Qed.

End PhysRangeFacts.

Lemma mask_bits (i : Z) :
  0 <= i -> Z.testbit (2 ^ 64 - 8) i = (3 <=? i) && (i <? 64).
Proof.
  intros Hi. change (2 ^ 64 - 8) with (Z.shiftl (Z.ones 61) 3).
  destruct (Z.leb_spec 3 i) as [H3|H3]; cbn [andb].
  - rewrite Z.shiftl_spec by lia.
    destruct (Z.ltb_spec i 64) as [H64|H64].
    + apply Z.ones_spec_low. lia.
    + apply Z.ones_spec_high. lia.
  - apply Z.shiftl_spec_low. lia.
Qed.

(** Clearing the low three bits of a 64-bit value rounds it down to a
    multiple of 8. *)
Lemma land_mask_round (x : Z) :
  0 <= x < 2 ^ 64 -> Z.land x (2 ^ 64 - 8) = 8 * (x / 8).
Proof.
  intros Hx. apply Z.bits_inj'. intros i Hi.
  rewrite Z.land_spec, mask_bits by assumption.
  change 8 with (2 ^ 3). rewrite Z.mul_comm.
  destruct (Z.leb_spec 3 i) as [H3|H3]; cbn [andb].
  - rewrite Z.mul_pow2_bits by lia. rewrite Z.div_pow2_bits by lia.
    replace (i - 3 + 3) with i by lia.
    destruct (Z.ltb_spec i 64) as [H64|H64]; [apply andb_true_r|].
    rewrite andb_false_r. symmetry.
    destruct (Z.eq_dec x 0) as [->|Hnz]; [apply Z.bits_0|].
    apply Z.bits_above_log2; [lia|].
    assert (Z.log2 x < 64) by (apply Z.log2_lt_pow2; lia). lia.
  - rewrite andb_false_r. symmetry. apply Z.mul_pow2_bits_low. lia.
Qed.

Lemma round_up_bitmap_spec (n : Z) :
  0 <= n -> n + 7 < 2 ^ 64 ->
  round_up_bitmap n = 8 * ((n + 7) / 8).
Proof.
  intros H0 H1. unfold round_up_bitmap, bitmap_obj_size.
  replace (n + 8 - 1) with (n + 7) by lia.
  rewrite Z.mod_small by lia.
  change (2 ^ 64 - 1 - (8 - 1)) with (2 ^ 64 - 8).
  apply land_mask_round. lia.
Qed.

Section PhysRangeClaims.
Variable sscanf_range : string -> option (Z * Z).
Variable page_size : Z.

(** Every range that [stress_physmmap_get_ranges] returns comes from a
    line of [/proc/iomem] that contains "System RAM" and scans as two
    addresses with begin below end: it starts at the begin address, has at
    least one page, and its pages are the whole pages that fit between
    begin and end.  It is marked mappable, and its bitmap is all ones and,
    in bytes, the page count rounded up to a multiple of 8, so that there
    is a bit (indeed a byte) for every page. *)
Theorem ranges_well_formed (name : string) (lines : list iomem_line)
    (r : stress_physmmap_t) :
  1 < page_size ->
  (forall s b e, sscanf_range s = Some (b, e) -> 0 <= b /\ e < 2 ^ 64) ->
  In r (fst (stress_physmmap_get_ranges sscanf_range page_size name (inl lines))) ->
  exists l b e,
    In l lines /\
    found (strstr (c_str (line l)) "System RAM") = true /\
    sscanf_range (c_str (line l)) = Some (b, e) /\
    addr r = b /\ b < e /\
    1 <= pages r /\
    addr r + pages r * page_size <= e < addr r + (pages r + 1) * page_size /\
    mappable r = true /\
    bitmap_size r = 8 * ((pages r + 7) / 8) /\
    pages r <= bitmap_size r < pages r + 8 /\
    bitmap r = repeat 255 (Z.to_nat (bitmap_size r)) /\
    Z.of_nat (List.length (bitmap r)) = bitmap_size r.
Proof.
  intros Hps Hscan. cbn [stress_physmmap_get_ranges fst].
  induction lines as [|l rest IH]; [intros []|].
  destruct (usable sscanf_range page_size l) eqn:Hu.
  - destruct (usable_step sscanf_range page_size l rest Hu)
      as (b & e & Hs & Hlt & Hsz & Hstep).
    rewrite Hstep. destruct (allocated l); [|intros []].
    intros [<-|Hin].
    + exists l, b, e. cbn [addr pages bitmap bitmap_size mappable].
      destruct (Hscan _ _ _ Hs) as [Hb He].
      assert (Hpages : 1 <= (e - b) / page_size).
      { apply Z.div_le_lower_bound; lia. }
      assert (Hdiv := Z.mul_div_le (e - b) page_size ltac:(lia)).
      assert (Hmod := Z.mod_pos_bound (e - b) page_size ltac:(lia)).
      assert (Hdm := Z.div_mod (e - b) page_size ltac:(lia)).
      assert (Hle : 2 * ((e - b) / page_size) <= e - b) by nia.
      rewrite round_up_bitmap_spec by lia.
      assert (H8 := Z.div_mod ((e - b) / page_size + 7) 8 ltac:(lia)).
      assert (H8m := Z.mod_pos_bound ((e - b) / page_size + 7) 8 ltac:(lia)).
      unfold usable in Hu. apply andb_true_iff in Hu as [Hram _].
      split; [left; reflexivity|]. split; [exact Hram|].
      split; [exact Hs|]. split; [reflexivity|]. split; [exact Hlt|].
      split; [exact Hpages|]. split; [nia|]. split; [reflexivity|].
      split; [reflexivity|]. split; [lia|]. split; [reflexivity|].
      rewrite repeat_length, Z2Nat.id by lia. reflexivity.
    + destruct (IH Hin) as (l' & b' & e' & Hl & Hrest).
      exists l', b', e'. split; [right; exact Hl|exact Hrest].
  - rewrite unusable_skipped by assumption. intros Hin.
    destruct (IH Hin) as (l' & b' & e' & Hl & Hrest).
    exists l', b', e'. split; [right; exact Hl|exact Hrest].
Qed.

Lemma ranges_app (l1 l2 : list iomem_line) :
  forallb (fun l => implb (usable sscanf_range page_size l) (allocated l)) l1
    = true ->
  get_ranges_loop sscanf_range page_size (l1 ++ l2)
  = get_ranges_loop sscanf_range page_size l1
    ++ get_ranges_loop sscanf_range page_size l2.
Proof.
  induction l1 as [|l l1 IH]; intros H; [reflexivity|].
  cbn [forallb] in H. apply andb_true_iff in H as [Hl H1].
  cbn [app]. destruct (usable sscanf_range page_size l) eqn:Hu.
  - cbn [implb] in Hl.
    destruct (usable_step sscanf_range page_size l (l1 ++ l2) Hu)
      as (b & e & Hs & _ & _ & Hstep).
    destruct (usable_step sscanf_range page_size l l1 Hu)
      as (b' & e' & Hs' & _ & _ & Hstep').
    rewrite Hs in Hs'. injection Hs' as <- <-.
    rewrite Hstep, Hstep', Hl, IH by assumption. reflexivity.
  - rewrite !unusable_skipped by assumption. apply IH, H1.
Qed.

(** The scan keeps the order of the lines and passes over lines it cannot
    use: as long as the allocations succeed, the ranges of a file are the
    ranges of its first part followed by the ranges of the rest.  The
    first usable line whose allocation fails ends the scan: the ranges
    found before it are returned and the lines after it are not looked
    at. *)
Theorem allocation_failure_stops (l1 l2 : list iomem_line) (l : iomem_line) :
  forallb (fun l => implb (usable sscanf_range page_size l) (allocated l)) l1
    = true ->
  get_ranges_loop sscanf_range page_size (l1 ++ l2)
  = get_ranges_loop sscanf_range page_size l1
    ++ get_ranges_loop sscanf_range page_size l2
  /\
  (usable sscanf_range page_size l = true -> allocated l = false ->
   get_ranges_loop sscanf_range page_size (l1 ++ l :: l2)
   = get_ranges_loop sscanf_range page_size l1)
  /\
  (usable sscanf_range page_size l = false ->
   get_ranges_loop sscanf_range page_size (l1 ++ l :: l2)
   = get_ranges_loop sscanf_range page_size (l1 ++ l2)).
Proof.
  intros H. split; [apply ranges_app, H|]. split.
  - intros Hu Ha. rewrite ranges_app by assumption.
    destruct (usable_step sscanf_range page_size l l2 Hu)
      as (b & e & _ & _ & _ & Hstep).
    rewrite Hstep, Ha. apply app_nil_r.
  - intros Hu. rewrite !ranges_app by assumption.
    rewrite unusable_skipped by assumption. reflexivity.
Qed.

End PhysRangeClaims.

Lemma sample_scan_range (s : string) (b e : Z) :
  sample_scan s = Some (b, e) -> 0 <= b /\ e < 2 ^ 64.
Proof.
  unfold sample_scan.
  destruct (String.eqb s "00001000-0009ffff : System RAM");
    [intros H; injection H as <- <-; split; [discriminate|reflexivity]|].
  destruct (String.eqb s "00100000-001007ff : System RAM");
    [intros H; injection H as <- <-; split; [discriminate|reflexivity]|].
  destruct (String.eqb s "00200000-002fffff : System RAM");
    [intros H; injection H as <- <-; split; [discriminate|reflexivity]|].
  discriminate.
Defined.

Lemma ranges_well_formed_witness :
  exists l b e,
    In l [iomem_rom; iomem_small; iomem_low] /\
    found (strstr (c_str (line l)) "System RAM") = true /\
    sample_scan (c_str (line l)) = Some (b, e) /\
    addr low_range = b /\ b < e /\
    1 <= pages low_range /\
    addr low_range + pages low_range * 4096 <= e
      < addr low_range + (pages low_range + 1) * 4096 /\
    mappable low_range = true /\
    bitmap_size low_range = 8 * ((pages low_range + 7) / 8) /\
    pages low_range <= bitmap_size low_range < pages low_range + 8 /\
    bitmap low_range = repeat 255 (Z.to_nat (bitmap_size low_range)) /\
    Z.of_nat (List.length (bitmap low_range)) = bitmap_size low_range.
Proof.
  apply (ranges_well_formed sample_scan 4096 "physmmap"
           [iomem_rom; iomem_small; iomem_low] low_range).
  - reflexivity.
  - exact sample_scan_range.
  - left. reflexivity.
Defined.

Lemma allocation_failure_stops_witness :
  get_ranges_loop sample_scan 4096
    ([iomem_rom; iomem_low] ++ iomem_no_memory :: [iomem_low])
  = get_ranges_loop sample_scan 4096 [iomem_rom; iomem_low].
Proof.
  apply (proj1 (proj2 (allocation_failure_stops sample_scan 4096
                         [iomem_rom; iomem_low] [iomem_low] iomem_no_memory
                         eq_refl)));
    reflexivity.
Defined.

Section PhysRangePages.
Variable sscanf_range : string -> option (Z * Z).
Variable page_size : Z.

(** The page count is the distance between the two addresses divided by
    the page size.  For a line whose end address is the last byte of the
    [n]-th page after the begin address (an inclusive end), that gives
    [n - 1] pages, and a range of a single such page is passed over as too
    small. *)
Theorem inclusive_end_counts_short (l : iomem_line) (rest : list iomem_line)
    (b n : Z) :
  1 < page_size ->
  found (strstr (c_str (line l)) "System RAM") = true ->
  sscanf_range (c_str (line l)) = Some (b, b + n * page_size - 1) ->
  allocated l = true ->
  (n = 1 ->
   get_ranges_loop sscanf_range page_size (l :: rest)
   = get_ranges_loop sscanf_range page_size rest)
  /\
  (2 <= n ->
   exists r,
     get_ranges_loop sscanf_range page_size (l :: rest)
     = r :: get_ranges_loop sscanf_range page_size rest /\
     addr r = b /\ pages r = n - 1).
Proof.
  intros Hps Hram Hscan Halloc. split.
  - intros ->. apply unusable_skipped. unfold usable.
    rewrite Hram, Hscan. cbn [andb].
    replace (page_size <=? b + 1 * page_size - 1 - b) with false
      by (symmetry; apply Z.leb_gt; lia).
    apply andb_false_r.
  - intros Hn.
    assert (Hu : usable sscanf_range page_size l = true).
    { unfold usable. rewrite Hram, Hscan. cbn [andb].
      apply andb_true_iff. split; [apply Z.ltb_lt; nia|apply Z.leb_le; nia]. }
    destruct (usable_step sscanf_range page_size l rest Hu)
      as (b' & e' & Hs & _ & _ & Hstep).
    rewrite Hscan in Hs. injection Hs as <- <-.
    rewrite Hstep, Halloc. eexists. split; [reflexivity|].
    cbn [addr pages]. split; [reflexivity|].
    replace (b + n * page_size - 1 - b) with ((n - 1) * page_size + (page_size - 1))
      by lia.
    rewrite Z.div_add_l by lia. rewrite Z.div_small by lia. lia.
Qed.

End PhysRangePages.

Lemma inclusive_end_counts_short_witness :
  exists r,
    get_ranges_loop sample_scan 4096 [iomem_low]
    = r :: get_ranges_loop sample_scan 4096 [] /\
    addr r = 4096 /\ pages r = 159 - 1.
Proof.
  apply (proj2 (inclusive_end_counts_short sample_scan 4096 iomem_low []
                  4096 159 eq_refl eq_refl eq_refl eq_refl)).
  discriminate.
Defined.

(* ================================================================== *)
(** * The stressor on the ranges *)

Lemma pm_count_app (f : stressor_event -> bool) (t1 t2 : list stressor_event) :
  pm_count f (t1 ++ t2) = (pm_count f t1 + pm_count f t2)%nat.
Proof. unfold pm_count. rewrite filter_app, length_app. reflexivity. Qed.

Section PhysMmapFacts.
Context {P : Platform}.
Variable STRESS_GETBIT : list Z -> Z -> bool.
Variable STRESS_CLRBIT : list Z -> Z -> list Z.
Variable EXIT_NO_RESOURCE : Z.
Variable sscanf_range : string -> option (Z * Z).
Variable name : string.
Variable instance : Z.
Variable page_size : Z.

Local Abbreviation scan := (scan_pages STRESS_GETBIT STRESS_CLRBIT page_size).
Local Abbreviation sweep1 := (sweep_ranges STRESS_GETBIT STRESS_CLRBIT page_size).
Local Abbreviation sweepn := (sweeps STRESS_GETBIT STRESS_CLRBIT page_size).

Lemma accounted_mapped (w : sweep) (off : Z) (sh po : bool) :
  accounted w ->
  accounted
    {| map_success := (map_success w + 1) mod 2 ^ 64;
       map_failed := map_failed w; any_mappable := true;
       pm_trace := pm_trace w ++ [Pm_mmap off sh po; Pm_munmap; Pm_bogo_inc] |}.
Proof.
  intros (Hb & Hle & Hs & Hf). unfold accounted.
  cbn [map_success map_failed pm_trace]. rewrite !pm_count_app.
  change (pm_count is_bogo_inc [Pm_mmap off sh po; Pm_munmap; Pm_bogo_inc])
    with 1%nat.
  change (pm_count is_mmap [Pm_mmap off sh po; Pm_munmap; Pm_bogo_inc])
    with 1%nat.
  change (pm_count is_munmap [Pm_mmap off sh po; Pm_munmap; Pm_bogo_inc])
    with 1%nat.
  split; [lia|]. split; [lia|]. split.
  - rewrite Hs, Z.add_mod_idemp_l by lia. f_equal. lia.
  - rewrite Hf. f_equal. lia.
Qed.

Lemma accounted_failed (w : sweep) (off : Z) (sh po : bool) :
  accounted w ->
  accounted
    {| map_success := map_success w;
       map_failed := (map_failed w + 1) mod 2 ^ 64;
       any_mappable := any_mappable w;
       pm_trace := pm_trace w ++ [Pm_mmap off sh po; Pm_bogo_inc] |}.
Proof.
  intros (Hb & Hle & Hs & Hf). unfold accounted.
  cbn [map_success map_failed pm_trace]. rewrite !pm_count_app.
  change (pm_count is_bogo_inc [Pm_mmap off sh po; Pm_bogo_inc]) with 1%nat.
  change (pm_count is_mmap [Pm_mmap off sh po; Pm_bogo_inc]) with 1%nat.
  change (pm_count is_munmap [Pm_mmap off sh po; Pm_bogo_inc]) with 0%nat.
  split; [lia|]. split; [lia|]. split.
  - rewrite Hs. f_equal. lia.
  - rewrite Hf, Z.add_mod_idemp_l by lia. f_equal. lia.
Qed.

Lemma scan_accounted (n : nat) : forall i offset bm ok w script,
  accounted w ->
  accounted (snd (flow_val (fst (scan n i offset bm ok w script)))).
Proof.
  induction n as [|n IH]; intros i offset bm ok w script Hw;
    cbn [scan_pages]; [exact Hw|].
  destruct script as [|a rest]; [exact Hw|].
  destruct (negb (pa_continue a)); [exact Hw|].
  destruct (negb (STRESS_GETBIT bm i)); [apply IH, Hw|].
  destruct (pa_mapped a); apply IH;
    [apply accounted_mapped|apply accounted_failed]; exact Hw.
Qed.

Lemma sweep_accounted (ranges : list stress_physmmap_t) : forall w script,
  accounted w ->
  accounted (snd (flow_val (fst (sweep1 ranges w script)))).
Proof.
  induction ranges as [|r rest IH]; intros w script Hw;
    cbn [sweep_ranges]; [exact Hw|].
  destruct (negb (mappable r)).
  - specialize (IH w script Hw).
    destruct (sweep1 rest w script) as [[[rs w']|[rs w']|[rs w']] s];
      exact IH.
  - pose proof (scan_accounted (Z.to_nat (pages r)) 0 (addr r) (bitmap r)
                  false w script Hw) as H1.
    destruct (scan (Z.to_nat (pages r)) 0 (addr r) (bitmap r) false w script)
      as [[[[bm ok] w1]|[[bm ok] w1]|[[bm ok] w1]] s1];
      cbn [fst snd flow_val] in H1; try exact H1.
    specialize (IH w1 s1 H1).
    destruct (sweep1 rest w1 s1) as [[[rs w']|[rs w']|[rs w']] s];
      exact IH.
Qed.

Lemma sweeps_accounted (fuel : nat) : forall swept ranges w script,
  accounted w ->
  accounted
    (snd (fst (flow_val (fst (sweepn fuel swept ranges w script))))).
Proof.
  induction fuel as [|fuel IH]; intros swept ranges w script Hw;
    cbn [sweeps]; [exact Hw|].
  assert (Hc : accounted (clear_mappable w)) by exact Hw.
  pose proof (sweep_accounted ranges (clear_mappable w) script Hc) as H1.
  destruct (sweep1 ranges (clear_mappable w) script)
    as [[[rs w']|[rs w']|[rs w']] s];
    cbn [fst snd flow_val] in H1; try exact H1.
  destruct (any_mappable w'); [|exact H1].
  destruct s as [|a s']; [exact H1|].
  destruct (pa_continue a); [apply IH, H1|exact H1].
Qed.

End PhysMmapFacts.

Lemma nth_update_nth (f : Z -> Z) (l : list Z) : forall k k0,
  nth k (update_nth k0 f l) 0 = nth k l 0 \/
  nth k (update_nth k0 f l) 0 = f (nth k l 0).
Proof.
  induction l as [|x t IH]; intros k k0; [left; destruct k0; reflexivity|].
  destruct k0 as [|k0]; destruct k as [|k]; cbn [update_nth nth];
    auto.
Qed.

(** The sample macros only ever clear. *)
Lemma byte_clrbit_clears (bm : list Z) (i j : Z) :
  byte_getbit (byte_clrbit bm i) j = true -> byte_getbit bm j = true.
Proof.
  unfold byte_getbit, byte_clrbit.
  destruct (nth_update_nth (fun b => Z.clearbit b (i mod 8)) bm
              (Z.to_nat (j / 8)) (Z.to_nat (i / 8))) as [E|E];
    rewrite E; [trivial|].
  intros H. apply Z.clearbit_iff in H. tauto.
Qed.

Section PhysMmapShape.
Variable STRESS_GETBIT : list Z -> Z -> bool.
Variable STRESS_CLRBIT : list Z -> Z -> list Z.
Variable page_size : Z.

(** What is assumed of the macros: clearing a bit sets none. *)
Hypothesis clears : forall bm i j,
  STRESS_GETBIT (STRESS_CLRBIT bm i) j = true -> STRESS_GETBIT bm j = true.

Local Abbreviation scan := (scan_pages STRESS_GETBIT STRESS_CLRBIT page_size).
Local Abbreviation sweep1 :=
  (sweep_ranges STRESS_GETBIT STRESS_CLRBIT page_size).
Local Abbreviation sweepn := (sweeps STRESS_GETBIT STRESS_CLRBIT page_size).
Local Abbreviation shrunk' := (shrunk STRESS_GETBIT).

Lemma shrunk_refl (r : stress_physmmap_t) : shrunk' r r.
Proof. unfold shrunk. auto. Qed.

Lemma shrunk_trans (r1 r2 r3 : stress_physmmap_t) :
  shrunk' r1 r2 -> shrunk' r2 r3 -> shrunk' r1 r3.
Proof.
  intros (A1 & B1 & C1 & D1 & E1) (A2 & B2 & C2 & D2 & E2).
  unfold shrunk. repeat split; try congruence.
  - intros H. rewrite <- (D1 H). apply D2. rewrite (D1 H). exact H.
  - auto.
Qed.

Lemma shrunk_all_refl (rs : list stress_physmmap_t) : Forall2 shrunk' rs rs.
Proof. induction rs; constructor; auto using shrunk_refl. Qed.

Lemma shrunk_all_trans (l1 : list stress_physmmap_t) : forall l2 l3,
  Forall2 shrunk' l1 l2 -> Forall2 shrunk' l2 l3 -> Forall2 shrunk' l1 l3.
Proof.
  induction l1 as [|r1 l1 IH]; intros l2 l3 H12 H23;
    inversion H12; subst; inversion H23; subst; constructor;
    eauto using shrunk_trans.
Qed.

Lemma shrunk_in (l1 : list stress_physmmap_t) : forall l2 r',
  Forall2 shrunk' l1 l2 -> In r' l2 -> exists r, In r l1 /\ shrunk' r r'.
Proof.
  induction l1 as [|r1 l1 IH]; intros l2 r' H Hin; inversion H; subst.
  - destruct Hin.
  - destruct Hin as [->|Hin].
    + exists r1. split; [left; reflexivity|assumption].
    + destruct (IH _ _ H4 Hin) as (r & Hr & Hs).
      exists r. split; [right; exact Hr|exact Hs].
Qed.

Lemma set_bitmap_shrunk (r : stress_physmmap_t) (bm : list Z) (ok : bool) :
  mappable r = true ->
  (forall j, STRESS_GETBIT bm j = true -> STRESS_GETBIT (bitmap r) j = true) ->
  shrunk' r (set_bitmap bm ok r).
Proof.
  intros Hm Hb. unfold shrunk, set_bitmap. cbn.
  repeat split; try assumption. congruence.
Qed.

(** The bitmap only loses bits in the loop over the pages. *)
Lemma scan_bits (n : nat) : forall i offset bm ok w script j,
  STRESS_GETBIT
    (fst (fst (flow_val (fst (scan n i offset bm ok w script))))) j = true ->
  STRESS_GETBIT bm j = true.
Proof.
  induction n as [|n IH]; intros i offset bm ok w script j;
    cbn [scan_pages]; [trivial|].
  destruct script as [|a rest]; [trivial|].
  destruct (negb (pa_continue a)); [trivial|].
  destruct (negb (STRESS_GETBIT bm i)); [apply IH|].
  destruct (pa_mapped a); [apply IH|].
  intros H. apply IH in H. exact (clears _ _ _ H).
Qed.

(** Every [mmap] a scan of [n] pages adds is at a page whose bit was
    set. *)
Lemma scan_trace (n : nat) : forall i offset bm ok w script,
  exists new,
    pm_trace (snd (flow_val (fst (scan n i offset bm ok w script))))
    = pm_trace w ++ new /\
    forall off sh po, In (Pm_mmap off sh po) new ->
      exists k, 0 <= k < Z.of_nat n /\ STRESS_GETBIT bm (i + k) = true /\
        off mod 2 ^ 64 = (offset + k * page_size) mod 2 ^ 64.
Proof.
  induction n as [|n IH]; intros i offset bm ok w script.
  - exists []. cbn. rewrite app_nil_r. split; [reflexivity|].
    intros off sh po [].
  - cbn [scan_pages]. destruct script as [|a rest].
    { exists []. cbn. rewrite app_nil_r. split; [reflexivity|].
      intros off sh po []. }
    destruct (negb (pa_continue a)).
    { exists []. cbn. rewrite app_nil_r. split; [reflexivity|].
      intros off sh po []. }
    assert (Hnext : forall bm' new,
      (forall j, STRESS_GETBIT bm' j = true -> STRESS_GETBIT bm j = true) ->
      (forall off sh po, In (Pm_mmap off sh po) new ->
         exists k, 0 <= k < Z.of_nat n /\
           STRESS_GETBIT bm' (i + 1 + k) = true /\
           off mod 2 ^ 64
           = ((offset + page_size) mod 2 ^ 64 + k * page_size) mod 2 ^ 64) ->
      forall off sh po, In (Pm_mmap off sh po) new ->
         exists k, 0 <= k < Z.of_nat (S n) /\
           STRESS_GETBIT bm (i + k) = true /\
           off mod 2 ^ 64 = (offset + k * page_size) mod 2 ^ 64).
    { intros bm' new Hbm Hm off sh po Hin.
      destruct (Hm off sh po Hin) as (k & Hk & Hb & Ho).
      exists (k + 1). split; [lia|]. split.
      - replace (i + (k + 1)) with (i + 1 + k) by lia. auto.
      - rewrite Ho, Z.add_mod_idemp_l by lia. f_equal. lia. }
    destruct (STRESS_GETBIT bm i) eqn:Hbit; cbn [negb].
    2:{ destruct (IH (i + 1) ((offset + page_size) mod 2 ^ 64) bm ok w rest)
          as (new & Ht & Hm).
        exists new. split; [exact Ht|]. apply (Hnext bm); auto. }
    assert (Hhere : forall off sh po tail,
      In (Pm_mmap off sh po)
        (Pm_mmap offset (pa_shared a) (negb (pa_no_populate a)) :: tail) ->
      In (Pm_mmap off sh po) tail \/
      exists k, 0 <= k < Z.of_nat (S n) /\
        STRESS_GETBIT bm (i + k) = true /\
        off mod 2 ^ 64 = (offset + k * page_size) mod 2 ^ 64).
    { intros off sh po tail [E|Hin]; [right|left; exact Hin].
      injection E as <- _ _. exists 0. split; [lia|]. split.
      - rewrite Z.add_0_r. exact Hbit.
      - f_equal. lia. }
    destruct (pa_mapped a).
    + match goal with
      | |- context [scan n ?i' ?o' ?b' ?k' ?w' rest] =>
          destruct (IH i' o' b' k' w' rest) as (new & Ht & Hm)
      end.
      cbn [pm_trace] in Ht. rewrite <- app_assoc in Ht.
      eexists. split; [exact Ht|].
      intros off sh po Hin.
      destruct (Hhere off sh po _ Hin) as [Hin'|Hk]; [|exact Hk].
      destruct Hin' as [E|[E|Hin']]; try discriminate E.
      exact (Hnext bm new (fun j H => H) Hm off sh po Hin').
    + match goal with
      | |- context [scan n ?i' ?o' ?b' ?k' ?w' rest] =>
          destruct (IH i' o' b' k' w' rest) as (new & Ht & Hm)
      end.
      cbn [pm_trace] in Ht. rewrite <- app_assoc in Ht.
      eexists. split; [exact Ht|].
      intros off sh po Hin.
      destruct (Hhere off sh po _ Hin) as [Hin'|Hk]; [|exact Hk].
      destruct Hin' as [E|Hin']; try discriminate E.
      exact (Hnext (STRESS_CLRBIT bm i) new (clears bm i) Hm off sh po Hin').
Qed.

Lemma maps_page_incl (l1 l2 : list stress_physmmap_t) (off : Z) :
  (forall r, In r l1 -> In r l2) ->
  maps_page STRESS_GETBIT page_size l1 off ->
  maps_page STRESS_GETBIT page_size l2 off.
Proof.
  intros Hincl (r & k & Hin & H). exists r, k. split; [auto|exact H].
Qed.

Lemma maps_page_shrunk (l1 l2 : list stress_physmmap_t) (off : Z) :
  Forall2 shrunk' l1 l2 ->
  maps_page STRESS_GETBIT page_size l2 off ->
  maps_page STRESS_GETBIT page_size l1 off.
Proof.
  intros Hs (r' & k & Hin & Hm & Hk & Hb & Ho).
  destruct (shrunk_in _ _ _ Hs Hin) as (r & Hr & A & B & C & D & E).
  exists r, k. split; [exact Hr|]. split.
  - destruct (mappable r) eqn:M; [reflexivity|].
    rewrite (D eq_refl) in Hm. congruence.
  - split; [lia|]. split; [auto|]. rewrite Ho, A. reflexivity.
Qed.

(** One sweep keeps the shape of the table. *)
Lemma sweep_shape (ranges : list stress_physmmap_t) : forall w script,
  Forall2 shrunk' ranges (fst (flow_val (fst (sweep1 ranges w script)))).
Proof.
  induction ranges as [|r rest IH]; intros w script; cbn [sweep_ranges].
  - constructor.
  - destruct (mappable r) eqn:M; cbn [negb].
    + pose proof (scan_bits (Z.to_nat (pages r)) 0 (addr r) (bitmap r)
                    false w script) as Hb.
      destruct (scan (Z.to_nat (pages r)) 0 (addr r) (bitmap r) false w
                  script)
        as [[[[bm ok] w1]|[[bm ok] w1]|[[bm ok] w1]] s1];
        cbn [fst snd flow_val] in Hb.
      * specialize (IH w1 s1).
        destruct (sweep1 rest w1 s1) as [[[rs w']|[rs w']|[rs w']] s];
          cbn [fst snd flow_val] in *;
          (constructor; [apply set_bitmap_shrunk; assumption|exact IH]).
      * cbn [fst snd flow_val].
        constructor; [apply set_bitmap_shrunk; assumption
                     |apply shrunk_all_refl].
      * cbn [fst snd flow_val].
        constructor; [apply set_bitmap_shrunk; assumption
                     |apply shrunk_all_refl].
    + specialize (IH w script).
      destruct (sweep1 rest w script) as [[[rs w']|[rs w']|[rs w']] s];
        cbn [fst snd flow_val] in *;
        (constructor; [apply shrunk_refl|exact IH]).
Qed.

(** Every [mmap] of one sweep is at a set bit of a mappable range. *)
Lemma sweep_trace (ranges : list stress_physmmap_t) : forall w script,
  exists new,
    pm_trace (snd (flow_val (fst (sweep1 ranges w script))))
    = pm_trace w ++ new /\
    forall off sh po, In (Pm_mmap off sh po) new ->
      maps_page STRESS_GETBIT page_size ranges off.
Proof.
  induction ranges as [|r rest IH]; intros w script; cbn [sweep_ranges].
  - exists []. cbn. rewrite app_nil_r. split; [reflexivity|].
    intros off sh po [].
  - destruct (mappable r) eqn:M; cbn [negb].
    + destruct (scan_trace (Z.to_nat (pages r)) 0 (addr r) (bitmap r)
                  false w script) as (new1 & Ht1 & Hm1).
      assert (Hr : forall off sh po, In (Pm_mmap off sh po) new1 ->
                maps_page STRESS_GETBIT page_size (r :: rest) off).
      { intros off sh po Hin.
        destruct (Hm1 off sh po Hin) as (k & Hk & Hb & Ho).
        exists r, k. split; [left; reflexivity|]. split; [exact M|].
        split; [lia|]. split; [exact Hb|exact Ho]. }
      clear Hm1.
      destruct (scan (Z.to_nat (pages r)) 0 (addr r) (bitmap r) false w
                  script)
        as [[[[bm ok] w1]|[[bm ok] w1]|[[bm ok] w1]] s1];
        cbn [fst snd flow_val] in Ht1.
      * destruct (IH w1 s1) as (new2 & Ht2 & Hm2).
        exists (new1 ++ new2).
        destruct (sweep1 rest w1 s1) as [[[rs w']|[rs w']|[rs w']] s];
          cbn [fst snd flow_val] in *;
          (split; [rewrite Ht2, Ht1, app_assoc; reflexivity|];
           intros off sh po Hin; apply in_app_or in Hin;
           destruct Hin as [Hin|Hin]; [exact (Hr off sh po Hin)|];
           apply (maps_page_incl rest); [intros x Hx; right; exact Hx|];
           exact (Hm2 off sh po Hin)).
      * exists new1. cbn [fst snd flow_val]. auto.
      * exists new1. cbn [fst snd flow_val]. auto.
    + destruct (IH w script) as (new & Ht & Hm).
      exists new.
      destruct (sweep1 rest w script) as [[[rs w']|[rs w']|[rs w']] s];
        cbn [fst snd flow_val] in *;
        (split; [exact Ht|];
         intros off sh po Hin;
         apply (maps_page_incl rest); [intros x Hx; right; exact Hx|];
         exact (Hm off sh po Hin)).
Qed.

(** The sweeps only take away.  With macros that clear bits and set
    none, whatever the answers and however the loops are left, the table
    after the sweeps has the ranges of the table before them, in order,
    each with its address, page count and bitmap size; a range that was
    marked unmappable is untouched and so stays unmappable; and no bitmap
    has a bit set that was clear before. *)
Theorem range_table_shrinks (fuel : nat) :
  forall (swept : bool) (ranges : list stress_physmmap_t) (w : sweep)
         (script : list page_answers),
  Forall2 (shrunk STRESS_GETBIT) ranges
    (fst (fst (flow_val (fst (sweeps STRESS_GETBIT STRESS_CLRBIT page_size
                                fuel swept ranges w script))))).
Proof.
  induction fuel as [|fuel IH]; intros swept ranges w script; cbn [sweeps].
  - apply shrunk_all_refl.
  - pose proof (sweep_shape ranges (clear_mappable w) script) as H1.
    destruct (sweep1 ranges (clear_mappable w) script)
      as [[[rs w']|[rs w']|[rs w']] s];
      cbn [fst snd flow_val] in H1; try exact H1.
    destruct (any_mappable w'); [|exact H1].
    destruct s as [|a s']; [exact H1|].
    destruct (pa_continue a); [|exact H1].
    exact (shrunk_all_trans _ _ _ H1 (IH true rs w' s')).
Qed.

(** Every [mmap] of any number of sweeps is at a set bit of a mappable
    range of the table the sweeps started from. *)
Lemma sweeps_trace (fuel : nat) : forall swept ranges w script,
  exists new,
    pm_trace (snd (fst (flow_val (fst (sweepn fuel swept ranges w script)))))
    = pm_trace w ++ new /\
    forall off sh po, In (Pm_mmap off sh po) new ->
      maps_page STRESS_GETBIT page_size ranges off.
Proof.
  induction fuel as [|fuel IH]; intros swept ranges w script; cbn [sweeps].
  - exists []. cbn. rewrite app_nil_r. split; [reflexivity|].
    intros off sh po [].
  - pose proof (sweep_shape ranges (clear_mappable w) script) as Hs.
    destruct (sweep_trace ranges (clear_mappable w) script)
      as (new1 & Ht1 & Hm1).
    change (pm_trace (clear_mappable w)) with (pm_trace w) in Ht1.
    destruct (sweep1 ranges (clear_mappable w) script)
      as [[[rs w']|[rs w']|[rs w']] s];
      cbn [fst snd flow_val] in Hs, Ht1;
      try (exists new1; cbn [fst snd flow_val]; auto; fail).
    destruct (any_mappable w');
      [|exists new1; cbn [fst snd flow_val]; auto].
    destruct s as [|a s']; [exists new1; cbn [fst snd flow_val]; auto|].
    destruct (pa_continue a); [|exists new1; cbn [fst snd flow_val]; auto].
    destruct (IH true rs w' s') as (new2 & Ht2 & Hm2).
    exists (new1 ++ new2).
    split; [rewrite Ht2, Ht1, app_assoc; reflexivity|].
    intros off sh po Hin. apply in_app_or in Hin.
    destruct Hin as [Hin|Hin]; [exact (Hm1 off sh po Hin)|].
    apply (maps_page_shrunk ranges rs); [exact Hs|].
    exact (Hm2 off sh po Hin).
Qed.

End PhysMmapShape.

Section PhysMmapRun.
Context {P : Platform}.
Variable STRESS_GETBIT : list Z -> Z -> bool.
Variable STRESS_CLRBIT : list Z -> Z -> list Z.
Variable EXIT_NO_RESOURCE : Z.
Variable sscanf_range : string -> option (Z * Z).
Variable name : string.
Variable instance : Z.
Variable page_size : Z.

Local Abbreviation scan := (scan_pages STRESS_GETBIT STRESS_CLRBIT page_size).
Local Abbreviation sweep1 :=
  (sweep_ranges STRESS_GETBIT STRESS_CLRBIT page_size).
Local Abbreviation sweepn := (sweeps STRESS_GETBIT STRESS_CLRBIT page_size).

Lemma in_loop_app (t1 t2 : list stressor_event) :
  forallb in_loop t1 = true -> forallb in_loop t2 = true ->
  forallb in_loop (t1 ++ t2) = true.
Proof. intros H1 H2. rewrite forallb_app, H1, H2. reflexivity. Qed.

(** A scan adds events of the loop only, and no more [mmap]s than it
    uses answers. *)
Lemma scan_grows (n : nat) : forall i offset bm ok w script,
  exists new,
    pm_trace (snd (flow_val (fst (scan n i offset bm ok w script))))
    = pm_trace w ++ new /\
    forallb in_loop new = true /\
    (List.length (snd (scan n i offset bm ok w script))
     + pm_count is_mmap new <= List.length script)%nat.
Proof.
  induction n as [|n IH]; intros i offset bm ok w script.
  - exists []. cbn. rewrite app_nil_r. repeat split; lia.
  - cbn [scan_pages]. destruct script as [|a rest].
    { exists []. cbn. rewrite app_nil_r. repeat split; lia. }
    destruct (negb (pa_continue a)).
    { exists []. cbn. rewrite app_nil_r. repeat split; lia. }
    destruct (negb (STRESS_GETBIT bm i)); [|destruct (pa_mapped a)];
      match goal with
      | |- context [scan n ?i' ?o' ?b' ?k' ?w' rest] =>
          destruct (IH i' o' b' k' w' rest) as (new & Ht & Hl & Hc)
      end.
    + exists new. split; [exact Ht|]. split; [exact Hl|].
      cbn [List.length]. lia.
    + cbn [pm_trace] in Ht. rewrite <- app_assoc in Ht.
      eexists. split; [exact Ht|]. split; [cbn [forallb]; exact Hl|].
      rewrite pm_count_app.
      change (pm_count is_mmap
                [Pm_mmap offset (pa_shared a) (negb (pa_no_populate a));
                 Pm_munmap; Pm_bogo_inc]) with 1%nat.
      cbn [List.length]. lia.
    + cbn [pm_trace] in Ht. rewrite <- app_assoc in Ht.
      eexists. split; [exact Ht|]. split; [cbn [forallb]; exact Hl|].
      rewrite pm_count_app.
      change (pm_count is_mmap
                [Pm_mmap offset (pa_shared a) (negb (pa_no_populate a));
                 Pm_bogo_inc]) with 1%nat.
      cbn [List.length]. lia.
Qed.

Lemma sweep_grows (ranges : list stress_physmmap_t) : forall w script,
  exists new,
    pm_trace (snd (flow_val (fst (sweep1 ranges w script))))
    = pm_trace w ++ new /\
    forallb in_loop new = true /\
    (List.length (snd (sweep1 ranges w script)) + pm_count is_mmap new
     <= List.length script)%nat.
Proof.
  induction ranges as [|r rest IH]; intros w script; cbn [sweep_ranges].
  - exists []. cbn. rewrite app_nil_r. repeat split; lia.
  - destruct (negb (mappable r)).
    + destruct (IH w script) as (new & Ht & Hl & Hc). exists new.
      destruct (sweep1 rest w script) as [[[rs w']|[rs w']|[rs w']] s];
        cbn [fst snd flow_val] in *; auto.
    + destruct (scan_grows (Z.to_nat (pages r)) 0 (addr r) (bitmap r)
                  false w script) as (new1 & Ht1 & Hl1 & Hc1).
      destruct (scan (Z.to_nat (pages r)) 0 (addr r) (bitmap r) false w
                  script)
        as [[[[bm ok] w1]|[[bm ok] w1]|[[bm ok] w1]] s1];
        cbn [fst snd flow_val] in Ht1, Hc1;
        try (exists new1; cbn [fst snd flow_val]; auto; fail).
      destruct (IH w1 s1) as (new2 & Ht2 & Hl2 & Hc2).
      exists (new1 ++ new2).
      destruct (sweep1 rest w1 s1) as [[[rs w']|[rs w']|[rs w']] s];
        cbn [fst snd flow_val] in *;
        (split; [rewrite Ht2, Ht1, app_assoc; reflexivity|];
         split; [apply in_loop_app; assumption|];
         rewrite pm_count_app; lia).
Qed.

Lemma sweeps_grows (fuel : nat) : forall swept ranges w script,
  exists new,
    pm_trace (snd (fst (flow_val (fst (sweepn fuel swept ranges w script)))))
    = pm_trace w ++ new /\
    forallb in_loop new = true /\
    (List.length (snd (sweepn fuel swept ranges w script))
     + pm_count is_mmap new <= List.length script)%nat.
Proof.
  induction fuel as [|fuel IH]; intros swept ranges w script; cbn [sweeps].
  - exists []. cbn. rewrite app_nil_r. repeat split; lia.
  - destruct (sweep_grows ranges (clear_mappable w) script)
      as (new1 & Ht1 & Hl1 & Hc1).
    change (pm_trace (clear_mappable w)) with (pm_trace w) in Ht1.
    destruct (sweep1 ranges (clear_mappable w) script)
      as [[[rs w']|[rs w']|[rs w']] s];
      cbn [fst snd flow_val] in Ht1, Hc1;
      try (exists new1; cbn [fst snd flow_val]; auto; fail).
    destruct (any_mappable w');
      [|exists new1; cbn [fst snd flow_val]; auto].
    destruct s as [|a s']; [exists new1; cbn [fst snd flow_val]; auto|].
    cbn [List.length] in Hc1.
    destruct (pa_continue a).
    + destruct (IH true rs w' s') as (new2 & Ht2 & Hl2 & Hc2).
      exists (new1 ++ new2).
      split; [rewrite Ht2, Ht1, app_assoc; reflexivity|].
      split; [apply in_loop_app; assumption|].
      rewrite pm_count_app. lia.
    + exists new1. cbn [fst snd flow_val].
      split; [exact Ht1|]. split; [exact Hl1|]. lia.
Qed.

(** With a refusal among the answers a scan is not left for want of
    answers, and a scan that ran to its end has the refusal before it. *)
Lemma scan_stop (n : nat) : forall i offset bm ok w script,
  has_stop script = true ->
  match fst (scan n i offset bm ok w script) with
  | Go_on _ => has_stop (snd (scan n i offset bm ok w script)) = true
  | Goto_done _ => True
  | Starved _ => False
  end.
Proof.
  induction n as [|n IH]; intros i offset bm ok w script Hs;
    cbn [scan_pages]; [exact Hs|].
  destruct script as [|a rest]; [discriminate Hs|].
  cbn [has_stop existsb] in Hs.
  destruct (negb (pa_continue a)); [exact I|].
  cbn [orb] in Hs.
  destruct (negb (STRESS_GETBIT bm i)); [|destruct (pa_mapped a)];
    apply IH; exact Hs.
Qed.

Lemma sweep_stop (ranges : list stress_physmmap_t) : forall w script,
  has_stop script = true ->
  match fst (sweep1 ranges w script) with
  | Go_on _ => has_stop (snd (sweep1 ranges w script)) = true
  | Goto_done _ => True
  | Starved _ => False
  end.
Proof.
  induction ranges as [|r rest IH]; intros w script Hs;
    cbn [sweep_ranges]; [exact Hs|].
  destruct (negb (mappable r)).
  - specialize (IH w script Hs).
    destruct (sweep1 rest w script) as [[[rs w']|[rs w']|[rs w']] s];
      exact IH.
  - pose proof (scan_stop (Z.to_nat (pages r)) 0 (addr r) (bitmap r) false
                  w script Hs) as H1.
    destruct (scan (Z.to_nat (pages r)) 0 (addr r) (bitmap r) false w script)
      as [[[[bm ok] w1]|[[bm ok] w1]|[[bm ok] w1]] s1];
      cbn [fst snd] in H1; try exact H1.
    specialize (IH w1 s1 H1).
    destruct (sweep1 rest w1 s1) as [[[rs w']|[rs w']|[rs w']] s];
      exact IH.
Qed.

(** One sweep more than there are answers is enough. *)
Lemma sweeps_stop (fuel : nat) : forall swept ranges w script,
  (List.length script < fuel)%nat ->
  has_stop script = true ->
  starved (fst (sweepn fuel swept ranges w script)) = false.
Proof.
  induction fuel as [|fuel IH]; intros swept ranges w script Hf Hs;
    [lia|]. cbn [sweeps].
  pose proof (sweep_stop ranges (clear_mappable w) script Hs) as H1.
  destruct (sweep_grows ranges (clear_mappable w) script)
    as (new1 & _ & _ & Hc1).
  destruct (sweep1 ranges (clear_mappable w) script)
    as [[[rs w']|[rs w']|[rs w']] s];
    cbn [fst snd] in H1, Hc1; [|reflexivity|destruct H1].
  destruct (any_mappable w'); [|reflexivity].
  destruct s as [|a s']; [discriminate H1|].
  cbn [has_stop existsb] in H1. cbn [List.length] in Hc1.
  destruct (pa_continue a); [|reflexivity].
  apply IH; [lia|exact H1].
Qed.

Local Abbreviation physmmap :=
  (stress_physmmap STRESS_GETBIT STRESS_CLRBIT EXIT_NO_RESOURCE sscanf_range
     name instance page_size).

Lemma in_loop_metrics (new : list stressor_event) (s f : Z) :
  forallb in_loop new = true -> ~ In (Pm_metrics s f) new.
Proof.
  intros H Hin. rewrite forallb_forall in H. specialize (H _ Hin).
  discriminate H.
Qed.

Lemma in_loop_close (new : list stressor_event) :
  forallb in_loop new = true -> pm_count is_close_mem new = 0%nat.
Proof.
  induction new as [|e t IH]; [reflexivity|]. cbn [forallb]. intros H.
  apply andb_prop in H as [He Ht]. unfold pm_count in *. cbn [filter].
  destruct e; try discriminate He; cbn [is_close_mem]; auto.
Qed.

(** The events behind [done:] are none of the loop. *)
Lemma done_count (f : stressor_event -> bool) (clock_positive : bool)
    (total : Z) (ranges : list stress_physmmap_t) (w : sweep) (swept : bool) :
  (forall e, in_loop e = false -> f e = false) ->
  pm_count f
    (physmmap_done STRESS_GETBIT name instance clock_positive total ranges w
       swept)
  = pm_count f (pm_trace w).
Proof.
  intros Hf. unfold physmmap_done. rewrite !pm_count_app.
  assert (H1 : pm_count f
                 (if any_mappable w then [] else [Pm_inf_unable name])
               = 0%nat).
  { destruct (any_mappable w); [reflexivity|].
    unfold pm_count. cbn [filter]. rewrite Hf; reflexivity. }
  assert (H2 : pm_count f
                 (if (instance =? 0) && (swept && clock_positive)
                  then [Pm_dbg_scan name total
                          (mappable_pages STRESS_GETBIT ranges)]
                  else [])
               = 0%nat).
  { destruct ((instance =? 0) && (swept && clock_positive));
      [|reflexivity].
    unfold pm_count. cbn [filter]. rewrite Hf; reflexivity. }
  rewrite H1, H2. unfold pm_count. cbn [filter].
  rewrite !Hf by reflexivity. cbn [filter List.length]. lia.
Qed.

Lemma done_close (clock_positive : bool) (total : Z)
    (ranges : list stress_physmmap_t) (w : sweep) (swept : bool) :
  pm_count is_close_mem
    (physmmap_done STRESS_GETBIT name instance clock_positive total ranges w
       swept)
  = S (pm_count is_close_mem (pm_trace w)).
Proof.
  unfold physmmap_done. rewrite !pm_count_app.
  destruct (any_mappable w);
    destruct ((instance =? 0) && (swept && clock_positive));
    unfold pm_count; cbn [filter is_close_mem List.length]; lia.
Qed.

Lemma done_metrics (clock_positive : bool) (total : Z)
    (ranges : list stress_physmmap_t) (w : sweep) (swept : bool) (s f : Z) :
  In (Pm_metrics s f)
    (physmmap_done STRESS_GETBIT name instance clock_positive total ranges w
       swept) ->
  In (Pm_metrics s f) (pm_trace w) \/
  (s = map_success w /\ f = map_failed w).
Proof.
  unfold physmmap_done. intros H.
  apply in_app_or in H. destruct H as [H|H]; [left; exact H|].
  apply in_app_or in H. destruct H as [H|H].
  { destruct (any_mappable w); [destruct H|].
    destruct H as [E|[]]. discriminate E. }
  apply in_app_or in H. destruct H as [H|H].
  { destruct ((instance =? 0) && (swept && clock_positive)); [|destruct H].
    destruct H as [E|[]]. discriminate E. }
  destruct H as [E|[E|[E|[E|[]]]]]; try discriminate E.
  injection E as <- <-. right. split; reflexivity.
Qed.

(** The counters follow the events.  In every run there is one
    [stress_bogo_inc] for each [mmap], no more [munmap]s than [mmap]s and
    no more [mmap]s than answers of [stress_continue]; and the two metrics
    that are reported are the number of mappings that were unmapped again
    and the number of the other [mmap]s, each as a [uint64_t]. *)
Theorem physmmap_accounting (mem : unit + Z) (iomem : list iomem_line + Z)
    (clock_positive : bool) (script : list page_answers) :
  let tr := snd (physmmap mem iomem clock_positive script) in
  pm_count is_bogo_inc tr = pm_count is_mmap tr /\
  (pm_count is_munmap tr <= pm_count is_mmap tr <= List.length script)%nat /\
  forall s f, In (Pm_metrics s f) tr ->
    s = Z.of_nat (pm_count is_munmap tr) mod 2 ^ 64 /\
    f = Z.of_nat (pm_count is_mmap tr - pm_count is_munmap tr) mod 2 ^ 64.
Proof.
  cbv zeta. unfold stress_physmmap.
  destruct mem as [u|errno].
  2:{ cbn. split; [reflexivity|]. split; [lia|].
      intros s f [E|[E|[]]]; discriminate E. }
  destruct (stress_physmmap_get_ranges sscanf_range page_size name iomem)
    as [head msgs].
  destruct head as [|r0 rest].
  { cbn. split; [reflexivity|]. split; [lia|].
    intros s f [E|[E|[E|[]]]]; discriminate E. }
  match goal with
  | |- context [sweepn ?fuel false ?rs ?w0 script] =>
      pose proof (sweeps_accounted STRESS_GETBIT STRESS_CLRBIT page_size
                    fuel false rs w0 script) as Ha;
      destruct (sweeps_grows fuel false rs w0 script)
        as (new & Ht & Hl & Hc);
      assert (Hm0 : pm_count is_mmap (pm_trace w0) = 0%nat)
        by (cbn [pm_trace]; destruct (instance =? 0); reflexivity);
      assert (Hn0 : forall s f, ~ In (Pm_metrics s f) (pm_trace w0))
        by (intros s f; cbn [pm_trace]; destruct (instance =? 0);
            intros [E|[E|[E|[E|[E|H]]]]]; try discriminate E;
            try destruct H as [E|[]]; try discriminate E; try destruct H);
      assert (Hw0 : accounted w0)
        by (unfold accounted; cbn [pm_trace map_success map_failed];
            destruct (instance =? 0); repeat split;
            try reflexivity; apply Nat.le_refl);
      specialize (Ha Hw0);
      destruct (sweepn fuel false rs w0 script)
        as [[[[rs' w'] swept]|[[rs' w'] swept]|[[rs' w'] swept]] s']
  end;
  cbn [fst snd flow_val] in Ha, Ht, Hc; cbn [fst snd];
  destruct Ha as (Hb & Hle & Hs & Hf);
  assert (Hlen : (pm_count is_mmap (pm_trace w') <= List.length script)%nat)
    by (rewrite Ht, pm_count_app, Hm0; lia);
  assert (Hnone : forall s f, ~ In (Pm_metrics s f) (pm_trace w'))
    by (intros s f Hin; rewrite Ht in Hin; apply in_app_or in Hin;
        destruct Hin as [Hin|Hin];
        [exact (Hn0 s f Hin)|exact (in_loop_metrics new s f Hl Hin)]).
  1,2: rewrite !done_count
         by (intros e; destruct e; intros H1;
             try reflexivity; discriminate);
       (split; [exact Hb|]; split; [lia|];
        intros s f Hin; apply done_metrics in Hin;
        destruct Hin as [Hin|[-> ->]];
        [destruct (Hnone s f Hin)|split; assumption]).
  split; [exact Hb|]. split; [lia|].
  intros s f Hin. destruct (Hnone s f Hin).
Qed.

(** The function returns when [stress_continue] refuses.  With a
    refusal among the answers the call returns: [EXIT_NO_RESOURCE] when
    [/dev/mem] cannot be opened or no range was found, [EXIT_SUCCESS]
    otherwise; and [/dev/mem] is closed exactly once when it was opened,
    also on the path without ranges. *)
Theorem physmmap_stops (mem : unit + Z) (iomem : list iomem_line + Z)
    (clock_positive : bool) (script : list page_answers) :
  has_stop script = true ->
  fst (physmmap mem iomem clock_positive script)
  = Some match mem,
           fst (stress_physmmap_get_ranges sscanf_range page_size name iomem)
         with
         | inl _, _ :: _ => EXIT_SUCCESS
         | _, _ => EXIT_NO_RESOURCE
         end /\
  pm_count is_close_mem (snd (physmmap mem iomem clock_positive script))
  = match mem with inl _ => 1%nat | inr _ => 0%nat end.
Proof.
  intros Hstop. unfold stress_physmmap.
  destruct mem as [u|errno]; [|split; reflexivity].
  destruct (stress_physmmap_get_ranges sscanf_range page_size name iomem)
    as [head msgs].
  destruct head as [|r0 rest]; [split; reflexivity|].
  cbv zeta. cbn [fst].
  match goal with
  | |- context [sweepn ?fuel false ?rs ?w0 script] =>
      pose proof (sweeps_stop fuel false rs w0 script
                    (Nat.lt_succ_diag_r _) Hstop) as Hnot;
      destruct (sweeps_grows fuel false rs w0 script)
        as (new & Ht & Hl & _);
      assert (Hc0 : pm_count is_close_mem (pm_trace w0) = 0%nat)
        by (cbn [pm_trace]; destruct (instance =? 0); reflexivity);
      destruct (sweepn fuel false rs w0 script)
        as [[[[rs' w'] swept]|[[rs' w'] swept]|[[rs' w'] swept]] s']
  end;
  cbn [fst snd flow_val starved] in Hnot, Ht; cbn [fst snd];
  try discriminate Hnot;
  (split; [reflexivity|]);
  rewrite done_close, Ht, pm_count_app, Hc0, (in_loop_close new Hl);
  reflexivity.
Qed.

End PhysMmapRun.

Section PhysMmapInside.
Context {P : Platform}.
Variable STRESS_GETBIT : list Z -> Z -> bool.
Variable STRESS_CLRBIT : list Z -> Z -> list Z.
Variable EXIT_NO_RESOURCE : Z.
Variable sscanf_range : string -> option (Z * Z).
Variable name : string.
Variable instance : Z.
Variable page_size : Z.

Hypothesis clears : forall bm i j,
  STRESS_GETBIT (STRESS_CLRBIT bm i) j = true -> STRESS_GETBIT bm j = true.

(** The stressor maps only what the ranges describe.  With macros that
    clear bits and set none, an [mmap] is made only when [/dev/mem] was
    opened, and every offset handed to [mmap] is, as an offset of 64 bits,
    the address of a range returned by [stress_physmmap_get_ranges] plus a
    whole number of pages below the page count of that range.  So nothing
    is mapped when [/dev/mem] cannot be opened, and nothing when no range
    was found. *)
Theorem mmap_inside_ranges (mem : unit + Z) (iomem : list iomem_line + Z)
    (clock_positive : bool) (script : list page_answers)
    (off : Z) (sh po : bool) :
  In (Pm_mmap off sh po)
    (snd (stress_physmmap STRESS_GETBIT STRESS_CLRBIT EXIT_NO_RESOURCE
            sscanf_range name instance page_size mem iomem clock_positive
            script)) ->
  mem = inl tt /\
  fst (stress_physmmap_get_ranges sscanf_range page_size name iomem) <> [] /\
  maps_page STRESS_GETBIT page_size
    (fst (stress_physmmap_get_ranges sscanf_range page_size name iomem)) off.
Proof.
  unfold stress_physmmap.
  destruct mem as [[]|errno].
  2:{ intros [E|[E|[]]]; discriminate E. }
  destruct (stress_physmmap_get_ranges sscanf_range page_size name iomem)
    as [head msgs].
  destruct head as [|r0 rest].
  { intros [E|[E|[E|[]]]]; discriminate E. }
  cbv zeta. cbn [fst].
  intros Hin. split; [reflexivity|]. split; [discriminate|]. revert Hin.
  match goal with
  | |- context [sweeps _ _ _ ?fuel false ?rs ?w0 script] =>
      destruct (sweeps_trace STRESS_GETBIT STRESS_CLRBIT page_size clears
                  fuel false rs w0 script) as (new & Ht & Hm);
      assert (Hn0 : ~ In (Pm_mmap off sh po) (pm_trace w0))
        by (cbn [pm_trace]; destruct (instance =? 0);
            intros [E|[E|[E|[E|[E|H]]]]]; try discriminate E;
            try destruct H as [E|[]]; try discriminate E; try destruct H);
      destruct (sweeps STRESS_GETBIT STRESS_CLRBIT page_size fuel false rs
                  w0 script)
        as [[[[rs' w'] swept]|[[rs' w'] swept]|[[rs' w'] swept]] s']
  end;
  cbn [fst snd flow_val] in Ht; cbn [fst snd]; intros Hin.
  1,2: unfold physmmap_done in Hin; apply in_app_or in Hin;
       destruct Hin as [Hin|Hin];
       [|exfalso; apply in_app_or in Hin; destruct Hin as [Hin|Hin];
         [destruct (any_mappable w'); [destruct Hin|];
          destruct Hin as [E|[]]; discriminate E|];
         apply in_app_or in Hin; destruct Hin as [Hin|Hin];
         [destruct ((instance =? 0) && (swept && clock_positive));
          [|destruct Hin]; destruct Hin as [E|[]]; discriminate E|];
         destruct Hin as [E|[E|[E|[E|[]]]]]; discriminate E].
  all: rewrite Ht in Hin; apply in_app_or in Hin;
       destruct Hin as [Hin|Hin]; [destruct (Hn0 Hin)|];
       exact (Hm off sh po Hin).
Qed.

End PhysMmapInside.

Lemma range_table_shrinks_witness :
  Forall2 (shrunk byte_getbit) two_ranges
    (fst (fst (flow_val (fst (sweeps byte_getbit byte_clrbit 4096 4 false
                                two_ranges fresh_sweep short_script))))).
Proof.
  apply (range_table_shrinks byte_getbit byte_clrbit 4096 byte_clrbit_clears).
Defined.

Lemma physmmap_stops_witness :
  has_stop short_script = true /\
  fst (stress_physmmap (P := linux) byte_getbit byte_clrbit 3 sample_scan
         "physmmap" 0 4096 (inl tt) (inl [iomem_rom; iomem_small; iomem_low])
         true short_script)
  = Some 0 /\
  pm_count is_close_mem
    (snd (stress_physmmap (P := linux) byte_getbit byte_clrbit 3 sample_scan
            "physmmap" 0 4096 (inl tt)
            (inl [iomem_rom; iomem_small; iomem_low]) true short_script))
  = 1%nat.
Proof.
  split; [reflexivity|].
  apply (physmmap_stops (P := linux) byte_getbit byte_clrbit 3 sample_scan
           "physmmap" 0 4096 (inl tt)
           (inl [iomem_rom; iomem_small; iomem_low]) true short_script).
  reflexivity.
Defined.

Lemma mmap_inside_ranges_witness :
  In (Pm_mmap 4096 true true)
    (snd (stress_physmmap (P := linux) byte_getbit byte_clrbit 3 sample_scan
            "physmmap" 0 4096 (inl tt)
            (inl [iomem_rom; iomem_small; iomem_low]) true short_script)) /\
  maps_page byte_getbit 4096
    (fst (stress_physmmap_get_ranges sample_scan 4096 "physmmap"
            (inl [iomem_rom; iomem_small; iomem_low])))
    4096.
Proof.
  assert (H : In (Pm_mmap 4096 true true)
    (snd (stress_physmmap (P := linux) byte_getbit byte_clrbit 3 sample_scan
            "physmmap" 0 4096 (inl tt)
            (inl [iomem_rom; iomem_small; iomem_low]) true short_script))).
  { vm_compute. tauto. }
  split; [exact H|].
  exact (proj2 (proj2
           (mmap_inside_ranges (P := linux) byte_getbit byte_clrbit 3
              sample_scan "physmmap" 0 4096 byte_clrbit_clears (inl tt)
              (inl [iomem_rom; iomem_small; iomem_low]) true short_script
              4096 true true H))).
Defined.
